(** * Contact directory (hw.py): a shallow embedding and its properties

    The development follows the layout of [hw.py]:
    - the parts of the Python runtime the program relies on (text, exceptions,
      [str.isdigit], insertion-ordered dictionaries, [datetime.date],
      [strptime]/[strftime] for the format [%Y.%m.%d]);
    - the classes [Phone], [Birthday], [Record] and [AddressBook];
    - the decorator [input_error] and the command handlers;
    - the properties of the natural-language specification.

    Mutation is modelled by explicit state passing: a method that mutates
    [self] returns the new object next to its outcome, and the outcome of a
    call that may raise is a [result]. The runtime is CPython 3.11: its
    Unicode tables, the messages of its exceptions and the algorithms of its
    [datetime] module. The two inputs that the program reads from its
    environment are parameters: [today], the value of
    [datetime.today().date()], and [normalize_century], how the C library
    prints the year in [strftime]. *)

From Stdlib Require Import String Ascii ZArith List Lia Bool Permutation.
Import ListNotations.
Open Scope Z_scope.

(** ** Python text

    A Python [str] is a sequence of Unicode code points; [len] counts code
    points. *)

Definition str := list Z.

Definition lit (s : string) : str :=
  map (fun a => Z.of_N (N_of_ascii a)) (list_ascii_of_string s).

Fixpoint str_eqb (a b : str) : bool :=
  match a, b with
  | [], [] => true
  | x :: a', y :: b' => (x =? y) && str_eqb a' b'
  | _, _ => false
  end.

(** [sep.join(parts)] *)
Fixpoint join (sep : str) (parts : list str) : str :=
  match parts with
  | [] => []
  | [p] => p
  | p :: rest => p ++ sep ++ join sep rest
  end.

(** [str(n)] for an integer, by repeated division; the number of binary
    digits bounds the number of decimal ones. *)
Fixpoint digits_rev (fuel : nat) (n : Z) : str :=
  match fuel with
  | O => []
  | S fuel' =>
      (48 + n mod 10) :: (if n <? 10 then [] else digits_rev fuel' (n / 10))
  end.

Definition str_of_nonneg (n : Z) : str :=
  rev (digits_rev (S (Z.to_nat (Z.log2 n))) n).

Definition str_of_int (n : Z) : str :=
  if n <? 0 then 45 :: str_of_nonneg (- n) else str_of_nonneg n.

(** Padding with zeros on the left up to a width, as [%02d] does. *)
Definition zero_pad (width : nat) (s : str) : str :=
  repeat 48 (width - length s) ++ s.

(** ** Unicode character classes (Unicode 14.0.0, CPython 3.11)

    [Py_UNICODE_ISDIGIT] holds of the code points whose Numeric_Type is Digit
    or Decimal; [Py_UNICODE_ISDECIMAL] of those whose Numeric_Type is
    Decimal. Both tables are given as inclusive ranges. *)

Definition in_ranges (tbl : list (Z * Z)) (c : Z) : bool :=
  existsb (fun r => (fst r <=? c) && (c <=? snd r)) tbl.

Definition digit_ranges : list (Z * Z) :=
  [(48, 57); (178, 179); (185, 185); (1632, 1641); (1776, 1785);
   (1984, 1993); (2406, 2415); (2534, 2543); (2662, 2671); (2790, 2799);
   (2918, 2927); (3046, 3055); (3174, 3183); (3302, 3311); (3430, 3439);
   (3558, 3567); (3664, 3673); (3792, 3801); (3872, 3881); (4160, 4169);
   (4240, 4249); (4969, 4977); (6112, 6121); (6160, 6169); (6470, 6479);
   (6608, 6618); (6784, 6793); (6800, 6809); (6992, 7001); (7088, 7097);
   (7232, 7241); (7248, 7257); (8304, 8304); (8308, 8313); (8320, 8329);
   (9312, 9320); (9332, 9340); (9352, 9360); (9450, 9450); (9461, 9469);
   (9471, 9471); (10102, 10110); (10112, 10120); (10122, 10130);
   (42528, 42537); (43216, 43225); (43264, 43273); (43472, 43481);
   (43504, 43513); (43600, 43609); (44016, 44025); (65296, 65305);
   (66720, 66729); (68160, 68163); (68912, 68921); (69216, 69224);
   (69714, 69722); (69734, 69743); (69872, 69881); (69942, 69951);
   (70096, 70105); (70384, 70393); (70736, 70745); (70864, 70873);
   (71248, 71257); (71360, 71369); (71472, 71481); (71904, 71913);
   (72016, 72025); (72784, 72793); (73040, 73049); (73120, 73129);
   (92768, 92777); (92864, 92873); (93008, 93017); (120782, 120831);
   (123200, 123209); (123632, 123641); (125264, 125273); (127232, 127242);
   (130032, 130041)].

(** Every run of decimal digits starts at a zero and is a multiple of ten
    long, so the value of a decimal digit is its offset in the run modulo
    ten. *)
Definition decimal_ranges : list (Z * Z) :=
  [(48, 57); (1632, 1641); (1776, 1785); (1984, 1993); (2406, 2415);
   (2534, 2543); (2662, 2671); (2790, 2799); (2918, 2927); (3046, 3055);
   (3174, 3183); (3302, 3311); (3430, 3439); (3558, 3567); (3664, 3673);
   (3792, 3801); (3872, 3881); (4160, 4169); (4240, 4249); (6112, 6121);
   (6160, 6169); (6470, 6479); (6608, 6617); (6784, 6793); (6800, 6809);
   (6992, 7001); (7088, 7097); (7232, 7241); (7248, 7257); (42528, 42537);
   (43216, 43225); (43264, 43273); (43472, 43481); (43504, 43513);
   (43600, 43609); (44016, 44025); (65296, 65305); (66720, 66729);
   (68912, 68921); (69734, 69743); (69872, 69881); (69942, 69951);
   (70096, 70105); (70384, 70393); (70736, 70745); (70864, 70873);
   (71248, 71257); (71360, 71369); (71472, 71481); (71904, 71913);
   (72016, 72025); (72784, 72793); (73040, 73049); (73120, 73129);
   (92768, 92777); (92864, 92873); (93008, 93017); (120782, 120831);
   (123200, 123209); (123632, 123641); (125264, 125273); (130032, 130041)].

Definition Py_UNICODE_ISDIGIT (c : Z) : bool := in_ranges digit_ranges c.

Definition Py_UNICODE_ISDECIMAL (c : Z) : bool := in_ranges decimal_ranges c.

Definition Py_UNICODE_TODECIMAL (c : Z) : option Z :=
  match find (fun r => (fst r <=? c) && (c <=? snd r)) decimal_ranges with
  | Some r => Some ((c - fst r) mod 10)
  | None => None
  end.

(** [s.isdigit()]: every character is a digit and there is at least one. *)
Definition isdigit (s : str) : bool :=
  match s with
  | [] => false
  | _ => forallb Py_UNICODE_ISDIGIT s
  end.

(** The characters [0] to [9]. *)
Definition ascii_digit (c : Z) : bool := (48 <=? c) && (c <=? 57).

(** ** Exceptions and outcomes *)

Inductive exn : Type :=
| KeyError
| ValueError (msg : str)
| IndexError
| TypeError (msg : str)
| OverflowError (msg : str).

(** [str(e)] for the exceptions that carry one message argument. A
    [KeyError] or [IndexError] raised without arguments prints as the empty
    text. *)
Definition exn_str (e : exn) : str :=
  match e with
  | KeyError | IndexError => []
  | ValueError m | TypeError m | OverflowError m => m
  end.

Inductive result (A : Type) : Type :=
| Ok (a : A)
| Raise (e : exn).

Arguments Ok {A} a.
Arguments Raise {A} e.

Definition bind {A B : Type} (m : result A) (k : A -> result B) : result B :=
  match m with
  | Ok a => k a
  | Raise e => Raise e
  end.

Declare Scope result_scope.
Delimit Scope result_scope with result.
Notation "x <- m ;; k" := (bind m (fun x => k))
  (at level 100, m at next level, right associativity) : result_scope.
Open Scope result_scope.


(** ** Insertion-ordered dictionaries

    A Python [dict] iterates in insertion order, and assigning to a key that
    is present keeps its position. The order is observable in this program
    (it fixes the order of the upcoming-birthday entries), so a dictionary is
    an association list in insertion order. *)

Section Dict.
Context {K V : Type}.
Variable eqb : K -> K -> bool.

Fixpoint dict_get (d : list (K * V)) (k : K) : option V :=
  match d with
  | [] => None
  | (k', v) :: d' => if eqb k' k then Some v else dict_get d' k
  end.

(** [d[k] = v] *)
Fixpoint dict_set (d : list (K * V)) (k : K) (v : V) : list (K * V) :=
  match d with
  | [] => [(k, v)]
  | (k', v') :: d' =>
      if eqb k' k then (k', v) :: d' else (k', v') :: dict_set d' k v
  end.

(** The object stored under [k] was mutated in place and is now [v]: the
    entry under [k] shows the new state. The dictionary holds references,
    so a dictionary that has no entry under [k] is not changed by it. *)
Fixpoint dict_update (d : list (K * V)) (k : K) (v : V) : list (K * V) :=
  match d with
  | [] => []
  | (k', v') :: d' =>
      if eqb k' k then (k', v) :: d' else (k', v') :: dict_update d' k v
  end.

(** [del d[k]], for a key that may be absent *)
Fixpoint dict_del (d : list (K * V)) (k : K) : list (K * V) :=
  match d with
  | [] => []
  | (k', v) :: d' => if eqb k' k then d' else (k', v) :: dict_del d' k
  end.

Definition dict_keys (d : list (K * V)) : list K := map fst d.

Definition dict_values (d : list (K * V)) : list V := map snd d.
End Dict.

(** ** [datetime.date]

    The proleptic Gregorian calendar of the [datetime] module: a date is a
    year, a month and a day; day 1 is 0001-01-01. *)

Record date : Type := mkdate { year : Z; month : Z; day : Z }.

Definition MINYEAR : Z := 1.
Definition MAXYEAR : Z := 9999.
Definition MAXORDINAL : Z := 3652059.

Definition is_leap (y : Z) : bool :=
  (y mod 4 =? 0) && (negb (y mod 100 =? 0) || (y mod 400 =? 0)).

Definition DAYS_IN_MONTH (m : Z) : Z :=
  match m with
  | 1 => 31 | 2 => 28 | 3 => 31 | 4 => 30 | 5 => 31 | 6 => 30
  | 7 => 31 | 8 => 31 | 9 => 30 | 10 => 31 | 11 => 30 | 12 => 31
  | _ => -1
  end.

Definition DAYS_BEFORE_MONTH (m : Z) : Z :=
  match m with
  | 1 => 0 | 2 => 31 | 3 => 59 | 4 => 90 | 5 => 120 | 6 => 151
  | 7 => 181 | 8 => 212 | 9 => 243 | 10 => 273 | 11 => 304 | 12 => 334
  | _ => -1
  end.

Definition days_before_year (y : Z) : Z :=
  let y := y - 1 in y * 365 + y / 4 - y / 100 + y / 400.

Definition days_in_month (y m : Z) : Z :=
  if (m =? 2) && is_leap y then 29 else DAYS_IN_MONTH m.

Definition days_before_month (y m : Z) : Z :=
  DAYS_BEFORE_MONTH m + (if (2 <? m) && is_leap y then 1 else 0).

Definition ymd2ord (y m d : Z) : Z :=
  days_before_year y + days_before_month y m + d.

Definition DI400Y : Z := 146097.
Definition DI100Y : Z := 36524.
Definition DI4Y : Z := 1461.

Definition ord2ymd (ordinal : Z) : date :=
  let n := ordinal - 1 in
  let n400 := n / DI400Y in
  let n := n mod DI400Y in
  let n100 := n / DI100Y in
  let n := n mod DI100Y in
  let n4 := n / DI4Y in
  let n := n mod DI4Y in
  let n1 := n / 365 in
  let n := n mod 365 in
  let y := n400 * 400 + 1 + n100 * 100 + n4 * 4 + n1 in
  if (n1 =? 4) || (n100 =? 4) then mkdate (y - 1) 12 31
  else
    let leapyear := (n1 =? 3) && (negb (n4 =? 24) || (n100 =? 3)) in
    let m := Z.shiftr (n + 50) 5 in
    let preceding :=
      DAYS_BEFORE_MONTH m + (if (2 <? m) && leapyear then 1 else 0) in
    if n <? preceding
    then mkdate y (m - 1) (n - (preceding - days_in_month y (m - 1)) + 1)
    else mkdate y m (n - preceding + 1).

(** The checks of the [date] constructor, in its order. *)
Definition date_new (y m d : Z) : result date :=
  if (y <? MINYEAR) || (MAXYEAR <? y)
  then Raise (ValueError (lit "year " ++ str_of_int y ++ lit " is out of range"))
  else if (m <? 1) || (12 <? m)
  then Raise (ValueError (lit "month must be in 1..12"))
  else if (d <? 1) || (days_in_month y m <? d)
  then Raise (ValueError (lit "day is out of range for month"))
  else Ok (mkdate y m d).

(** [d.replace(year=y)] *)
Definition date_replace_year (d : date) (y : Z) : result date :=
  date_new y (month d) (day d).

Definition toordinal (d : date) : Z := ymd2ord (year d) (month d) (day d).

(** Monday is 0, Sunday is 6. *)
Definition weekday (d : date) : Z := (toordinal d + 6) mod 7.

(** [a < b]: the dates are compared as (year, month, day) triples. *)
Definition date_ltb (a b : date) : bool :=
  (year a <? year b)
  || ((year a =? year b)
      && ((month a <? month b)
          || ((month a =? month b) && (day a <? day b)))).

Definition date_eqb (a b : date) : bool :=
  (year a =? year b) && (month a =? month b) && (day a =? day b).

(** [d + timedelta(days=k)] *)
Definition date_add_days (d : date) (k : Z) : result date :=
  let o := toordinal d + k in
  if (0 <? o) && (o <=? MAXORDINAL) then Ok (ord2ymd o)
  else Raise (OverflowError (lit "date value out of range")).

(** [(a - b).days] *)
Definition date_sub_days (a b : date) : Z := toordinal a - toordinal b.

(** A date that the constructor accepts. *)
Definition valid_date (d : date) : Prop :=
  MINYEAR <= year d <= MAXYEAR /\ 1 <= month d <= 12 /\
  1 <= day d <= days_in_month (year d) (month d).

(** ** [datetime.strptime(value, "%Y.%m.%d")]

    [_strptime] turns the format into the regular expression
    [(?P<Y>\d\d\d\d)\.(?P<m>1[0-2]|0[1-9]|[1-9])\.(?P<d>3[0-1]|[1-2]\d|0[1-9]|[1-9]| [1-9])],
    matches it at the start of the text, rejects text left over after the
    match, converts the groups with [int] and builds the date. The matcher
    below is the backtracking matcher of [re] for the constructs of that
    expression: alternatives are tried from left to right, and a later one
    is tried when the rest of the expression fails after an earlier one. *)

Inductive regex : Type :=
| Lit (c : Z)
| Cls (lo hi : Z)
| DigitCls
| Cat (r1 r2 : regex)
| Alt (r1 r2 : regex)
| Grp (name : Z) (r : regex).

Fixpoint re_match {A : Type} (r : regex) (s : str) (groups : list (Z * str))
    (k : str -> list (Z * str) -> option A) : option A :=
  match r with
  | Lit c =>
      match s with
      | x :: s' => if x =? c then k s' groups else None
      | [] => None
      end
  | Cls lo hi =>
      match s with
      | x :: s' => if (lo <=? x) && (x <=? hi) then k s' groups else None
      | [] => None
      end
  | DigitCls =>
      match s with
      | x :: s' => if Py_UNICODE_ISDECIMAL x then k s' groups else None
      | [] => None
      end
  | Cat r1 r2 => re_match r1 s groups (fun s' g' => re_match r2 s' g' k)
  | Alt r1 r2 =>
      match re_match r1 s groups k with
      | Some a => Some a
      | None => re_match r2 s groups k
      end
  | Grp name r1 =>
      re_match r1 s groups
        (fun s' g' => k s' ((name, firstn (length s - length s') s) :: g'))
  end.

Definition group_Y : Z := 89.
Definition group_m : Z := 109.
Definition group_d : Z := 100.

Definition regex_Y : regex :=
  Grp group_Y (Cat DigitCls (Cat DigitCls (Cat DigitCls DigitCls))).

Definition regex_m : regex :=
  Grp group_m
    (Alt (Cat (Lit 49) (Cls 48 50))
      (Alt (Cat (Lit 48) (Cls 49 57))
        (Cls 49 57))).

Definition regex_d : regex :=
  Grp group_d
    (Alt (Cat (Lit 51) (Cls 48 49))
      (Alt (Cat (Cls 49 50) DigitCls)
        (Alt (Cat (Lit 48) (Cls 49 57))
          (Alt (Cls 49 57)
            (Cat (Lit 32) (Cls 49 57)))))).

Definition format_regex : regex :=
  Cat regex_Y (Cat (Lit 46) (Cat regex_m (Cat (Lit 46) regex_d))).

(** [int(text)] on the texts a group of [format_regex] captures: decimal
    digits of any script, after blanks. *)
Fixpoint decimal_value (acc : Z) (s : str) : option Z :=
  match s with
  | [] => Some acc
  | c :: s' =>
      match Py_UNICODE_TODECIMAL c with
      | Some v => decimal_value (10 * acc + v) s'
      | None => None
      end
  end.

Fixpoint lstrip_blank (s : str) : str :=
  match s with
  | 32 :: s' => lstrip_blank s'
  | _ => s
  end.

Definition py_int (s : str) : option Z :=
  match lstrip_blank s with
  | [] => None
  | t => decimal_value 0 t
  end.

Definition group (groups : list (Z * str)) (name : Z) : option Z :=
  match dict_get Z.eqb groups name with
  | Some text => py_int text
  | None => None
  end.

(** [None] stands for the [ValueError] that [strptime] raises; its only
    caller replaces the message, so the message is not modelled. The result
    is the date of the [datetime] object, whose time of day is midnight and
    is never read. *)
Definition strptime_Ymd (data_string : str) : option date :=
  match re_match format_regex data_string []
          (fun rest groups => Some (rest, groups)) with
  | None => None
  | Some (_ :: _, _) => None
  | Some ([], groups) =>
      match group groups group_Y, group groups group_m,
            group groups group_d with
      | Some y, Some m, Some d =>
          match date_new y m d with
          | Ok dt => Some dt
          | Raise _ => None
          end
      | _, _, _ => None
      end
  end.

(** [d.strftime("%Y.%m.%d")]. The C library prints [%m] and [%d] on two
    digits. For [%Y], CPython hands the year to the platform's [strftime]:
    glibc prints it without padding, while other C libraries, and CPython
    from 3.13 on (where it normalises the century itself), print at least
    four digits. [normalize_century] selects the second behaviour. *)
Definition strftime_Ymd (normalize_century : bool) (d : date) : str :=
  (if normalize_century then zero_pad 4 (str_of_int (year d))
   else str_of_int (year d))
  ++ [46] ++ zero_pad 2 (str_of_int (month d))
  ++ [46] ++ zero_pad 2 (str_of_int (day d)).

(** ** The fields: [Phone] and [Birthday] *)

Definition InvalidPhone : exn :=
  ValueError (lit "Phone number must contain 10 digits.").

Definition InvalidDateFormat : exn :=
  ValueError (lit "Invalid date format. Use YYYY.MM.DD").

(** [Phone(value).validate()] *)
Definition Phone_validate (value : str) : result unit :=
  if negb (Z.of_nat (length value) =? 10) || negb (isdigit value)
  then Raise InvalidPhone
  else Ok tt.

(** [Birthday(value)]: the stored value, or the error raised in place of
    the [ValueError] of [strptime]. *)
Definition Birthday_init (value : str) : result date :=
  match strptime_Ymd value with
  | Some d => Ok d
  | None => Raise InvalidDateFormat
  end.

(** [str(birthday)] *)
Definition Birthday_str (normalize_century : bool) (value : date) : str :=
  strftime_Ymd normalize_century value.

(** ** [Record] *)

Record record : Type :=
  mkRecord { name : str; phones : list str; birthday : option date }.

Definition Record_init (nm : str) : record := mkRecord nm [] None.

Definition Record_add_phone (self : record) (phone : str)
  : record * result unit :=
  match Phone_validate phone with
  | Ok _ => (mkRecord (name self) (phones self ++ [phone]) (birthday self),
             Ok tt)
  | Raise e => (self, Raise e)
  end.

Definition Record_remove_phone (self : record) (phone : str) : record :=
  mkRecord (name self)
    (filter (fun p => negb (str_eqb p phone)) (phones self))
    (birthday self).

Definition Record_edit_phone (self : record) (old_phone new_phone : str)
  : record * result unit :=
  Record_add_phone (Record_remove_phone self old_phone) new_phone.

Definition Record_add_birthday (self : record) (text : str)
  : record * result unit :=
  match Birthday_init text with
  | Ok b => (mkRecord (name self) (phones self) (Some b), Ok tt)
  | Raise e => (self, Raise e)
  end.

Definition Record_str (normalize_century : bool) (self : record) : str :=
  let phones_str := join (lit ", ") (phones self) in
  let birthday_str :=
    match birthday self with
    | Some b => lit ", birthday: " ++ Birthday_str normalize_century b
    | None => []
    end in
  lit "Contact name: " ++ name self ++ lit ", phones: " ++ phones_str
    ++ birthday_str.

(** ** [AddressBook]

    The [data] of the [UserDict]: records by key, in insertion order. The
    book holds its records by reference: a record is put into the book by
    [add_record] only, and mutating a record that the book holds under a
    key changes the entry under that key ([dict_update]). *)

Definition AddressBook : Type := list (str * record).

Definition AddressBook_add_record (self : AddressBook) (r : record)
  : AddressBook :=
  dict_set str_eqb self (name r) r.

Definition AddressBook_find (self : AddressBook) (nm : str) : option record :=
  dict_get str_eqb self nm.

Definition AddressBook_delete (self : AddressBook) (nm : str) : AddressBook :=
  dict_del str_eqb self nm.

(** A value of [birthdays_dict] and an element of [upcoming_birthdays]. *)
Record bucket : Type :=
  mkBucket { congratulation_date : date; users : list str }.

Record upcoming : Type :=
  mkUpcoming { up_name : str;
               up_congratulation_date : date;
               up_days_until_birthday : Z }.

(** Lines 79 to 93: the date on which a birthday is congratulated. *)
Definition congratulate (today birthday_value : date) : result date :=
  birthday_this_year <- date_replace_year birthday_value (year today) ;;
  birthday_this_year <-
    (if date_ltb birthday_this_year today
     then date_replace_year birthday_this_year (year today + 1)
     else Ok birthday_this_year) ;;
  if weekday birthday_this_year =? 5
  then date_add_days birthday_this_year 2
  else if weekday birthday_this_year =? 6
  then date_add_days birthday_this_year 1
  else Ok birthday_this_year.

(** The body of the first loop, for one record. *)
Definition collect (today : date) (birthdays_dict : list (date * bucket))
    (r : record) : result (list (date * bucket)) :=
  match birthday r with
  | None => Ok birthdays_dict
  | Some b =>
      cd <- congratulate today b ;;
      let days_until_birthday := date_sub_days cd today in
      if days_until_birthday <=? 7
      then
        match dict_get date_eqb birthdays_dict cd with
        | None =>
            Ok (dict_set date_eqb birthdays_dict cd (mkBucket cd [name r]))
        | Some data =>
            Ok (dict_set date_eqb birthdays_dict cd
                  (mkBucket (congratulation_date data)
                            (users data ++ [name r])))
        end
      else Ok birthdays_dict
  end.

Fixpoint collect_all (today : date) (birthdays_dict : list (date * bucket))
    (records : list record) : result (list (date * bucket)) :=
  match records with
  | [] => Ok birthdays_dict
  | r :: rest =>
      birthdays_dict' <- collect today birthdays_dict r ;;
      collect_all today birthdays_dict' rest
  end.

(** The second loop. *)
Definition entries_of (today : date) (data : bucket) : list upcoming :=
  map (fun nm =>
         mkUpcoming nm (congratulation_date data)
           (date_sub_days (congratulation_date data) today))
      (users data).

(** [today] is the value of [datetime.today().date()]. *)
Definition get_upcoming_birthdays (today : date) (self : AddressBook)
  : result (list upcoming) :=
  birthdays_dict <- collect_all today [] (dict_values self) ;;
  Ok (flat_map (entries_of today) (dict_values birthdays_dict)).

(** ** Calls and the decorator [input_error]

    A handler is called as [handler(address_book, *args)]. Binding [args]
    to the parameters after [address_book] fails with a [TypeError] when
    their number does not fit; the call happens inside the [try] of
    [input_error]. *)

Definition quoted (s : str) : str := [39] ++ s ++ [39].

(** The names in a "missing arguments" message. *)
Definition format_missing (names : list str) : str :=
  match rev names with
  | [] => []
  | [a] => quoted a
  | [b; a] => quoted a ++ lit " and " ++ quoted b
  | z :: front =>
      join (lit ", ") (map quoted (rev front)) ++ lit ", and " ++ quoted z
  end.

Definition plural (n : nat) : str :=
  match n with 1%nat => [] | _ => lit "s" end.

Definition missing_arguments (fname : str) (missing : list str) : exn :=
  TypeError
    (fname ++ lit "() missing " ++ str_of_int (Z.of_nat (length missing))
       ++ lit " required positional argument" ++ plural (length missing)
       ++ lit ": " ++ format_missing missing).

Definition too_many_arguments (fname : str) (takes given : nat) : exn :=
  TypeError
    (fname ++ lit "() takes " ++ str_of_int (Z.of_nat takes)
       ++ lit " positional argument" ++ plural takes ++ lit " but "
       ++ str_of_int (Z.of_nat given)
       ++ (match given with 1%nat => lit " was" | _ => lit " were" end)
       ++ lit " given").

(** The error of a call with [args] after the address book to a function
    whose parameters after the address book are [params]. *)
Definition arity_error (fname : str) (params : list str) (args : list str)
  : exn :=
  if (length args <? length params)%nat
  then missing_arguments fname (skipn (length args) params)
  else too_many_arguments fname (S (length params)) (S (length args)).

Definition ContactNotFound : str := lit "Contact not found.".
Definition MissingArguments : str := lit "Missing required arguments.".

Definition unexpected (e : exn) : str :=
  lit "An unexpected error occurred: " ++ exn_str e.

(** The [except] clauses of [inner], in their order. *)
Definition handle (outcome : result str) : str :=
  match outcome with
  | Ok s => s
  | Raise KeyError => ContactNotFound
  | Raise (ValueError msg) => msg
  | Raise IndexError => MissingArguments
  | Raise e => unexpected e
  end.

Definition input_error
    (func : AddressBook -> list str -> AddressBook * result str)
    (address_book : AddressBook) (args : list str) : AddressBook * str :=
  let (address_book', outcome) := func address_book args in
  (address_book', handle outcome).

(** ** The command handlers

    [xxx_body] is the function as written, [xxx] the decorated one. A
    handler returns the address book after the call next to its result:
    what a handler did to the book before it raised stays done. *)

(** The loop [for phone in phones: record.add_phone(phone)]. *)
Fixpoint add_phones (r : record) (new_phones : list str)
  : record * result unit :=
  match new_phones with
  | [] => (r, Ok tt)
  | phone :: rest =>
      match Record_add_phone r phone with
      | (r', Ok _) => add_phones r' rest
      | (r', Raise e) => (r', Raise e)
      end
  end.

Definition add_contact_body (address_book : AddressBook) (args : list str)
  : AddressBook * result str :=
  match args with
  | [] => (address_book,
           Raise (arity_error (lit "add_contact") [lit "name"] args))
  | nm :: new_phones =>
      let '(address_book, r, message) :=
        match AddressBook_find address_book nm with
        | None =>
            let r := Record_init nm in
            (AddressBook_add_record address_book r, r, lit "Contact added.")
        | Some r => (address_book, r, lit "Contact updated.")
        end in
      let (r', outcome) := add_phones r new_phones in
      (dict_update str_eqb address_book nm r', (_ <- outcome ;; Ok message))
  end.

Definition change_contact_body (address_book : AddressBook) (args : list str)
  : AddressBook * result str :=
  match args with
  | [nm; old_phone; new_phone] =>
      match AddressBook_find address_book nm with
      | Some r =>
          let (r', outcome) := Record_edit_phone r old_phone new_phone in
          (dict_update str_eqb address_book nm r',
           (_ <- outcome ;; Ok (lit "Contact updated.")))
      | None => (address_book, Raise KeyError)
      end
  | _ => (address_book,
          Raise (arity_error (lit "change_contact")
                   [lit "name"; lit "old_phone"; lit "new_phone"] args))
  end.

Definition show_phone_body (normalize_century : bool)
    (address_book : AddressBook) (args : list str)
  : AddressBook * result str :=
  match args with
  | [nm] =>
      match AddressBook_find address_book nm with
      | Some r => (address_book, Ok (Record_str normalize_century r))
      | None => (address_book, Raise KeyError)
      end
  | _ => (address_book,
          Raise (arity_error (lit "show_phone") [lit "name"] args))
  end.

Definition show_all_body (normalize_century : bool)
    (address_book : AddressBook) (args : list str)
  : AddressBook * result str :=
  match args with
  | [] =>
      match address_book with
      | _ :: _ =>
          (address_book,
           Ok (join [10] (map (Record_str normalize_century)
                            (dict_values address_book))))
      | [] => (address_book, Ok (lit "No contacts found."))
      end
  | _ => (address_book, Raise (arity_error (lit "show_all") [] args))
  end.

Definition add_birthday_body (address_book : AddressBook) (args : list str)
  : AddressBook * result str :=
  match args with
  | [nm; text] =>
      match AddressBook_find address_book nm with
      | Some r =>
          let (r', outcome) := Record_add_birthday r text in
          (dict_update str_eqb address_book nm r',
           (_ <- outcome ;; Ok (lit "Birthday added.")))
      | None => (address_book, Raise KeyError)
      end
  | _ => (address_book,
          Raise (arity_error (lit "add_birthday")
                   [lit "name"; lit "birthday"] args))
  end.

Definition show_birthday_body (normalize_century : bool)
    (address_book : AddressBook) (args : list str)
  : AddressBook * result str :=
  match args with
  | [nm] =>
      match AddressBook_find address_book nm with
      | Some r =>
          match birthday r with
          | Some b =>
              (address_book,
               Ok (nm ++ lit "'s birthday is "
                     ++ Birthday_str normalize_century b))
          | None => (address_book, Raise KeyError)
          end
      | None => (address_book, Raise KeyError)
      end
  | _ => (address_book,
          Raise (arity_error (lit "show_birthday") [lit "name"] args))
  end.

Definition birthdays_body (normalize_century : bool) (today : date)
    (address_book : AddressBook) (args : list str)
  : AddressBook * result str :=
  match args with
  | [] =>
      (address_book,
       (entries <- get_upcoming_birthdays today address_book ;;
        match entries with
        | _ :: _ =>
            Ok (join [10]
                  (map (fun entry =>
                          up_name entry ++ lit ": "
                            ++ strftime_Ymd normalize_century
                                 (up_congratulation_date entry))
                       entries))
        | [] => Ok (lit "No upcoming birthdays.")
        end))
  | _ => (address_book, Raise (arity_error (lit "birthdays") [] args))
  end.

Definition add_contact := input_error add_contact_body.
Definition change_contact := input_error change_contact_body.
Definition show_phone (normalize_century : bool) :=
  input_error (show_phone_body normalize_century).
Definition show_all (normalize_century : bool) :=
  input_error (show_all_body normalize_century).
Definition add_birthday := input_error add_birthday_body.
Definition show_birthday (normalize_century : bool) :=
  input_error (show_birthday_body normalize_century).
Definition birthdays (normalize_century : bool) (today : date) :=
  input_error (birthdays_body normalize_century today).

(** ** Notions of the specification *)

(** A well-formed book: the keys of a dictionary are pairwise distinct, and
    a stored birthday was built by [Birthday], hence is a date. *)
Definition distinct_keys (book : AddressBook) : Prop :=
  NoDup (dict_keys book).

Definition birthdays_valid (book : AddressBook) : Prop :=
  forall r b, In r (dict_values book) -> birthday r = Some b -> valid_date b.

Definition leap_day (b : date) : bool := (month b =? 2) && (day b =? 29).

Definition no_leap_day (book : AddressBook) : Prop :=
  forall r b, In r (dict_values book) -> birthday r = Some b ->
    leap_day b = false.

(** The contact a record contributes to the result, with its observed date:
    none when the record has no birthday or its observed date is more than
    seven days away. *)
Definition observed (today : date) (r : record)
  : result (option (str * date)) :=
  match birthday r with
  | None => Ok None
  | Some b =>
      cd <- congratulate today b ;;
      Ok (if date_sub_days cd today <=? 7 then Some (name r, cd) else None)
  end.

Definition option_list {A : Type} (o : option A) : list A :=
  match o with Some a => [a] | None => [] end.

(** The contributions of the records, in the order of the scan. *)
Fixpoint selected (today : date) (records : list record)
  : result (list (str * date)) :=
  match records with
  | [] => Ok []
  | r :: rest =>
      o <- observed today r ;;
      sel <- selected today rest ;;
      Ok (match o with Some p => p :: sel | None => sel end)
  end.

(** The distinct dates of a list, each at its first occurrence. *)
Fixpoint distinct_dates (l : list date) : list date :=
  match l with
  | [] => []
  | d :: l' =>
      d :: filter (fun d' => negb (date_eqb d' d)) (distinct_dates l')
  end.

Definition on_date (d : date) (p : str * date) : bool := date_eqb (snd p) d.

(** Grouping by observed date: the groups in the order in which their dates
    are first met, the contacts of a group in the order of the scan. *)
Definition grouped (today : date) (sel : list (str * date)) : list upcoming :=
  flat_map
    (fun d =>
       map (fun p => mkUpcoming (fst p) d (date_sub_days d today))
           (filter (on_date d) sel))
    (distinct_dates (map snd sel)).

(** A dictionary that maps each key of a list to a value computed from the
    key. *)
Definition tabulate {V : Type} (g : date -> V) (keys : list date)
  : list (date * V) :=
  map (fun d => (d, g d)) keys.

(** The bucket of a date: the contacts selected on it, in the order of the
    scan. *)
Definition names_on (sel : list (str * date)) (d : date) : bucket :=
  mkBucket d (map fst (filter (on_date d) sel)).

(** The dictionary that the first loop has built when it has selected
    [sel]. *)
Definition buckets (sel : list (str * date)) : list (date * bucket) :=
  tabulate (names_on sel) (distinct_dates (map snd sel)).

(** Entries in ascending order of observed date. *)
Fixpoint ascending_by_date (l : list upcoming) : bool :=
  match l with
  | a :: (b :: _) as rest =>
      negb (date_ltb (up_congratulation_date b) (up_congratulation_date a))
      && ascending_by_date rest
  | _ => true
  end.

(** Phones that pass validation. *)
Definition valid_phones (l : list str) : Prop :=
  Forall (fun p => Phone_validate p = Ok tt) l.

(** Ten characters, each one of [0] to [9]. *)
Definition ten_decimal_digits (s : str) : bool :=
  (Z.of_nat (length s) =? 10) && forallb ascii_digit s.

Definition ascii_digits : list Z := [48; 49; 50; 51; 52; 53; 54; 55; 56; 57].

(** The pattern [YYYY.MM.DD]: four digits, a period, two digits, a period,
    two digits. *)
Definition is_YYYY_MM_DD (s : str) : bool :=
  match s with
  | [y1; y2; y3; y4; p1; m1; m2; p2; d1; d2] =>
      forallb ascii_digit [y1; y2; y3; y4; m1; m2; d1; d2]
      && (p1 =? 46) && (p2 =? 46)
  | _ => false
  end.

(** The year, month and day that a text in the pattern denotes. *)
Definition denoted (s : str) : date :=
  match s with
  | [y1; y2; y3; y4; _; m1; m2; _; d1; d2] =>
      mkdate (1000 * (y1 - 48) + 100 * (y2 - 48) + 10 * (y3 - 48) + (y4 - 48))
             (10 * (m1 - 48) + (m2 - 48))
             (10 * (d1 - 48) + (d2 - 48))
  | _ => mkdate 0 0 0
  end.

(** The handlers, for statements about each of them. *)
Definition handler_bodies (normalize_century : bool) (today : date)
  : list (AddressBook -> list str -> AddressBook * result str) :=
  [add_contact_body; change_contact_body; show_phone_body normalize_century;
   show_all_body normalize_century; add_birthday_body;
   show_birthday_body normalize_century;
   birthdays_body normalize_century today].

(** ** The command loop: [parse_input] and [main]

    [str.strip] and [str.split] without arguments cut at the characters for
    which [str.isspace] holds (Unicode 14.0.0). *)

Definition space_ranges : list (Z * Z) :=
  [(9, 13); (28, 32); (133, 133); (160, 160); (5760, 5760); (8192, 8202);
   (8232, 8233); (8239, 8239); (8287, 8287); (12288, 12288)].

Definition Py_UNICODE_ISSPACE (c : Z) : bool := in_ranges space_ranges c.

Fixpoint lstrip (s : str) : str :=
  match s with
  | c :: s' => if Py_UNICODE_ISSPACE c then lstrip s' else s
  | [] => []
  end.

(** [s.strip()] *)
Definition strip (s : str) : str := rev (lstrip (rev (lstrip s))).

(** [s.split()]: the maximal runs of characters that are not spaces;
    [word] is the run being read. *)
Fixpoint split_from (word : str) (s : str) : list str :=
  match s with
  | [] => match word with [] => [] | _ => [word] end
  | c :: s' =>
      if Py_UNICODE_ISSPACE c
      then match word with
           | [] => split_from [] s'
           | _ => word :: split_from [] s'
           end
      else split_from (word ++ [c]) s'
  end.

Definition split (s : str) : list str := split_from [] s.

(** What one turn of the loop of [main] does after reading a line: it goes
    on with the address book and a printed text, or prints and leaves the
    loop. *)
Inductive turn : Type :=
| Continue (address_book : AddressBook) (printed : str)
| Break (printed : str).

Section CommandLoop.
(** [str.lower]: the Unicode lower-casing of the runtime, not modelled;
    what is proved below holds for any such function. *)
Variable lower : str -> str.
Variable normalize_century : bool.
Variable today : date.

(** [cmd, *args = user_input.strip().split()] raises when there is no
    word to bind [cmd] to. *)
Definition parse_input (user_input : str) : result (str * list str) :=
  match split (strip user_input) with
  | [] =>
      Raise (ValueError
               (lit "not enough values to unpack (expected at least 1, got 0)"))
  | cmd :: args => Ok (lower cmd, args)
  end.

Definition continue_with (r : AddressBook * str) : turn :=
  Continue (fst r) (snd r).

(** The body of [while True] for one line of input; an exception of
    [parse_input] is not caught and leaves [main]. *)
Definition main_turn (address_book : AddressBook) (user_input : str)
  : result turn :=
  parsed <- parse_input user_input ;;
  let command := fst parsed in
  let args := snd parsed in
  Ok (if str_eqb command (lit "close") || str_eqb command (lit "exit")
      then Break (lit "Good bye!")
      else if str_eqb command (lit "hello")
      then Continue address_book (lit "How can I help you?")
      else if str_eqb command (lit "add")
      then continue_with (add_contact address_book args)
      else if str_eqb command (lit "change")
      then match args with
           | [nm; old_phone; new_phone] =>
               continue_with
                 (change_contact address_book [nm; old_phone; new_phone])
           | _ =>
               Continue address_book
                 (lit "Give me name, old phone, and new phone number please.")
           end
      else if str_eqb command (lit "phone")
      then continue_with (show_phone normalize_century address_book args)
      else if str_eqb command (lit "all")
      then continue_with (show_all normalize_century address_book [])
      else if str_eqb command (lit "add-birthday")
      then match args with
           | [nm; text] =>
               continue_with (add_birthday address_book [nm; text])
           | _ => Continue address_book (lit "Give me name and birthday please.")
           end
      else if str_eqb command (lit "show-birthday")
      then continue_with (show_birthday normalize_century address_book args)
      else if str_eqb command (lit "birthdays")
      then continue_with (birthdays normalize_century today address_book [])
      else Continue address_book (lit "Invalid command.")).
End CommandLoop.

(** A line of white space only, and a word: a non-empty text without white
    space. *)
Definition blank (s : str) : bool := forallb Py_UNICODE_ISSPACE s.

Definition is_word (w : str) : bool :=
  match w with
  | [] => false
  | _ => forallb (fun c => negb (Py_UNICODE_ISSPACE c)) w
  end.

(** The error of [cmd, *args = []]. *)
Definition nothing_to_unpack : exn :=
  ValueError (lit "not enough values to unpack (expected at least 1, got 0)").

(** The commands of [main] that can change the address book. *)
Definition changing_command (command : str) : bool :=
  str_eqb command (lit "add") || str_eqb command (lit "change")
  || str_eqb command (lit "add-birthday").

(** ** Well-formed address books *)

(** Every record is stored under its own name. *)
Definition keyed_by_name (book : AddressBook) : Prop :=
  forall k r, In (k, r) book -> name r = k.

(** Every stored phone passes validation. *)
Definition phones_valid (book : AddressBook) : Prop :=
  forall r, In r (dict_values book) -> valid_phones (phones r).

Definition well_formed (book : AddressBook) : Prop :=
  distinct_keys book /\ keyed_by_name book /\ phones_valid book
  /\ birthdays_valid book.

(** The address books that the handlers can build from the empty one. *)
Inductive reachable (normalize_century : bool) : AddressBook -> Prop :=
| reachable_empty : reachable normalize_century []
| reachable_call (today : date) (book : AddressBook)
    (body : AddressBook -> list str -> AddressBook * result str)
    (args : list str) :
    reachable normalize_century book ->
    In body (handler_bodies normalize_century today) ->
    reachable normalize_century (fst (body book args)).

(** A 29 February birthday that cannot be projected at [today]: this year
    is not a leap year, or 29 February of this year is over. *)
Definition leap_day_fails (today b : date) : bool :=
  leap_day b
  && (negb (is_leap (year today))
      || date_ltb (mkdate (year today) 2 29) today).

(** The error of the date constructor for a day that the month lacks. *)
Definition day_out_of_range : exn :=
  ValueError (lit "day is out of range for month").

(** The next occurrence of the month and day of [b] on or after [today],
    when it is a date: in the year of [today], or in the next year when
    this year's occurrence is before [today]. *)
Definition projected (today b : date) : date :=
  mkdate (if date_ltb (mkdate (year today) (month b) (day b)) today
          then year today + 1 else year today)
         (month b) (day b).

(** The days by which a date moves off the weekend. *)
Definition weekend_shift (d : date) : Z :=
  if weekday d =? 5 then 2 else if weekday d =? 6 then 1 else 0.

(** The entry of a selected contact. *)
Definition entry_of (today : date) (p : str * date) : upcoming :=
  mkUpcoming (fst p) (snd p) (date_sub_days (snd p) today).

(** * Properties *)

(** ** Text and dictionaries *)

Lemma str_eqb_eq (a b : str) : str_eqb a b = true <-> a = b.
Proof.
  revert b; induction a as [|x a IH]; intros [|y b]; simpl; split;
    try congruence; try reflexivity.
  - rewrite andb_true_iff, Z.eqb_eq, IH. intros [-> ->]. reflexivity.
  - intros E. injection E as -> ->. rewrite Z.eqb_refl.
    apply (proj2 (IH b)). reflexivity.
Qed.

Lemma str_eqb_refl (a : str) : str_eqb a a = true.
Proof. apply str_eqb_eq. reflexivity. Qed.

Lemma date_eqb_eq (a b : date) : date_eqb a b = true <-> a = b.
Proof.
  destruct a as [y m d], b as [y' m' d']. unfold date_eqb. simpl.
  rewrite !andb_true_iff, !Z.eqb_eq. split.
  - intros [[-> ->] ->]. reflexivity.
  - intros E. injection E as -> -> ->. auto.
Qed.

Lemma date_eqb_refl (a : date) : date_eqb a a = true.
Proof. apply date_eqb_eq. reflexivity. Qed.

Lemma date_eqb_sym (a b : date) : date_eqb a b = date_eqb b a.
Proof.
  destruct (date_eqb a b) eqn:E, (date_eqb b a) eqn:E'; try reflexivity.
  - apply date_eqb_eq in E. subst. rewrite date_eqb_refl in E'. discriminate.
  - apply date_eqb_eq in E'. subst. rewrite date_eqb_refl in E. discriminate.
Qed.

Section DictFacts.
Context {K V : Type}.
Variable eqb : K -> K -> bool.
Hypothesis eqb_eq : forall a b, eqb a b = true <-> a = b.

Lemma dict_get_None (d : list (K * V)) (k : K) :
  dict_get eqb d k = None <-> ~ In k (dict_keys d).
Proof.
  induction d as [|[k' v] d IH]; simpl.
  - tauto.
  - destruct (eqb k' k) eqn:E.
    + apply eqb_eq in E. split; [discriminate | tauto].
    + rewrite IH. split.
      * intros H [H'|H']; [|tauto].
        apply eqb_eq in H'. congruence.
      * tauto.
Qed.

Lemma dict_set_absent (d : list (K * V)) (k : K) (v : V) :
  dict_get eqb d k = None -> dict_set eqb d k v = d ++ [(k, v)].
Proof.
  induction d as [|[k' v'] d IH]; simpl; [reflexivity|].
  destruct (eqb k' k); [discriminate|].
  intros H. rewrite IH by assumption. reflexivity.
Qed.

Lemma dict_get_last (d : list (K * V)) (k : K) (v : V) :
  dict_get eqb d k = None -> dict_get eqb (d ++ [(k, v)]) k = Some v.
Proof.
  induction d as [|[k' v'] d IH]; simpl.
  - intros _. rewrite (proj2 (eqb_eq k k) eq_refl). reflexivity.
  - destruct (eqb k' k); [discriminate | exact IH].
Qed.

Lemma dict_set_last (d : list (K * V)) (k : K) (v v' : V) :
  dict_get eqb d k = None ->
  dict_set eqb (d ++ [(k, v)]) k v' = d ++ [(k, v')].
Proof.
  induction d as [|[k' w] d IH]; simpl.
  - intros _. rewrite (proj2 (eqb_eq k k) eq_refl). reflexivity.
  - destruct (eqb k' k); [discriminate|].
    intros H. rewrite IH by assumption. reflexivity.
Qed.

Lemma dict_update_present (d : list (K * V)) (k : K) (v v0 : V) :
  dict_get eqb d k = Some v0 -> dict_update eqb d k v = dict_set eqb d k v.
Proof.
  induction d as [|[k' w] d IH]; simpl; [discriminate|].
  destruct (eqb k' k); [reflexivity|].
  intros H. rewrite IH by exact H. reflexivity.
Qed.

Lemma dict_update_absent (d : list (K * V)) (k : K) (v : V) :
  dict_get eqb d k = None -> dict_update eqb d k v = d.
Proof.
  induction d as [|[k' w] d IH]; simpl; [reflexivity|].
  destruct (eqb k' k); [discriminate|].
  intros H. rewrite IH by exact H. reflexivity.
Qed.

Lemma dict_update_after_set (d : list (K * V)) (k : K) (v0 v : V) :
  dict_update eqb (dict_set eqb d k v0) k v
  = dict_set eqb (dict_set eqb d k v0) k v.
Proof.
  induction d as [|[k' w] d IH]; simpl.
  - rewrite (proj2 (eqb_eq k k) eq_refl). reflexivity.
  - destruct (eqb k' k) eqn:E; simpl; rewrite E; [reflexivity|].
    rewrite IH. reflexivity.
Qed.

(** An entry in its place: the entries before it have other keys. *)
Lemma dict_get_split (d : list (K * V)) (k : K) (v : V) :
  dict_get eqb d k = Some v ->
  exists pre post, d = pre ++ (k, v) :: post /\ dict_get eqb pre k = None.
Proof.
  induction d as [|[k' w] d IH]; simpl; [discriminate|].
  destruct (eqb k' k) eqn:E.
  - intros H. injection H as ->. apply eqb_eq in E. subst k'.
    exists [], d. split; reflexivity.
  - intros H. destruct (IH H) as (pre & post & -> & N).
    exists ((k', w) :: pre), post. split; [reflexivity|].
    simpl. rewrite E. exact N.
Qed.

Lemma dict_update_split (pre post : list (K * V)) (k : K) (v v' : V) :
  dict_get eqb pre k = None ->
  dict_update eqb (pre ++ (k, v) :: post) k v' = pre ++ (k, v') :: post.
Proof.
  induction pre as [|[k' w] pre IH]; simpl.
  - intros _. rewrite (proj2 (eqb_eq k k) eq_refl). reflexivity.
  - destruct (eqb k' k); [discriminate|].
    intros H. rewrite IH by exact H. reflexivity.
Qed.

Lemma dict_get_split_eq (pre post : list (K * V)) (k : K) (v : V) :
  dict_get eqb pre k = None ->
  dict_get eqb (pre ++ (k, v) :: post) k = Some v.
Proof.
  induction pre as [|[k' w] pre IH]; simpl.
  - intros _. rewrite (proj2 (eqb_eq k k) eq_refl). reflexivity.
  - destruct (eqb k' k); [discriminate | exact IH].
Qed.

Lemma dict_get_split_ne (pre post : list (K * V)) (k k' : K) (v v' : V) :
  k' <> k ->
  dict_get eqb (pre ++ (k, v') :: post) k'
  = dict_get eqb (pre ++ (k, v) :: post) k'.
Proof.
  intros N. induction pre as [|[x w] pre IH]; simpl.
  - destruct (eqb k k') eqn:E; [|reflexivity].
    apply eqb_eq in E. congruence.
  - rewrite IH. reflexivity.
Qed.

Lemma dict_keys_split (pre post : list (K * V)) (k : K) (v v' : V) :
  dict_keys (pre ++ (k, v') :: post) = dict_keys (pre ++ (k, v) :: post).
Proof. unfold dict_keys. rewrite !map_app. reflexivity. Qed.
Lemma dict_keys_last (d : list (K * V)) (k : K) (v : V) :
  dict_keys (d ++ [(k, v)]) = dict_keys d ++ [k].
Proof. unfold dict_keys. rewrite map_app. reflexivity. Qed.

Lemma NoDup_snoc (l : list K) (k : K) :
  NoDup l -> ~ In k l -> NoDup (l ++ [k]).
Proof.
  intros Hl Hk. induction Hl as [|x l Hx Hl IH]; simpl.
  - constructor; [tauto | constructor].
  - constructor.
    + rewrite in_app_iff. simpl. intros [H|[H|[]]]; [tauto|].
      apply Hk. left. symmetry. assumption.
    + apply IH. intros H. apply Hk. right. assumption.
Qed.
End DictFacts.

(** ** [Phone] *)

Lemma forallb_ascii_digit_isdigit (s : str) :
  forallb ascii_digit s = true -> forallb Py_UNICODE_ISDIGIT s = true.
Proof.
  induction s as [|c s IH]; simpl; [reflexivity|].
  rewrite !andb_true_iff. intros [Hc Hs]. split; [|auto].
  unfold ascii_digit in Hc.
  unfold Py_UNICODE_ISDIGIT, in_ranges, digit_ranges.
  simpl existsb. simpl fst. simpl snd. rewrite Hc. reflexivity.
Qed.

Lemma isdigit_forallb (s : str) :
  s <> [] -> isdigit s = forallb Py_UNICODE_ISDIGIT s.
Proof. destruct s; [congruence | reflexivity]. Qed.

Lemma Phone_validate_cases (s : str) :
  Phone_validate s = Ok tt \/ Phone_validate s = Raise InvalidPhone.
Proof. unfold Phone_validate. destruct (_ || _); auto. Qed.

(** C5, as the code has it: [Phone.validate] succeeds exactly on the texts
    of ten characters that are all digits in the sense of [str.isdigit]
    (Unicode digits, which include [0] to [9]), and raises the
    [InvalidPhone] error on every other text; in particular it succeeds on
    every text of ten characters from [0] to [9]. *)
Theorem Phone_validate_isdigit (s : str) :
  (Phone_validate s = Ok tt <->
   length s = 10%nat /\ forallb Py_UNICODE_ISDIGIT s = true)
  /\ (Phone_validate s <> Ok tt -> Phone_validate s = Raise InvalidPhone)
  /\ (ten_decimal_digits s = true -> Phone_validate s = Ok tt).
Proof.
  assert (E : Phone_validate s = Ok tt <->
              length s = 10%nat /\ forallb Py_UNICODE_ISDIGIT s = true).
  { unfold Phone_validate.
    destruct (Z.eqb_spec (Z.of_nat (length s)) 10) as [L|L]; simpl.
    - assert (Hs : s <> []) by (intros ->; discriminate L).
      rewrite (isdigit_forallb s Hs).
      destruct (forallb Py_UNICODE_ISDIGIT s); simpl; split;
        try discriminate; try tauto.
      + intros _. split; [lia | reflexivity].
      + intros [_ H]. discriminate H.
    - split; [discriminate|]. intros [H _]. rewrite H in L. simpl in L. lia. }
  split; [exact E|]. split.
  - destruct (Phone_validate_cases s); tauto.
  - unfold ten_decimal_digits. rewrite andb_true_iff, Z.eqb_eq.
    intros [L D]. apply E. split; [lia|].
    apply forallb_ascii_digit_isdigit. exact D.
Qed.

Lemma Phone_validate_isdigit_witness :
  Phone_validate (lit "0123456789") = Ok tt.
Proof.
  refine (proj2 (proj2 (Phone_validate_isdigit (lit "0123456789"))) _).
  reflexivity.
Defined.

(** C5, as stated, fails: ten superscript twos (U+00B2) are not decimal
    digits, yet [isdigit] accepts them and validation succeeds. *)
Lemma Phone_validate_superscript_twos :
  ~ (forall s : str,
       if ten_decimal_digits s then Phone_validate s = Ok tt
       else Phone_validate s = Raise InvalidPhone).
Proof.
  intros H. specialize (H (repeat 178 10)).
  vm_compute in H. discriminate H.
Qed.

(** ** [Record] *)

Lemma not_in_filter_neq (old_phone : str) (l : list str) :
  ~ In old_phone (filter (fun p => negb (str_eqb p old_phone)) l).
Proof.
  rewrite filter_In. intros [_ H].
  rewrite str_eqb_refl in H. discriminate H.
Qed.

(** C6: when [new] fails validation, [edit_phone(old, new)] raises the
    [InvalidPhone] error and leaves the record with every phone equal to
    [old] removed and nothing appended: the phones are the former ones
    without [old], in their order. *)
Theorem edit_phone_invalid_new (r : record) (old_phone new_phone : str) :
  Phone_validate new_phone <> Ok tt ->
  Record_edit_phone r old_phone new_phone
    = (Record_remove_phone r old_phone, Raise InvalidPhone)
  /\ phones (Record_remove_phone r old_phone)
     = filter (fun p => negb (str_eqb p old_phone)) (phones r)
  /\ ~ In old_phone (phones (fst (Record_edit_phone r old_phone new_phone)))
  /\ name (Record_remove_phone r old_phone) = name r
  /\ birthday (Record_remove_phone r old_phone) = birthday r.
Proof.
  intros Hnew.
  assert (E : Record_edit_phone r old_phone new_phone
              = (Record_remove_phone r old_phone, Raise InvalidPhone)).
  { unfold Record_edit_phone, Record_add_phone.
    destruct (Phone_validate_cases new_phone) as [H|H]; [contradiction|].
    rewrite H. reflexivity. }
  rewrite E. simpl. repeat split; try reflexivity.
  apply not_in_filter_neq.
Qed.

Lemma edit_phone_invalid_new_witness :
  let r := mkRecord (lit "Ann") [lit "0000000000"; lit "1111111111"] None in
  Record_edit_phone r (lit "0000000000") (lit "12ab")
    = (mkRecord (lit "Ann") [lit "1111111111"] None, Raise InvalidPhone).
Proof.
  intros r.
  refine (proj1 (edit_phone_invalid_new r (lit "0000000000") (lit "12ab") _)).
  vm_compute. discriminate.
Defined.

(** ** [add_contact] and the keys of the book *)

Lemma add_phones_valid (new_phones : list str) :
  valid_phones new_phones ->
  forall r,
    add_phones r new_phones
    = (mkRecord (name r) (phones r ++ new_phones) (birthday r), Ok tt).
Proof.
  induction 1 as [|p l Hp Hl IH]; intros r; simpl.
  - rewrite app_nil_r. destruct r; reflexivity.
  - unfold Record_add_phone. rewrite Hp. rewrite IH. simpl.
    rewrite <- app_assoc. reflexivity.
Qed.

(** In the handlers a record is mutated while the book holds it under the
    name, so the change of the entry is the one an assignment to that key
    makes. *)
Lemma add_contact_body_set (book : AddressBook) (args : list str) :
  add_contact_body book args
  = match args with
    | [] => (book, Raise (arity_error (lit "add_contact") [lit "name"] args))
    | nm :: new_phones =>
        let '(address_book, r, message) :=
          match AddressBook_find book nm with
          | None =>
              (AddressBook_add_record book (Record_init nm), Record_init nm,
               lit "Contact added.")
          | Some r => (book, r, lit "Contact updated.")
          end in
        let (r', outcome) := add_phones r new_phones in
        (dict_set str_eqb address_book nm r', (_ <- outcome ;; Ok message))
    end.
Proof.
  unfold add_contact_body. destruct args as [|nm ps]; [reflexivity|].
  destruct (AddressBook_find book nm) as [r|] eqn:F.
  - destruct (add_phones r ps) as [r' o].
    rewrite (dict_update_present str_eqb book nm r' r F). reflexivity.
  - unfold AddressBook_add_record. cbn [name Record_init].
    destruct (add_phones (Record_init nm) ps) as [r' o].
    rewrite (dict_update_after_set str_eqb str_eqb_eq). reflexivity.
Qed.

Lemma change_contact_body_set (book : AddressBook) (args : list str) :
  change_contact_body book args
  = match args with
    | [nm; old_phone; new_phone] =>
        match AddressBook_find book nm with
        | Some r =>
            let (r', outcome) := Record_edit_phone r old_phone new_phone in
            (dict_set str_eqb book nm r',
             (_ <- outcome ;; Ok (lit "Contact updated.")))
        | None => (book, Raise KeyError)
        end
    | _ => (book,
            Raise (arity_error (lit "change_contact")
                     [lit "name"; lit "old_phone"; lit "new_phone"] args))
    end.
Proof.
  unfold change_contact_body.
  destruct args as [|a [|o [|n [|? ?]]]]; try reflexivity.
  destruct (AddressBook_find book a) as [r|] eqn:F; [|reflexivity].
  destruct (Record_edit_phone r o n) as [r' out].
  rewrite (dict_update_present str_eqb book a r' r F). reflexivity.
Qed.

Lemma add_birthday_body_set (book : AddressBook) (args : list str) :
  add_birthday_body book args
  = match args with
    | [nm; text] =>
        match AddressBook_find book nm with
        | Some r =>
            let (r', outcome) := Record_add_birthday r text in
            (dict_set str_eqb book nm r',
             (_ <- outcome ;; Ok (lit "Birthday added.")))
        | None => (book, Raise KeyError)
        end
    | _ => (book,
            Raise (arity_error (lit "add_birthday")
                     [lit "name"; lit "birthday"] args))
    end.
Proof.
  unfold add_birthday_body.
  destruct args as [|a [|t [|? ?]]]; try reflexivity.
  destruct (AddressBook_find book a) as [r|] eqn:F; [|reflexivity].
  destruct (Record_add_birthday r t) as [r' out].
  rewrite (dict_update_present str_eqb book a r' r F). reflexivity.
Qed.

Lemma dict_keys_set (book : AddressBook) (k : str) (r : record) :
  dict_keys (dict_set str_eqb book k r)
  = match dict_get str_eqb book k with
    | Some _ => dict_keys book
    | None => dict_keys book ++ [k]
    end.
Proof.
  induction book as [|[k' r'] book IH]; simpl; [reflexivity|].
  destruct (str_eqb k' k); simpl; [reflexivity|].
  rewrite IH. destruct (dict_get str_eqb book k); reflexivity.
Qed.

Lemma distinct_keys_set (book : AddressBook) (k : str) (r : record) :
  distinct_keys book -> distinct_keys (dict_set str_eqb book k r).
Proof.
  unfold distinct_keys. intros H. rewrite dict_keys_set.
  destruct (dict_get str_eqb book k) eqn:E; [assumption|].
  apply NoDup_snoc; [assumption|].
  apply (dict_get_None str_eqb str_eqb_eq). exact E.
Qed.

(** The invariant of the directory: no handler makes two entries for one
    key, whatever its arguments and whether or not it fails. *)
Lemma handlers_keep_distinct_keys (normalize_century : bool) (today : date)
    (body : AddressBook -> list str -> AddressBook * result str) :
  In body (handler_bodies normalize_century today) ->
  forall book args,
    distinct_keys book -> distinct_keys (fst (body book args)).
Proof.
  unfold handler_bodies. simpl.
  intros [<-|[<-|[<-|[<-|[<-|[<-|[<-|[]]]]]]]] book args Hk.
  - rewrite add_contact_body_set. cbv beta iota. destruct args as [|nm ps]; [exact Hk|].
    unfold AddressBook_find, AddressBook_add_record.
    destruct (dict_get str_eqb book nm);
      destruct (add_phones _ ps); simpl;
      repeat apply distinct_keys_set; exact Hk.
  - rewrite change_contact_body_set. cbv beta iota.
    destruct args as [|a [|b [|c [|? ?]]]]; try exact Hk.
    destruct (AddressBook_find book a); [|exact Hk].
    destruct (Record_edit_phone _ _ _). simpl.
    apply distinct_keys_set. exact Hk.
  - unfold show_phone_body. destruct args as [|a [|? ?]]; try exact Hk.
    destruct (AddressBook_find book a); exact Hk.
  - unfold show_all_body. destruct args; [|exact Hk].
    destruct book; exact Hk.
  - rewrite add_birthday_body_set. cbv beta iota.
    destruct args as [|a [|b [|? ?]]]; try exact Hk.
    destruct (AddressBook_find book a); [|exact Hk].
    destruct (Record_add_birthday _ _). simpl.
    apply distinct_keys_set. exact Hk.
  - unfold show_birthday_body. destruct args as [|a [|? ?]]; try exact Hk.
    destruct (AddressBook_find book a) as [r|]; [|exact Hk].
    destruct (birthday r); exact Hk.
  - unfold birthdays_body. destruct args; exact Hk.
Qed.

(** C7: with valid phones, [add_contact] on a name that is not in the
    directory has [add_record] append one record for it, which then holds
    these phones, and returns "Contact added."; a second call with the same
    name returns "Contact updated." and appends its phones to that record,
    and the directory has as many entries as after the first call. On a
    name that any directory with distinct keys holds, the call returns
    "Contact updated." and the record under the name has the given phones
    appended, with its name and birthday as they were: the entry stays in
    its place, every other entry is as it was, and no entry is made. The
    keys stay pairwise distinct throughout. *)
Theorem add_contact_then_update (book : AddressBook) (nm : str)
    (first_phones second_phones : list str) :
  distinct_keys book ->
  valid_phones first_phones ->
  valid_phones second_phones ->
  (AddressBook_find book nm = None ->
   let book1 := book ++ [(nm, mkRecord nm first_phones None)] in
   let book2 :=
     book ++ [(nm, mkRecord nm (first_phones ++ second_phones) None)] in
   AddressBook_add_record book (Record_init nm)
   = book ++ [(nm, mkRecord nm [] None)]
   /\ add_contact book (nm :: first_phones) = (book1, lit "Contact added.")
   /\ length book1 = S (length book)
   /\ add_contact book1 (nm :: second_phones) = (book2, lit "Contact updated.")
   /\ length book2 = length book1
   /\ distinct_keys book1
   /\ distinct_keys book2)
  /\
  (forall r, AddressBook_find book nm = Some r ->
   let r' := mkRecord (name r) (phones r ++ first_phones) (birthday r) in
   let book' := fst (add_contact book (nm :: first_phones)) in
   snd (add_contact book (nm :: first_phones)) = lit "Contact updated."
   /\ (exists pre post,
         book = pre ++ (nm, r) :: post /\ book' = pre ++ (nm, r') :: post)
   /\ AddressBook_find book' nm = Some r'
   /\ (forall k, k <> nm -> AddressBook_find book' k = AddressBook_find book k)
   /\ dict_keys book' = dict_keys book
   /\ length book' = length book
   /\ distinct_keys book').
Proof.
  intros Hk H1 H2. split.
  - intros Hnone book1 book2.
    assert (Hnone' : dict_get str_eqb book nm = None) by exact Hnone.
    assert (E0 : AddressBook_add_record book (Record_init nm)
                 = book ++ [(nm, mkRecord nm [] None)]).
    { unfold AddressBook_add_record, Record_init. cbn [name].
      apply (dict_set_absent str_eqb book nm _ Hnone'). }
    assert (E1 : add_contact book (nm :: first_phones)
                 = (book1, lit "Contact added.")).
    { unfold add_contact, input_error, add_contact_body.
      rewrite Hnone. cbv zeta. rewrite E0.
      unfold Record_init. rewrite (add_phones_valid _ H1).
      cbn [name phones birthday app bind].
      rewrite (dict_update_split str_eqb str_eqb_eq book [] nm _ _ Hnone').
      reflexivity. }
    assert (E2 : add_contact book1 (nm :: second_phones)
                 = (book2, lit "Contact updated.")).
    { unfold add_contact, input_error, add_contact_body, AddressBook_find.
      unfold book1.
      rewrite (dict_get_last str_eqb str_eqb_eq book nm _ Hnone').
      rewrite (add_phones_valid _ H2).
      cbn [name phones birthday bind].
      rewrite (dict_update_split str_eqb str_eqb_eq book [] nm _ _ Hnone').
      reflexivity. }
    assert (D : forall r, distinct_keys (book ++ [(nm, r)])).
    { intros r. unfold distinct_keys. rewrite dict_keys_last.
      apply NoDup_snoc; [exact Hk|].
      apply (dict_get_None str_eqb str_eqb_eq). exact Hnone'. }
    split; [exact E0|]. split; [exact E1|]. split.
    { unfold book1. rewrite length_app. simpl. lia. }
    split; [exact E2|]. split.
    { unfold book1, book2. rewrite !length_app. reflexivity. }
    split; apply D.
  - intros r Hfind r' book'.
    destruct (dict_get_split str_eqb str_eqb_eq book nm r Hfind)
      as (pre & post & Hb & Hpre).
    assert (E : add_contact book (nm :: first_phones)
                = (pre ++ (nm, r') :: post, lit "Contact updated.")).
    { unfold add_contact, input_error, add_contact_body.
      rewrite Hfind. rewrite (add_phones_valid _ H1). cbn [bind].
      rewrite Hb.
      rewrite (dict_update_split str_eqb str_eqb_eq pre post nm _ _ Hpre).
      reflexivity. }
    assert (Eb : book' = pre ++ (nm, r') :: post)
      by (unfold book'; rewrite E; reflexivity).
    split; [rewrite E; reflexivity|].
    split; [exists pre, post; split; [exact Hb | exact Eb]|].
    rewrite Eb. split.
    { apply (dict_get_split_eq str_eqb str_eqb_eq). exact Hpre. }
    split.
    { intros k N. rewrite Hb.
      apply (dict_get_split_ne str_eqb str_eqb_eq). exact N. }
    assert (Ek : dict_keys (pre ++ (nm, r') :: post) = dict_keys book)
      by (rewrite Hb; apply dict_keys_split).
    split; [exact Ek|]. split.
    { rewrite Hb, !length_app. reflexivity. }
    unfold distinct_keys. rewrite Ek. exact Hk.
Qed.

Lemma add_contact_then_update_witness :
  add_contact [] [lit "Ann"; lit "0123456789"]
  = ([(lit "Ann", mkRecord (lit "Ann") [lit "0123456789"] None)],
     lit "Contact added.")
  /\ let book :=
       [(lit "Ann", mkRecord (lit "Ann") [lit "0123456789"]
                      (Some (mkdate 1990 5 18)));
        (lit "Bob", mkRecord (lit "Bob") [] None)] in
     AddressBook_find (fst (add_contact book [lit "Ann"; lit "9876543210"]))
       (lit "Ann")
     = Some (mkRecord (lit "Ann") [lit "0123456789"; lit "9876543210"]
               (Some (mkdate 1990 5 18))).
Proof.
  split.
  - refine (proj1 (proj2 (proj1 (add_contact_then_update [] (lit "Ann")
                     [lit "0123456789"] [lit "9876543210"] _ _ _) _))).
    + constructor.
    + repeat constructor.
    + repeat constructor.
    + reflexivity.
  - intros book.
    refine (proj1 (proj2 (proj2 (proj2 (add_contact_then_update book
                     (lit "Ann") [lit "9876543210"] [] _ _ _)
                     (mkRecord (lit "Ann") [lit "0123456789"]
                        (Some (mkdate 1990 5 18))) _)))).
    + unfold distinct_keys. vm_compute.
      repeat constructor; simpl; intuition discriminate.
    + repeat constructor.
    + constructor.
    + reflexivity.
Defined.

(** ** The decorator *)

Lemma handle_domain_errors :
  handle (Raise InvalidPhone) = lit "Phone number must contain 10 digits."
  /\ handle (Raise InvalidDateFormat)
     = lit "Invalid date format. Use YYYY.MM.DD"
  /\ handle (Raise KeyError) = lit "Contact not found."
  /\ handle (Raise IndexError) = lit "Missing required arguments."
  /\ (forall msg, handle (Raise (TypeError msg))
                  = lit "An unexpected error occurred: " ++ msg)
  /\ (forall msg, handle (Raise (OverflowError msg))
                  = lit "An unexpected error occurred: " ++ msg).
Proof. repeat split. Qed.

Lemma date_new_not_IndexError (y m d : Z) (e : exn) :
  date_new y m d = Raise e -> e <> IndexError.
Proof.
  unfold date_new.
  destruct (_ || _); [congruence|].
  destruct (_ || _); [congruence|].
  destruct (_ || _); congruence.
Qed.

Lemma date_add_days_not_IndexError (d : date) (k : Z) (e : exn) :
  date_add_days d k = Raise e -> e <> IndexError.
Proof. unfold date_add_days. destruct (_ && _); congruence. Qed.

Lemma congratulate_not_IndexError (today b : date) (e : exn) :
  congratulate today b = Raise e -> e <> IndexError.
Proof.
  unfold congratulate, date_replace_year.
  destruct (date_new (year today) (month b) (day b)) as [d1|e1] eqn:E1;
    cbn [bind].
  2: { intros H. injection H as <-.
       exact (date_new_not_IndexError _ _ _ _ E1). }
  destruct (date_ltb d1 today).
  - destruct (date_new (year today + 1) (month d1) (day d1))
      as [d2|e2] eqn:E2; cbn [bind].
    2: { intros H. injection H as <-.
         exact (date_new_not_IndexError _ _ _ _ E2). }
    destruct (weekday d2 =? 5); [apply date_add_days_not_IndexError|].
    destruct (weekday d2 =? 6); [apply date_add_days_not_IndexError|].
    discriminate.
  - cbn [bind].
    destruct (weekday d1 =? 5); [apply date_add_days_not_IndexError|].
    destruct (weekday d1 =? 6); [apply date_add_days_not_IndexError|].
    discriminate.
Qed.

Lemma collect_not_IndexError (today : date) (bd : list (date * bucket))
    (r : record) (e : exn) :
  collect today bd r = Raise e -> e <> IndexError.
Proof.
  unfold collect. destruct (birthday r) as [b|]; [|discriminate].
  destruct (congratulate today b) as [cd|e1] eqn:E1; cbn [bind].
  2: { intros H. injection H as <-.
       exact (congratulate_not_IndexError _ _ _ E1). }
  destruct (_ <=? 7); [|discriminate].
  destruct (dict_get date_eqb bd cd); discriminate.
Qed.

(** No handler raises [IndexError]: a call with too few arguments fails
    while the arguments are bound, with a [TypeError], so the clause for
    "Missing required arguments." is never taken. *)
Lemma handlers_never_raise_IndexError (normalize_century : bool)
    (today : date)
    (body : AddressBook -> list str -> AddressBook * result str) :
  In body (handler_bodies normalize_century today) ->
  forall book args, snd (body book args) <> Raise IndexError.
Proof.
  unfold handler_bodies. simpl.
  intros [<-|[<-|[<-|[<-|[<-|[<-|[<-|[]]]]]]]] book args.
  - rewrite add_contact_body_set. cbv beta iota. destruct args as [|nm ps]; [discriminate|].
    assert (A : forall ps r, snd (add_phones r ps) <> Raise IndexError).
    { clear. induction ps as [|p ps IH]; intros r; simpl; [discriminate|].
      unfold Record_add_phone.
      destruct (Phone_validate_cases p) as [E|E]; rewrite E;
        [apply IH | discriminate]. }
    destruct (AddressBook_find book nm) as [r|].
    + specialize (A ps r). destruct (add_phones r ps) as [r' [[]|e]];
        simpl in *; congruence.
    + specialize (A ps (Record_init nm)).
      destruct (add_phones (Record_init nm) ps) as [r' [[]|e]];
        simpl in *; congruence.
  - rewrite change_contact_body_set. cbv beta iota.
    unfold arity_error, missing_arguments, too_many_arguments.
    destruct args as [|a [|b [|c [|? ?]]]]; try discriminate.
    destruct (AddressBook_find book a) as [r|]; [|discriminate].
    unfold Record_edit_phone, Record_add_phone.
    destruct (Phone_validate_cases c) as [E|E]; rewrite E; discriminate.
  - unfold show_phone_body, arity_error, missing_arguments,
      too_many_arguments.
    destruct args as [|a [|? ?]]; try discriminate.
    destruct (AddressBook_find book a); discriminate.
  - unfold show_all_body, arity_error, missing_arguments,
      too_many_arguments.
    destruct args; [|discriminate]. destruct book; discriminate.
  - rewrite add_birthday_body_set. cbv beta iota.
    unfold arity_error, missing_arguments, too_many_arguments.
    destruct args as [|a [|b [|? ?]]]; try discriminate.
    destruct (AddressBook_find book a) as [r|]; [|discriminate].
    unfold Record_add_birthday, Birthday_init.
    destruct (strptime_Ymd b); discriminate.
  - unfold show_birthday_body, arity_error, missing_arguments,
      too_many_arguments.
    destruct args as [|a [|? ?]]; try discriminate.
    destruct (AddressBook_find book a) as [r|]; [|discriminate].
    destruct (birthday r); discriminate.
  - unfold birthdays_body, arity_error, missing_arguments,
      too_many_arguments.
    destruct args; [|discriminate]. simpl.
    destruct (get_upcoming_birthdays today book) as [[|? ?]|e] eqn:E;
      simpl; try discriminate.
    intros H. injection H as ->. revert E. unfold get_upcoming_birthdays.
    assert (A : forall rs bd, collect_all today bd rs <> Raise IndexError).
    { clear. induction rs as [|r rs IH]; intros bd; simpl; [discriminate|].
      destruct (collect today bd r) as [bd'|e] eqn:C; simpl; [apply IH|].
      intros H. injection H as ->.
      exact (collect_not_IndexError _ _ _ _ C eq_refl). }
    specialize (A (dict_values book) []).
    destruct (collect_all today [] (dict_values book)); simpl;
      congruence.
Qed.

(** C9, at a call without the name: binding the arguments of
    [show_phone(address_book)] fails with a [TypeError], which the decorator
    turns into the fallback text and not into
    "Missing required arguments.". *)
Theorem show_phone_without_name (normalize_century : bool)
    (book : AddressBook) :
  show_phone normalize_century book []
  = (book,
     lit "An unexpected error occurred: show_phone() missing 1 required positional argument: 'name'")
  /\ snd (show_phone normalize_century book []) <> MissingArguments.
Proof. split; [reflexivity | discriminate]. Qed.

(** C10: for a contact that exists and has no birthday, [show_birthday]
    returns "Contact not found.", the text it returns for a name that is
    not in the directory. *)
Theorem show_birthday_without_birthday (normalize_century : bool)
    (book : AddressBook) (nm : str) (r : record) :
  AddressBook_find book nm = Some r ->
  birthday r = None ->
  show_birthday normalize_century book [nm] = (book, ContactNotFound)
  /\ forall book',
       AddressBook_find book' nm = None ->
       show_birthday normalize_century book' [nm] = (book', ContactNotFound).
Proof.
  intros Hfind Hb. split.
  - unfold show_birthday, input_error, show_birthday_body.
    rewrite Hfind, Hb. reflexivity.
  - intros book' Hnone.
    unfold show_birthday, input_error, show_birthday_body.
    rewrite Hnone. reflexivity.
Qed.

Lemma show_birthday_without_birthday_witness :
  let book := [(lit "Ann", mkRecord (lit "Ann") [lit "0123456789"] None)] in
  show_birthday false book [lit "Ann"] = (book, lit "Contact not found.").
Proof.
  intros book.
  refine (proj1 (show_birthday_without_birthday false book (lit "Ann")
                   (mkRecord (lit "Ann") [lit "0123456789"] None) _ _));
    reflexivity.
Defined.

(** ** The calendar

    The ordinal of a date grows with the date, and [ord2ymd] is inverse to
    [toordinal]: these two facts relate the comparison of dates, which reads
    the fields, to their difference, which reads the ordinals. *)

Lemma month_cases (m : Z) :
  1 <= m <= 12 ->
  m = 1 \/ m = 2 \/ m = 3 \/ m = 4 \/ m = 5 \/ m = 6 \/
  m = 7 \/ m = 8 \/ m = 9 \/ m = 10 \/ m = 11 \/ m = 12.
Proof. lia. Qed.

Ltac each_month H :=
  apply month_cases in H;
  destruct H as [->|[->|[->|[->|[->|[->|[->|[->|[->|[->|[->| ->]]]]]]]]]]].

Ltac tables :=
  cbv beta iota delta [DAYS_BEFORE_MONTH DAYS_IN_MONTH andb orb negb Z.eqb Z.ltb
    Z.compare Pos.compare Pos.compare_cont Pos.eqb] in *.

Lemma day_of_year_bounds (y m d : Z) :
  1 <= m <= 12 -> 1 <= d <= days_in_month y m ->
  1 <= days_before_month y m + d <= (if is_leap y then 366 else 365).
Proof.
  intros Hm Hd. unfold days_before_month, days_in_month in *.
  each_month Hm; destruct (is_leap y); tables; lia.
Qed.

Lemma day_of_year_lt (y m d m' d' : Z) :
  1 <= m <= 12 -> 1 <= m' <= 12 ->
  1 <= d <= days_in_month y m -> 1 <= d' <= days_in_month y m' ->
  m < m' ->
  days_before_month y m + d < days_before_month y m' + d'.
Proof.
  intros Hm Hm' Hd Hd' Hlt. unfold days_before_month, days_in_month in *.
  each_month Hm; each_month Hm'; try lia;
    destruct (is_leap y); tables; lia.
Qed.

Lemma days_before_year_succ (y : Z) :
  days_before_year (y + 1)
  = days_before_year y + (if is_leap y then 366 else 365).
Proof.
  unfold days_before_year, is_leap.
  replace (y + 1 - 1) with y by lia.
  destruct (Z.eqb_spec (y mod 4) 0), (Z.eqb_spec (y mod 100) 0),
    (Z.eqb_spec (y mod 400) 0); simpl;
    Z.div_mod_to_equations; lia.
Qed.


Lemma days_before_year_mono (y y' : Z) :
  y <= y' -> days_before_year y <= days_before_year y'.
Proof.
  unfold days_before_year. intros H.
  assert (H4 : (y - 1) / 4 <= (y' - 1) / 4)
    by (apply Z.div_le_mono; lia).
  assert (H400 : (y - 1) / 400 <= (y' - 1) / 400)
    by (apply Z.div_le_mono; lia).
  assert (H100 : (y' - 1) / 100 - (y - 1) / 100 <= y' - y).
  { clear H4 H400. Z.div_mod_to_equations. lia. }
  lia.
Qed.

Lemma days_before_year_pos (y : Z) : 1 <= y -> 0 <= days_before_year y.
Proof.
  intros H. apply (days_before_year_mono 1 y) in H. exact H.
Qed.

Lemma toordinal_lt (a b : date) :
  valid_date a -> valid_date b -> date_ltb a b = true ->
  toordinal a < toordinal b.
Proof.
  destruct a as [y m d], b as [y' m' d'].
  unfold valid_date, date_ltb, toordinal, ymd2ord. simpl.
  intros (Hy & Hm & Hd) (Hy' & Hm' & Hd') H.
  repeat (rewrite orb_true_iff in H || rewrite andb_true_iff in H).
  rewrite !Z.ltb_lt, !Z.eqb_eq in H.
  destruct H as [H|[-> [H|[-> H]]]].
  - pose proof (day_of_year_bounds y m d Hm Hd) as B.
    pose proof (day_of_year_bounds y' m' d' Hm' Hd') as B'.
    pose proof (days_before_year_succ y) as S.
    pose proof (days_before_year_mono (y + 1) y' ltac:(lia)) as M.
    destruct (is_leap y); lia.
  - pose proof (day_of_year_lt y' m d m' d' Hm Hm' Hd Hd' H). lia.
  - lia.
Qed.

Lemma date_ltb_total (a b : date) :
  date_ltb a b = false -> a = b \/ date_ltb b a = true.
Proof.
  destruct a as [y m d], b as [y' m' d']. unfold date_ltb. simpl.
  intros H.
  destruct (Z.ltb_spec y y'), (Z.eqb_spec y y'), (Z.ltb_spec m m'),
    (Z.eqb_spec m m'), (Z.ltb_spec d d'); simpl in H; try discriminate H;
    try lia;
    destruct (Z.ltb_spec y' y), (Z.eqb_spec y' y), (Z.ltb_spec m' m),
      (Z.eqb_spec m' m), (Z.ltb_spec d' d); simpl; auto; try lia.
  all: left; f_equal; lia.
Qed.

Lemma toordinal_le (a b : date) :
  valid_date a -> valid_date b -> date_ltb a b = false ->
  toordinal b <= toordinal a.
Proof.
  intros Ha Hb H. destruct (date_ltb_total a b H) as [->|H'].
  - lia.
  - pose proof (toordinal_lt b a Hb Ha H'). lia.
Qed.

Lemma toordinal_bounds (a : date) :
  valid_date a -> 1 <= toordinal a <= MAXORDINAL.
Proof.
  destruct a as [y m d]. unfold valid_date, toordinal, ymd2ord. simpl.
  intros (Hy & Hm & Hd).
  pose proof (day_of_year_bounds y m d Hm Hd) as B.
  pose proof (days_before_year_succ y) as S.
  unfold MINYEAR, MAXYEAR in Hy.
  pose proof (days_before_year_mono (y + 1) 10000 ltac:(lia)) as M.
  pose proof (days_before_year_pos y ltac:(lia)) as P.
  assert (E : days_before_year 10000 = 3652059) by reflexivity.
  rewrite E in M.
  unfold MAXORDINAL. destruct (is_leap y); lia.
Qed.

Lemma days_before_year_decomp (a b c d : Z) :
  0 <= a -> 0 <= b <= 3 -> 0 <= c <= 24 -> 0 <= d <= 3 ->
  days_before_year (a * 400 + 1 + b * 100 + c * 4 + d)
  = 146097 * a + 36524 * b + 1461 * c + 365 * d.
Proof.
  intros Ha Hb Hc Hd. unfold days_before_year.
  replace (a * 400 + 1 + b * 100 + c * 4 + d - 1)
    with (400 * a + 100 * b + 4 * c + d) by lia.
  assert (E4 : (400 * a + 100 * b + 4 * c + d) / 4 = 100 * a + 25 * b + c)
    by (symmetry; apply (Z.div_unique _ _ _ d); lia).
  assert (E100 : (400 * a + 100 * b + 4 * c + d) / 100 = 4 * a + b)
    by (symmetry; apply (Z.div_unique _ _ _ (4 * c + d)); lia).
  assert (E400 : (400 * a + 100 * b + 4 * c + d) / 400 = a)
    by (symmetry; apply (Z.div_unique _ _ _ (100 * b + 4 * c + d)); lia).
  rewrite E4, E100, E400. lia.
Qed.

Lemma is_leap_decomp (a b c d : Z) :
  0 <= a -> 0 <= b <= 3 -> 0 <= c <= 24 -> 0 <= d <= 3 ->
  is_leap (a * 400 + 1 + b * 100 + c * 4 + d)
  = (d =? 3) && (negb (c =? 24) || (b =? 3)).
Proof.
  intros Ha Hb Hc Hd. unfold is_leap.
  set (y := a * 400 + 1 + b * 100 + c * 4 + d).
  assert (E4 : y mod 4 = (d + 1) mod 4).
  { unfold y. replace (a * 400 + 1 + b * 100 + c * 4 + d)
      with (d + 1 + (100 * a + 25 * b + c) * 4) by lia.
    apply Z.mod_add. lia. }
  assert (E100 : y mod 100 = (4 * c + d + 1) mod 100).
  { unfold y. replace (a * 400 + 1 + b * 100 + c * 4 + d)
      with (4 * c + d + 1 + (4 * a + b) * 100) by lia.
    apply Z.mod_add. lia. }
  assert (E400 : y mod 400 = (100 * b + 4 * c + d + 1) mod 400).
  { unfold y. replace (a * 400 + 1 + b * 100 + c * 4 + d)
      with (100 * b + 4 * c + d + 1 + a * 400) by lia.
    apply Z.mod_add. lia. }
  rewrite E4, E100, E400. clear E4 E100 E400 y.
  destruct (Z.eqb_spec ((d + 1) mod 4) 0) as [M4|M4],
    (Z.eqb_spec ((4 * c + d + 1) mod 100) 0) as [M100|M100],
    (Z.eqb_spec ((100 * b + 4 * c + d + 1) mod 400) 0) as [M400|M400],
    (Z.eqb_spec d 3), (Z.eqb_spec c 24), (Z.eqb_spec b 3);
    cbn [andb orb negb]; try reflexivity; exfalso;
    Z.div_mod_to_equations; lia.
Qed.

Lemma month_day_of (y r : Z) (leap : bool) :
  is_leap y = leap ->
  0 <= r < (if leap then 366 else 365) ->
  let m := Z.shiftr (r + 50) 5 in
  let preceding :=
    DAYS_BEFORE_MONTH m + (if (2 <? m) && leap then 1 else 0) in
  let dt :=
    if r <? preceding
    then mkdate y (m - 1) (r - (preceding - days_in_month y (m - 1)) + 1)
    else mkdate y m (r - preceding + 1) in
  year dt = y /\ 1 <= month dt <= 12 /\
  1 <= day dt <= days_in_month y (month dt) /\
  days_before_month y (month dt) + day dt = r + 1.
Proof.
  intros Hl Hr. rewrite Z.shiftr_div_pow2 by lia.
  change (2 ^ 5) with 32.
  assert (Hm : 1 <= (r + 50) / 32 <= 12)
    by (destruct leap; Z.div_mod_to_equations; lia).
  assert (Hb : 32 * ((r + 50) / 32) <= r + 50 < 32 * ((r + 50) / 32) + 32)
    by (Z.div_mod_to_equations; lia).
  revert Hb. generalize ((r + 50) / 32) Hm. clear Hm. intros m Hm Hb.
  unfold days_before_month, days_in_month. rewrite Hl. clear Hl.
  destruct (Z.ltb_spec 2 m), leap; cbn [andb];
    match goal with
    | |- context [if ?r <? ?p then _ else _] => destruct (Z.ltb_spec r p)
    end; cbn [year month day];
    destruct (Z.eqb_spec (m - 1) 2), (Z.eqb_spec m 2),
      (Z.ltb_spec 2 (m - 1)), (Z.ltb_spec 2 m); cbn [andb]; try lia;
    each_month Hm; try lia;
    repeat match goal with
           | |- context [Z.pos ?p - 1] =>
               let v := eval vm_compute in (Z.pos p - 1) in
               change (Z.pos p - 1) with v in *
           | H : context [Z.pos ?p - 1] |- _ =>
               let v := eval vm_compute in (Z.pos p - 1) in
               change (Z.pos p - 1) with v in *
           end;
    cbv beta iota delta [DAYS_BEFORE_MONTH DAYS_IN_MONTH] in *; lia.
Qed.

Ltac consts :=
  cbn [andb orb negb Z.eqb Z.ltb Z.compare Pos.compare Pos.compare_cont
       Pos.eqb DAYS_BEFORE_MONTH DAYS_IN_MONTH].

Lemma ord2ymd_spec (o : Z) :
  1 <= o ->
  toordinal (ord2ymd o) = o /\ 1 <= year (ord2ymd o) /\
  1 <= month (ord2ymd o) <= 12 /\
  1 <= day (ord2ymd o) <= days_in_month (year (ord2ymd o)) (month (ord2ymd o)).
Proof.
  intros Ho. unfold ord2ymd, DI400Y, DI100Y, DI4Y. cbv zeta.
  set (n := o - 1).
  set (q400 := n / 146097). set (r400 := n mod 146097).
  set (q100 := r400 / 36524). set (r100 := r400 mod 36524).
  set (q4 := r100 / 1461). set (r4 := r100 mod 1461).
  set (q1 := r4 / 365). set (r1 := r4 mod 365).
  assert (Hn : 0 <= n) by (unfold n; lia).
  assert (E400 : n = 146097 * q400 + r400 /\ 0 <= r400 < 146097 /\ 0 <= q400).
  { unfold q400, r400. Z.div_mod_to_equations. lia. }
  assert (E100 : r400 = 36524 * q100 + r100 /\ 0 <= r100 < 36524 /\ 0 <= q100).
  { unfold q100, r100. Z.div_mod_to_equations. lia. }
  assert (E4 : r100 = 1461 * q4 + r4 /\ 0 <= r4 < 1461 /\ 0 <= q4).
  { unfold q4, r4. Z.div_mod_to_equations. lia. }
  assert (E1 : r4 = 365 * q1 + r1 /\ 0 <= r1 < 365 /\ 0 <= q1).
  { unfold q1, r1. Z.div_mod_to_equations. lia. }
  assert (En : o = n + 1) by (unfold n; lia).
  clearbody q400 r400 q100 r100 q4 r4 q1 r1 n.
  destruct (Z.eqb_spec q1 4) as [Q1|Q1], (Z.eqb_spec q100 4) as [Q100|Q100];
    cbn [orb].
  1, 2, 3: unfold toordinal, ymd2ord; cbn [year month day];
    unfold days_before_month, days_in_month.
  - exfalso. lia.
  - replace (q400 * 400 + 1 + q100 * 100 + q4 * 4 + q1 - 1)
      with (q400 * 400 + 1 + q100 * 100 + q4 * 4 + 3) by lia.
    rewrite days_before_year_decomp, is_leap_decomp by lia.
    destruct (Z.eqb_spec q4 24); [exfalso; lia|].
    consts. lia.
  - replace (q400 * 400 + 1 + q100 * 100 + q4 * 4 + q1 - 1)
      with (q400 * 400 + 1 + 3 * 100 + 24 * 4 + 3) by lia.
    rewrite days_before_year_decomp, is_leap_decomp by lia.
    consts. lia.
  - rewrite <- (is_leap_decomp q400 q100 q4 q1) by lia.
    set (y := q400 * 400 + 1 + q100 * 100 + q4 * 4 + q1).
    pose proof (month_day_of y r1 (is_leap y) eq_refl) as M.
    cbv zeta in M.
    destruct M as (My & Mm & Md & Mo); [destruct (is_leap y); lia|].
    match goal with
    | |- toordinal ?e = _ /\ _ => set (dt := e) in *
    end.
    unfold toordinal, ymd2ord. rewrite My.
    unfold y at 1. rewrite days_before_year_decomp by lia.
    repeat split; lia.
Qed.

(** ** The congratulation date *)

Lemma date_new_Ok (y m d : Z) (dt : date) :
  date_new y m d = Ok dt <-> dt = mkdate y m d /\ valid_date (mkdate y m d).
Proof.
  unfold date_new, valid_date. cbn [year month day].
  destruct (Z.ltb_spec y MINYEAR), (Z.ltb_spec MAXYEAR y),
    (Z.ltb_spec m 1), (Z.ltb_spec 12 m), (Z.ltb_spec d 1),
    (Z.ltb_spec (days_in_month y m) d); cbn [orb];
    split; try discriminate; try (intros [_ HV]; lia).
  - intros HE. injection HE as <-. split; [reflexivity | lia].
  - intros [-> _]. reflexivity.
Qed.

Lemma days_before_year_10000 : days_before_year 10000 = 3652059.
Proof. reflexivity. Qed.

Lemma toordinal_eq (d : date) :
  toordinal d
  = days_before_year (year d) + days_before_month (year d) (month d) + day d.
Proof. reflexivity. Qed.

Lemma date_add_days_Ok (d cd : date) (k : Z) :
  date_add_days d k = Ok cd ->
  toordinal cd = toordinal d + k /\ valid_date cd.
Proof.
  unfold date_add_days.
  destruct (Z.ltb_spec 0 (toordinal d + k)); [|discriminate].
  destruct (Z.leb_spec (toordinal d + k) MAXORDINAL); [|discriminate].
  cbn [andb]. intros HE. injection HE as <-.
  destruct (ord2ymd_spec (toordinal d + k)) as (Ho & Hy & Hm & Hd); [lia|].
  split; [exact Ho|]. unfold valid_date. repeat split; try lia.
  - unfold MINYEAR. lia.
  - destruct (Z.le_gt_cases (year (ord2ymd (toordinal d + k))) MAXYEAR)
      as [L|G]; [exact L | exfalso].
    rewrite toordinal_eq in Ho.
    pose proof (days_before_year_mono 10000
                  (year (ord2ymd (toordinal d + k)))) as M.
    unfold MAXYEAR in G. specialize (M ltac:(lia)).
    rewrite days_before_year_10000 in M.
    pose proof (day_of_year_bounds _ _ _ Hm Hd) as B.
    unfold MAXORDINAL in *. lia.
Qed.

(** Dates are told apart by their ordinals. *)
Lemma toordinal_inj (a b : date) :
  valid_date a -> valid_date b -> toordinal a = toordinal b -> a = b.
Proof.
  intros Va Vb E. destruct (date_ltb a b) eqn:L.
  - pose proof (toordinal_lt a b Va Vb L). lia.
  - destruct (date_ltb_total a b L) as [->|L']; [reflexivity|].
    pose proof (toordinal_lt b a Vb Va L'). lia.
Qed.

Lemma ord2ymd_toordinal (d : date) :
  valid_date d -> ord2ymd (toordinal d) = d.
Proof.
  intros V. pose proof (toordinal_bounds d V) as B.
  assert (A : date_add_days d 0 = Ok (ord2ymd (toordinal d))).
  { unfold date_add_days. rewrite Z.add_0_r.
    destruct (Z.ltb_spec 0 (toordinal d)); [|lia].
    destruct (Z.leb_spec (toordinal d) MAXORDINAL); [|lia].
    reflexivity. }
  destruct (date_add_days_Ok _ _ _ A) as [Ho Hv].
  apply toordinal_inj; [exact Hv | exact V | lia].
Qed.

Lemma weekend_fits (d : date) :
  valid_date d ->
  (weekday d = 5 -> toordinal d + 2 <= MAXORDINAL) /\
  (weekday d = 6 -> toordinal d + 1 <= MAXORDINAL).
Proof.
  intros V. pose proof (toordinal_bounds d V) as B.
  unfold weekday, MAXORDINAL in *.
  split; intros H; Z.div_mod_to_equations; lia.
Qed.

(** The shift off the weekend, lines 86 to 93. *)
Lemma shift_Ok (d : date) :
  valid_date d ->
  exists cd,
    (if weekday d =? 5 then date_add_days d 2
     else if weekday d =? 6 then date_add_days d 1 else Ok d) = Ok cd
    /\ toordinal d <= toordinal cd /\ valid_date cd.
Proof.
  intros V. pose proof (toordinal_bounds d V) as B.
  destruct (weekend_fits d V) as [W5 W6].
  assert (A : forall k, 0 <= k -> toordinal d + k <= MAXORDINAL ->
            exists cd, date_add_days d k = Ok cd
                       /\ toordinal d <= toordinal cd /\ valid_date cd).
  { intros k Hk Hmax.
    destruct (date_add_days d k) as [cd|e] eqn:E.
    - exists cd. destruct (date_add_days_Ok d cd k E) as [Ho Hv].
      split; [reflexivity|]. split; [lia | exact Hv].
    - exfalso. revert E. unfold date_add_days.
      destruct (Z.ltb_spec 0 (toordinal d + k)); [|lia].
      destruct (Z.leb_spec (toordinal d + k) MAXORDINAL); [|lia].
      discriminate. }
  destruct (Z.eqb_spec (weekday d) 5) as [E5|E5]; [apply A; lia|].
  destruct (Z.eqb_spec (weekday d) 6) as [E6|E6]; [apply A; lia|].
  exists d. split; [reflexivity|]. split; [lia | exact V].
Qed.

Lemma congratulate_Ok (today b cd : date) :
  valid_date today ->
  congratulate today b = Ok cd ->
  toordinal today <= toordinal cd /\ valid_date cd.
Proof.
  intros Vt. unfold congratulate, date_replace_year.
  destruct (date_new (year today) (month b) (day b)) as [d1|e1] eqn:E1;
    cbn [bind]; [|discriminate].
  apply date_new_Ok in E1. destruct E1 as [-> V1].
  destruct (date_ltb _ today) eqn:L.
  - cbn [year month day].
    destruct (date_new (year today + 1) (month b) (day b)) as [d2|e2] eqn:E2;
      cbn [bind]; [|discriminate].
    apply date_new_Ok in E2. destruct E2 as [-> V2].
    destruct (shift_Ok _ V2) as (cd' & -> & Ho & Hv).
    intros H. injection H as <-. split; [|exact Hv].
    assert (T : date_ltb today (mkdate (year today + 1) (month b) (day b))
                = true).
    { unfold date_ltb. cbn [year month day].
      destruct (Z.ltb_spec (year today) (year today + 1)); [reflexivity|lia]. }
    pose proof (toordinal_lt _ _ Vt V2 T). lia.
  - cbn [bind].
    destruct (shift_Ok _ V1) as (cd' & -> & Ho & Hv).
    intros H. injection H as <-. split; [|exact Hv].
    pose proof (toordinal_le _ _ V1 Vt L). lia.
Qed.

Lemma days_in_month_any_year (y y' m d : Z) :
  1 <= m <= 12 -> 1 <= d <= days_in_month y m ->
  (m =? 2) && (d =? 29) = false ->
  1 <= d <= days_in_month y' m.
Proof.
  unfold days_in_month. intros Hm Hd Hl.
  destruct (Z.eqb_spec m 2) as [->|N]; cbn [andb] in *; [|exact Hd].
  destruct (Z.eqb_spec d 29); [discriminate|].
  destruct (is_leap y), (is_leap y'); cbn [DAYS_IN_MONTH] in *; lia.
Qed.

Lemma congratulate_total (today b : date) :
  valid_date today -> year today < MAXYEAR ->
  valid_date b -> leap_day b = false ->
  exists cd, congratulate today b = Ok cd.
Proof.
  intros (Hy & Hm & Hd) Hmax (Hby & Hbm & Hbd) Hl.
  unfold leap_day in Hl.
  unfold congratulate, date_replace_year.
  assert (V : forall y, MINYEAR <= y <= MAXYEAR ->
            date_new y (month b) (day b) = Ok (mkdate y (month b) (day b))
            /\ valid_date (mkdate y (month b) (day b))).
  { intros y Hy'.
    assert (valid_date (mkdate y (month b) (day b))).
    { unfold valid_date. cbn [year month day]. repeat split; try lia;
        apply (days_in_month_any_year (year b) y); assumption. }
    split; [|assumption]. apply date_new_Ok. split; [reflexivity|assumption]. }
  destruct (V (year today) Hy) as [-> V1]. cbn [bind].
  destruct (date_ltb _ today).
  - cbn [year month day].
    destruct (V (year today + 1) ltac:(unfold MINYEAR in *; lia)) as [-> V2].
    cbn [bind]. destruct (shift_Ok _ V2) as (cd & -> & _). eauto.
  - cbn [bind]. destruct (shift_Ok _ V1) as (cd & -> & _). eauto.
Qed.

(** ** Grouping by congratulation date *)

Lemma date_eq_dec (a b : date) : {a = b} + {a <> b}.
Proof.
  destruct (date_eqb a b) eqn:E.
  - left. apply date_eqb_eq. exact E.
  - right. intros H. apply date_eqb_eq in H. congruence.
Qed.

Lemma date_eqb_neq (a b : date) : date_eqb a b = false <-> a <> b.
Proof.
  split.
  - intros E H. apply date_eqb_eq in H. congruence.
  - intros H. destruct (date_eqb a b) eqn:E; [|reflexivity].
    apply date_eqb_eq in E. contradiction.
Qed.

Lemma distinct_dates_In (l : list date) (d : date) :
  In d (distinct_dates l) <-> In d l.
Proof.
  induction l as [|x l IH]; simpl; [tauto|].
  rewrite filter_In, IH. destruct (date_eq_dec x d) as [->|N].
  - tauto.
  - split; [tauto|]. intros [H|H]; [contradiction|].
    right. split; [exact H|]. apply negb_true_iff, date_eqb_neq. congruence.
Qed.

Lemma distinct_dates_NoDup (l : list date) : NoDup (distinct_dates l).
Proof.
  induction l as [|x l IH]; simpl; constructor.
  - rewrite filter_In. intros [_ H]. rewrite date_eqb_refl in H. discriminate.
  - apply NoDup_filter. exact IH.
Qed.

Lemma distinct_dates_snoc (l : list date) (d : date) :
  distinct_dates (l ++ [d])
  = if in_dec date_eq_dec d l then distinct_dates l
    else distinct_dates l ++ [d].
Proof.
  induction l as [|x l IH]; simpl; [reflexivity|].
  rewrite IH. destruct (date_eq_dec x d) as [->|N].
  - destruct (in_dec date_eq_dec d l); [reflexivity|].
    rewrite filter_app. simpl. rewrite date_eqb_refl. simpl.
    rewrite app_nil_r. reflexivity.
  - destruct (in_dec date_eq_dec d l); [reflexivity|].
    rewrite filter_app. simpl.
    rewrite (proj2 (date_eqb_neq d x)) by congruence. reflexivity.
Qed.

Section Tabulated.
Variable V : Type.

Lemma tabulate_get_in (g : date -> V) (keys : list date) (k : date) :
  In k keys -> dict_get date_eqb (tabulate g keys) k = Some (g k).
Proof.
  induction keys as [|x keys IH]; simpl; [tauto|].
  destruct (date_eqb x k) eqn:E.
  - apply date_eqb_eq in E. subst. reflexivity.
  - intros [->|H]; [rewrite date_eqb_refl in E; discriminate | auto].
Qed.

Lemma tabulate_get_out (g : date -> V) (keys : list date) (k : date) :
  ~ In k keys -> dict_get date_eqb (tabulate g keys) k = None.
Proof.
  induction keys as [|x keys IH]; simpl; [reflexivity|].
  intros H. destruct (date_eqb x k) eqn:E.
  - apply date_eqb_eq in E. tauto.
  - apply IH. tauto.
Qed.

Lemma tabulate_ext (g g' : date -> V) (keys : list date) :
  (forall d, In d keys -> g d = g' d) -> tabulate g keys = tabulate g' keys.
Proof.
  intros H. unfold tabulate. apply map_ext_in.
  intros d Hd. rewrite (H d Hd). reflexivity.
Qed.

Lemma tabulate_set_in (g g' : date -> V) (keys : list date) (k : date) :
  NoDup keys -> In k keys ->
  (forall d, d <> k -> g' d = g d) ->
  dict_set date_eqb (tabulate g keys) k (g' k) = tabulate g' keys.
Proof.
  intros ND Hin Hg. induction ND as [|x keys Hx ND IH]; simpl;
    [destruct Hin|].
  destruct (date_eqb x k) eqn:E.
  - apply date_eqb_eq in E. subst x. f_equal.
    apply tabulate_ext. intros d Hd. symmetry. apply Hg.
    intros ->. contradiction.
  - apply date_eqb_neq in E. rewrite (Hg x E). f_equal.
    apply IH. destruct Hin as [->|H]; [congruence | exact H].
Qed.

Lemma tabulate_set_out (g g' : date -> V) (keys : list date) (k : date) :
  ~ In k keys ->
  (forall d, d <> k -> g' d = g d) ->
  dict_set date_eqb (tabulate g keys) k (g' k) = tabulate g' (keys ++ [k]).
Proof.
  intros Hout Hg. induction keys as [|x keys IH]; simpl; [reflexivity|].
  destruct (date_eqb x k) eqn:E.
  - apply date_eqb_eq in E. subst. simpl in Hout. tauto.
  - apply date_eqb_neq in E. rewrite (Hg x E). f_equal.
    apply IH. simpl in Hout. tauto.
Qed.
End Tabulated.

Lemma filter_none {A : Type} (f : A -> bool) (l : list A) :
  (forall x, In x l -> f x = false) -> filter f l = [].
Proof.
  induction l as [|x l IH]; simpl; [reflexivity|].
  intros H. rewrite (H x) by auto. apply IH. auto.
Qed.

Lemma buckets_tabulate (sel : list (str * date)) :
  buckets sel = tabulate (names_on sel) (distinct_dates (map snd sel)).
Proof. reflexivity. Qed.

Lemma names_on_snoc (sel : list (str * date)) (nm : str) (cd d : date) :
  names_on (sel ++ [(nm, cd)]) d
  = if date_eqb cd d
    then mkBucket d (users (names_on sel d) ++ [nm])
    else names_on sel d.
Proof.
  unfold names_on. rewrite filter_app. simpl. unfold on_date at 2. simpl.
  destruct (date_eqb cd d); simpl.
  - rewrite map_app. reflexivity.
  - rewrite app_nil_r. reflexivity.
Qed.

(** What lines 98 to 103 do to the dictionary built so far. *)
Lemma buckets_snoc (sel : list (str * date)) (nm : str) (cd : date) :
  match dict_get date_eqb (buckets sel) cd with
  | None => dict_set date_eqb (buckets sel) cd (mkBucket cd [nm])
  | Some data =>
      dict_set date_eqb (buckets sel) cd
        (mkBucket (congratulation_date data) (users data ++ [nm]))
  end = buckets (sel ++ [(nm, cd)]).
Proof.
  rewrite !buckets_tabulate, map_app.
  change (map snd [(nm, cd)]) with [cd]. rewrite distinct_dates_snoc.
  assert (G : forall d, d <> cd ->
            names_on (sel ++ [(nm, cd)]) d = names_on sel d).
  { intros d N. rewrite names_on_snoc.
    rewrite (proj2 (date_eqb_neq cd d)) by congruence. reflexivity. }
  destruct (in_dec date_eq_dec cd (map snd sel)) as [I|O].
  - assert (I' : In cd (distinct_dates (map snd sel)))
      by (apply distinct_dates_In; exact I).
    rewrite (tabulate_get_in _ _ _ _ I').
    change (congratulation_date (names_on sel cd)) with cd.
    replace (mkBucket cd (users (names_on sel cd) ++ [nm]))
      with (names_on (sel ++ [(nm, cd)]) cd)
      by (rewrite names_on_snoc, date_eqb_refl; reflexivity).
    apply tabulate_set_in; [apply distinct_dates_NoDup | exact I' | exact G].
  - assert (O' : ~ In cd (distinct_dates (map snd sel)))
      by (rewrite distinct_dates_In; exact O).
    rewrite (tabulate_get_out _ _ _ _ O').
    replace (mkBucket cd [nm]) with (names_on (sel ++ [(nm, cd)]) cd).
    + apply tabulate_set_out; [exact O' | exact G].
    + rewrite names_on_snoc, date_eqb_refl. unfold names_on. simpl.
      rewrite filter_none; [reflexivity|].
      intros [nm' d'] Hin. unfold on_date. simpl.
      apply date_eqb_neq. intros ->. apply O.
      apply in_map_iff. exists (nm', cd). auto.
Qed.

Lemma collect_observed (today : date) (sel : list (str * date)) (r : record) :
  collect today (buckets sel) r
  = (o <- observed today r ;; Ok (buckets (sel ++ option_list o))).
Proof.
  unfold collect, observed. destruct (birthday r) as [b|]; cbn [bind].
  - destruct (congratulate today b) as [cd|e]; cbn [bind]; [|reflexivity].
    destruct (date_sub_days cd today <=? 7); cbn [option_list].
    + rewrite <- buckets_snoc.
      destruct (dict_get date_eqb (buckets sel) cd); reflexivity.
    + rewrite app_nil_r. reflexivity.
  - cbn [option_list]. rewrite app_nil_r. reflexivity.
Qed.

Lemma collect_all_selected (today : date) (records : list record) :
  forall sel,
    collect_all today (buckets sel) records
    = (sel' <- selected today records ;; Ok (buckets (sel ++ sel'))).
Proof.
  induction records as [|r rs IH]; intros sel; cbn [collect_all selected bind].
  - rewrite app_nil_r. reflexivity.
  - rewrite collect_observed.
    destruct (observed today r) as [o|e]; cbn [bind]; [|reflexivity].
    rewrite IH. destruct (selected today rs) as [sel'|e]; cbn [bind];
      [|reflexivity].
    rewrite <- app_assoc. destruct o; reflexivity.
Qed.

Lemma flat_map_map {A B C : Type} (f : B -> list C) (g : A -> B)
    (l : list A) :
  flat_map f (map g l) = flat_map (fun x => f (g x)) l.
Proof.
  induction l as [|x l IH]; simpl; [reflexivity|]. rewrite IH. reflexivity.
Qed.

Lemma entries_of_buckets (today : date) (sel : list (str * date)) :
  flat_map (entries_of today) (dict_values (buckets sel)) = grouped today sel.
Proof.
  unfold grouped, buckets, tabulate, dict_values.
  rewrite map_map, flat_map_map. apply flat_map_ext. intros d.
  unfold entries_of, names_on. cbn [snd users congratulation_date].
  rewrite map_map. reflexivity.
Qed.

(** The two loops together: the first loop selects, the second lists the
    buckets in the order of their insertion. *)
Lemma get_upcoming_birthdays_selected (today : date) (book : AddressBook) :
  get_upcoming_birthdays today book
  = (sel <- selected today (dict_values book) ;; Ok (grouped today sel)).
Proof.
  unfold get_upcoming_birthdays.
  change (@nil (date * bucket)) with (buckets []).
  rewrite collect_all_selected.
  destruct (selected today (dict_values book)) as [sel|e]; cbn [bind];
    [|reflexivity].
  rewrite entries_of_buckets. reflexivity.
Qed.

Lemma filter_flat_map {A B : Type} (f : B -> bool) (g : A -> list B)
    (l : list A) :
  filter f (flat_map g l) = flat_map (fun x => filter f (g x)) l.
Proof.
  induction l as [|x l IH]; simpl; [reflexivity|].
  rewrite filter_app, IH. reflexivity.
Qed.

Lemma filter_all {A : Type} (f : A -> bool) (l : list A) :
  (forall x, In x l -> f x = true) -> filter f l = l.
Proof.
  induction l as [|x l IH]; simpl; [reflexivity|].
  intros H. rewrite (H x) by auto. f_equal. apply IH. auto.
Qed.

Lemma flat_map_nil {A B : Type} (g : A -> list B) (l : list A) :
  (forall x, In x l -> g x = []) -> flat_map g l = [].
Proof.
  induction l as [|x l IH]; simpl; [reflexivity|].
  intros H. rewrite (H x) by auto. apply IH. auto.
Qed.

(** The group of a date in [grouped]. *)
Lemma group_on_date (today : date) (sel : list (str * date)) (d d' : date) :
  filter (fun e => date_eqb (up_congratulation_date e) d)
    (map (fun p => mkUpcoming (fst p) d' (date_sub_days d' today))
         (filter (on_date d') sel))
  = if date_eqb d' d
    then map (fun p => mkUpcoming (fst p) d (date_sub_days d today))
             (filter (on_date d) sel)
    else [].
Proof.
  destruct (date_eqb d' d) eqn:E.
  - apply date_eqb_eq in E. subst d'. apply filter_all.
    intros e He. apply in_map_iff in He. destruct He as (p & <- & _).
    apply date_eqb_refl.
  - apply filter_none.
    intros e He. apply in_map_iff in He. destruct He as (p & <- & _).
    exact E.
Qed.

Lemma grouped_on_date (today : date) (sel : list (str * date)) (d : date) :
  filter (fun e => date_eqb (up_congratulation_date e) d) (grouped today sel)
  = map (fun p => mkUpcoming (fst p) d (date_sub_days d today))
        (filter (on_date d) sel).
Proof.
  unfold grouped. rewrite filter_flat_map.
  rewrite (flat_map_ext _ _ (fun d' => group_on_date today sel d d')).
  assert (G : forall keys, NoDup keys ->
            flat_map
              (fun d' =>
                 if date_eqb d' d
                 then map (fun p => mkUpcoming (fst p) d
                                      (date_sub_days d today))
                          (filter (on_date d) sel)
                 else []) keys
            = if in_dec date_eq_dec d keys
              then map (fun p => mkUpcoming (fst p) d (date_sub_days d today))
                       (filter (on_date d) sel)
              else []).
  { induction 1 as [|x keys Hx ND IH]; simpl; [reflexivity|].
    rewrite IH. destruct (date_eq_dec x d) as [->|N].
    - rewrite date_eqb_refl.
      destruct (in_dec date_eq_dec d keys); [contradiction|].
      apply app_nil_r.
    - rewrite (proj2 (date_eqb_neq x d) N).
      destruct (in_dec date_eq_dec d keys); reflexivity. }
  rewrite (G _ (distinct_dates_NoDup _)).
  destruct (in_dec date_eq_dec d (distinct_dates (map snd sel))) as [I|O];
    [reflexivity|].
  rewrite filter_none; [reflexivity|].
  intros [nm d'] Hin. unfold on_date. cbn [snd].
  apply date_eqb_neq. intros ->. apply O, distinct_dates_In, in_map_iff.
  exists (nm, d). auto.
Qed.

Lemma distinct_dates_filter_idem (d : date) (l : list date) :
  filter (fun d' => negb (date_eqb d' d))
    (filter (fun d' => negb (date_eqb d' d)) l)
  = filter (fun d' => negb (date_eqb d' d)) l.
Proof.
  apply filter_all. intros x Hx. apply filter_In in Hx. tauto.
Qed.

Lemma distinct_dates_block (d : date) (block rest : list date) :
  block <> [] -> (forall x, In x block -> x = d) ->
  distinct_dates (block ++ rest)
  = d :: filter (fun d' => negb (date_eqb d' d)) (distinct_dates rest).
Proof.
  induction block as [|x block IH]; [congruence|].
  intros _ H. assert (x = d) by (apply H; left; reflexivity). subst x.
  simpl. f_equal. destruct block as [|y block].
  - reflexivity.
  - rewrite IH; [|discriminate | intros x Hx; apply H; right; exact Hx].
    simpl. rewrite date_eqb_refl. simpl. apply distinct_dates_filter_idem.
Qed.

Lemma grouped_dates (today : date) (sel : list (str * date)) :
  distinct_dates (map up_congratulation_date (grouped today sel))
  = distinct_dates (map snd sel).
Proof.
  unfold grouped.
  assert (G : forall keys, NoDup keys ->
            (forall d, In d keys -> In d (map snd sel)) ->
            distinct_dates
              (map up_congratulation_date
                 (flat_map
                    (fun d =>
                       map (fun p => mkUpcoming (fst p) d
                                       (date_sub_days d today))
                           (filter (on_date d) sel)) keys))
            = keys).
  { induction 1 as [|x keys Hx ND IH]; intros Hin; simpl; [reflexivity|].
    rewrite map_app.
    rewrite (distinct_dates_block x).
    - rewrite IH by (intros d Hd; apply Hin; right; exact Hd).
      f_equal. apply filter_all. intros d Hd.
      apply negb_true_iff, date_eqb_neq. intros ->. contradiction.
    - assert (Hx' : In x (map snd sel)) by (apply Hin; left; reflexivity).
      apply in_map_iff in Hx'. destruct Hx' as ([nm d] & Hd & Hp).
      cbn [snd] in Hd. subst d.
      assert (I : In (nm, x) (filter (on_date x) sel)).
      { apply filter_In. split; [exact Hp|]. apply date_eqb_refl. }
      destruct (filter (on_date x) sel); [destruct I | discriminate].
    - intros d Hd. rewrite map_map in Hd. apply in_map_iff in Hd.
      destruct Hd as (p & <- & _). reflexivity. }
  apply G; [apply distinct_dates_NoDup|].
  intros d Hd. apply distinct_dates_In. exact Hd.
Qed.

(** C2, as the code has it: the result lists the selected contacts grouped
    by observed date. The groups come in the order in which their dates are
    first met while scanning the directory, which need not be ascending;
    the entries of one observed date are the contacts selected on that date,
    in the order of the scan. When a projection fails, the call raises that
    error. *)
Theorem get_upcoming_birthdays_grouped (today : date) (book : AddressBook) :
  get_upcoming_birthdays today book
  = (sel <- selected today (dict_values book) ;; Ok (grouped today sel))
  /\ forall sel l,
       selected today (dict_values book) = Ok sel ->
       get_upcoming_birthdays today book = Ok l ->
       distinct_dates (map up_congratulation_date l)
       = distinct_dates (map snd sel)
       /\ forall d,
            filter (fun e => date_eqb (up_congratulation_date e) d) l
            = map (fun p => mkUpcoming (fst p) d (date_sub_days d today))
                  (filter (on_date d) sel).
Proof.
  split; [apply get_upcoming_birthdays_selected|].
  intros sel l Hsel. rewrite get_upcoming_birthdays_selected, Hsel.
  cbn [bind]. intros H. injection H as <-. split.
  - apply grouped_dates.
  - intros d. apply grouped_on_date.
Qed.

Lemma get_upcoming_birthdays_grouped_witness :
  let sel := [(lit "Ann", mkdate 2024 5 17); (lit "Bob", mkdate 2024 5 14);
              (lit "Cid", mkdate 2024 5 17)] in
  let l := [mkUpcoming (lit "Ann") (mkdate 2024 5 17) 4;
            mkUpcoming (lit "Cid") (mkdate 2024 5 17) 4;
            mkUpcoming (lit "Bob") (mkdate 2024 5 14) 1] in
  distinct_dates (map up_congratulation_date l)
  = distinct_dates (map snd sel)
  /\ forall d,
       filter (fun e => date_eqb (up_congratulation_date e) d) l
       = map (fun p => mkUpcoming (fst p) d
                         (date_sub_days d (mkdate 2024 5 13)))
             (filter (on_date d) sel).
Proof.
  intros sel l.
  refine (proj2 (get_upcoming_birthdays_grouped (mkdate 2024 5 13)
            [(lit "Ann", mkRecord (lit "Ann") [] (Some (mkdate 1990 5 17)));
             (lit "Bob", mkRecord (lit "Bob") [] (Some (mkdate 1991 5 14)));
             (lit "Cid", mkRecord (lit "Cid") [] (Some (mkdate 1992 5 17)))])
            sel l _ _); reflexivity.
Defined.

(** C2, as stated, fails: on Monday 2024-05-13, a directory that holds Ann
    (birthday on 17 May) before Bob (birthday on 14 May) yields Ann's entry
    first, so the observed dates are not ascending. *)
Lemma get_upcoming_birthdays_not_ascending :
  ~ (forall today book l,
       get_upcoming_birthdays today book = Ok l ->
       ascending_by_date l = true).
Proof.
  intros H.
  specialize (H (mkdate 2024 5 13)
                [(lit "Ann", mkRecord (lit "Ann") [] (Some (mkdate 1990 5 17)));
                 (lit "Bob", mkRecord (lit "Bob") [] (Some (mkdate 1991 5 14)))]
                _ eq_refl).
  vm_compute in H. discriminate H.
Qed.

Lemma grouped_In (today : date) (sel : list (str * date)) (e : upcoming) :
  In e (grouped today sel) <->
  exists nm cd,
    In (nm, cd) sel /\ e = mkUpcoming nm cd (date_sub_days cd today).
Proof.
  unfold grouped. rewrite in_flat_map. split.
  - intros (d & Hd & He). apply in_map_iff in He.
    destruct He as ([nm cd] & <- & Hp). apply filter_In in Hp.
    destruct Hp as [Hp Hon]. unfold on_date in Hon. cbn [snd] in Hon.
    apply date_eqb_eq in Hon. subst d. exists nm, cd. auto.
  - intros (nm & cd & Hin & ->). exists cd. split.
    + apply distinct_dates_In, in_map_iff. exists (nm, cd). auto.
    + apply in_map_iff. exists (nm, cd). split; [reflexivity|].
      apply filter_In. split; [exact Hin|]. apply date_eqb_refl.
Qed.

Lemma selected_In (today : date) (records : list record) :
  forall sel, selected today records = Ok sel ->
  forall nm cd,
    In (nm, cd) sel <->
    exists r b,
      In r records /\ birthday r = Some b /\ name r = nm /\
      congratulate today b = Ok cd /\ date_sub_days cd today <= 7.
Proof.
  induction records as [|r rs IH]; intros sel; cbn [selected].
  - intros H. injection H as <-. intros nm cd. split; [intros []|].
    intros (r & b & [] & _).
  - destruct (observed today r) as [o|e] eqn:O; cbn [bind]; [|discriminate].
    destruct (selected today rs) as [sel'|e]; cbn [bind]; [|discriminate].
    intros H. injection H as <-. intros nm cd.
    specialize (IH sel' eq_refl nm cd).
    assert (Head : (exists b, birthday r = Some b /\ name r = nm /\
                      congratulate today b = Ok cd /\
                      date_sub_days cd today <= 7)
                   <-> o = Some (nm, cd)).
    { revert O. unfold observed. destruct (birthday r) as [b|].
      - destruct (congratulate today b) as [cd'|e] eqn:C; cbn [bind];
          [|discriminate].
        destruct (Z.leb_spec (date_sub_days cd' today) 7);
          intros HO; injection HO as <-; split.
        + intros (b' & Hb & <- & Hc & _).
          injection Hb as <-. congruence.
        + intros HS. injection HS as <- <-. eauto 6.
        + intros (b' & Hb & _ & Hc & Hle). injection Hb as <-.
          assert (cd' = cd) by congruence. subst. lia.
        + discriminate.
      - intros HO. injection HO as <-. split; [|discriminate].
        intros (b & Hb & _). discriminate. }
    split.
    + intros Hin.
      assert (Hcase : o = Some (nm, cd) \/ In (nm, cd) sel').
      { destruct o as [p|]; [destruct Hin as [->|Hin]|]; auto. }
      destruct Hcase as [Ho|Hin'].
      * apply Head in Ho. destruct Ho as (b & Hb). exists r, b.
        split; [left; reflexivity | exact Hb].
      * apply IH in Hin'. destruct Hin' as (r' & b & Hr & Hb).
        exists r', b. split; [right; exact Hr | exact Hb].
    + intros (r' & b & [<-|Hr] & Hb).
      * assert (Ho : o = Some (nm, cd)) by (apply Head; eauto).
        subst o. left. reflexivity.
      * assert (Hin : In (nm, cd) sel') by (apply IH; eauto).
        destruct o; [right|]; exact Hin.
Qed.

Lemma selected_Ok (today : date) (records : list record) :
  (exists sel, selected today records = Ok sel) <->
  (forall r b, In r records -> birthday r = Some b ->
     exists cd, congratulate today b = Ok cd).
Proof.
  induction records as [|r rs IH]; cbn [selected].
  - split; [intros _ r b [] | eauto].
  - split.
    + intros (sel & H).
      destruct (observed today r) as [o|e] eqn:O; cbn [bind] in H;
        [|discriminate].
      destruct (selected today rs) as [sel'|e]; cbn [bind] in H;
        [|discriminate].
      intros r' b [<-|Hr] Hb.
      * revert O. unfold observed. rewrite Hb.
        destruct (congratulate today b) as [cd|e]; [eauto | discriminate].
      * apply (proj1 IH) with (r := r'); eauto.
    + intros H.
      assert (O : exists o, observed today r = Ok o).
      { unfold observed. destruct (birthday r) as [b|] eqn:Hb; [|eauto].
        destruct (H r b (or_introl eq_refl) Hb) as (cd & ->).
        cbn [bind]. eauto. }
      destruct O as (o & ->). cbn [bind].
      destruct (proj2 IH) as (sel' & ->).
      { intros r' b Hr Hb. apply (H r' b); [right; exact Hr | exact Hb]. }
      cbn [bind]. eauto.
Qed.

(** The entries of a result, in terms of the records of the directory. *)
Lemma get_upcoming_birthdays_In (today : date) (book : AddressBook)
    (l : list upcoming) :
  get_upcoming_birthdays today book = Ok l ->
  forall nm cd days,
    In (mkUpcoming nm cd days) l <->
    exists r b,
      In r (dict_values book) /\ birthday r = Some b /\ name r = nm /\
      congratulate today b = Ok cd /\ days = date_sub_days cd today /\
      days <= 7.
Proof.
  rewrite get_upcoming_birthdays_selected.
  destruct (selected today (dict_values book)) as [sel|e] eqn:S;
    cbn [bind]; [|discriminate].
  intros H. injection H as <-. intros nm cd days.
  rewrite grouped_In. split.
  - intros (nm' & cd' & Hin & He). injection He as -> -> ->.
    apply (selected_In _ _ _ S) in Hin.
    destruct Hin as (r & b & Hr & Hb & Hn & Hc & Hle).
    exists r, b. auto 8.
  - intros (r & b & Hr & Hb & Hn & Hc & -> & Hle).
    exists nm, cd. split; [|reflexivity].
    apply (selected_In _ _ _ S). exists r, b. auto 8.
Qed.

Lemma get_upcoming_birthdays_Ok (today : date) (book : AddressBook) :
  (exists l, get_upcoming_birthdays today book = Ok l) <->
  (forall r b, In r (dict_values book) -> birthday r = Some b ->
     exists cd, congratulate today b = Ok cd).
Proof.
  rewrite <- selected_Ok, get_upcoming_birthdays_selected. split.
  - intros (l & H).
    destruct (selected today (dict_values book)) as [sel|e];
      [eauto | discriminate].
  - intros (sel & ->). cbn [bind]. eauto.
Qed.

(** ** The upcoming birthdays *)

(** C3: a contact with a birthday is in the result exactly when its observed
    date is at most seven days after today; the number of days is never
    negative, so this is the window from 0 to 7. An observed date seven days
    away is included, one eight days away is not. *)
Theorem upcoming_window (today : date) (book : AddressBook)
    (l : list upcoming) (r : record) (b : date) :
  valid_date today ->
  birthdays_valid book ->
  get_upcoming_birthdays today book = Ok l ->
  In r (dict_values book) ->
  birthday r = Some b ->
  exists cd,
    congratulate today b = Ok cd /\
    0 <= date_sub_days cd today /\
    (In (mkUpcoming (name r) cd (date_sub_days cd today)) l <->
     0 <= date_sub_days cd today <= 7) /\
    (date_sub_days cd today = 7 ->
     In (mkUpcoming (name r) cd 7) l) /\
    (date_sub_days cd today = 8 ->
     forall days, ~ In (mkUpcoming (name r) cd days) l).
Proof.
  intros Vt Vb Hl Hr Hb.
  destruct (proj1 (get_upcoming_birthdays_Ok today book)
              (ex_intro _ l Hl) r b Hr Hb) as (cd & Hc).
  exists cd. split; [exact Hc|].
  destruct (congratulate_Ok today b cd Vt Hc) as [Hord _].
  assert (Hpos : 0 <= date_sub_days cd today)
    by (unfold date_sub_days; lia).
  pose proof (get_upcoming_birthdays_In today book l Hl) as Hin.
  split; [exact Hpos|]. split; [|split].
  - rewrite Hin. split.
    + intros (r' & b' & _ & _ & _ & _ & _ & Hle). lia.
    + intros [_ Hle]. exists r, b. auto 8.
  - intros H7. apply Hin. exists r, b. repeat split; auto; lia.
  - intros H8 days Habs. apply Hin in Habs.
    destruct Habs as (r' & b' & _ & _ & _ & _ & -> & Hle). lia.
Qed.

Lemma upcoming_window_witness :
  exists cd,
    congratulate (mkdate 2024 5 17) (mkdate 1990 5 24) = Ok cd /\
    0 <= date_sub_days cd (mkdate 2024 5 17) /\
    (In (mkUpcoming (lit "Ann") cd (date_sub_days cd (mkdate 2024 5 17)))
        [mkUpcoming (lit "Ann") (mkdate 2024 5 24) 7] <->
     0 <= date_sub_days cd (mkdate 2024 5 17) <= 7) /\
    (date_sub_days cd (mkdate 2024 5 17) = 7 ->
     In (mkUpcoming (lit "Ann") cd 7)
        [mkUpcoming (lit "Ann") (mkdate 2024 5 24) 7]) /\
    (date_sub_days cd (mkdate 2024 5 17) = 8 ->
     forall days,
       ~ In (mkUpcoming (lit "Ann") cd days)
           [mkUpcoming (lit "Ann") (mkdate 2024 5 24) 7]).
Proof.
  refine (upcoming_window (mkdate 2024 5 17)
            [(lit "Ann", mkRecord (lit "Ann") [] (Some (mkdate 1990 5 24)))]
            [mkUpcoming (lit "Ann") (mkdate 2024 5 24) 7]
            (mkRecord (lit "Ann") [] (Some (mkdate 1990 5 24)))
            (mkdate 1990 5 24) _ _ _ _ _).
  - unfold valid_date. vm_compute. intuition discriminate.
  - intros r b [<-|[]] Hb. injection Hb as <-.
    unfold valid_date. vm_compute. intuition discriminate.
  - reflexivity.
  - left. reflexivity.
  - reflexivity.
Defined.

(** On Friday 2024-05-17, for a directory whose birthdays are dates, none
    of them 29 February, the call returns, and its result has an entry for
    every contact born on 18 May, with the observed date Monday 2024-05-20,
    three days ahead: 2024-05-18 is a Saturday and moves by two days. *)
Lemma saturday_birthday_without_leap_day (book : AddressBook) (r : record)
    (b : date) :
  birthdays_valid book ->
  no_leap_day book ->
  In r (dict_values book) ->
  birthday r = Some b ->
  month b = 5 -> day b = 18 ->
  weekday (mkdate 2024 5 17) = 4 /\
  weekday (mkdate 2024 5 18) = 5 /\
  exists l,
    get_upcoming_birthdays (mkdate 2024 5 17) book = Ok l /\
    In (mkUpcoming (name r) (mkdate 2024 5 20) 3) l.
Proof.
  intros Vb Nl Hr Hb Hm Hd.
  split; [reflexivity|]. split; [reflexivity|].
  assert (Vt : valid_date (mkdate 2024 5 17))
    by (unfold valid_date; vm_compute; intuition discriminate).
  destruct (proj2 (get_upcoming_birthdays_Ok (mkdate 2024 5 17) book))
    as (l & Hl).
  { intros r' b' Hr' Hb'. apply congratulate_total.
    - exact Vt.
    - reflexivity.
    - exact (Vb r' b' Hr' Hb').
    - exact (Nl r' b' Hr' Hb'). }
  exists l. split; [exact Hl|].
  apply (get_upcoming_birthdays_In _ _ _ Hl). exists r, b.
  assert (Hc : congratulate (mkdate 2024 5 17) b = Ok (mkdate 2024 5 20)).
  { destruct b as [y m d]. cbn [month day] in Hm, Hd. subst m d.
    reflexivity. }
  split; [exact Hr|]. split; [exact Hb|]. split; [reflexivity|].
  split; [exact Hc|]. split; [reflexivity | lia].
Qed.

Lemma saturday_birthday_without_leap_day_example :
  exists l,
    get_upcoming_birthdays (mkdate 2024 5 17)
      [(lit "Ann", mkRecord (lit "Ann") [] (Some (mkdate 1990 5 18)))] = Ok l /\
    In (mkUpcoming (lit "Ann") (mkdate 2024 5 20) 3) l.
Proof.
  refine (proj2 (proj2 (saturday_birthday_without_leap_day
            [(lit "Ann", mkRecord (lit "Ann") [] (Some (mkdate 1990 5 18)))]
            (mkRecord (lit "Ann") [] (Some (mkdate 1990 5 18)))
            (mkdate 1990 5 18) _ _ _ _ _ _))).
  - intros r b [<-|[]] Hb. injection Hb as <-.
    unfold valid_date. vm_compute. intuition discriminate.
  - intros r b [<-|[]] Hb. injection Hb as <-. reflexivity.
  - left. reflexivity.
  - reflexivity.
  - reflexivity.
  - reflexivity.
Defined.

(** C1, at the directory that the commands add Ann 0123456789,
    add-birthday Ann 1990.05.18, add Bob 9876543210 and
    add-birthday Bob 2020.02.29 build, on Friday 2024-05-17: Ann was born
    on 18 May, and the call returns no entry for her. It raises the error of
    the date constructor: Bob's birthday, projected onto 2024, is before
    today, and its projection onto 2025 is not a date. The [birthdays]
    handler shows the message of that error. While the directory holds Ann
    alone, the call returns her entry, with Monday 2024-05-20 and 3 days. *)
Theorem upcoming_saturday_birthday_raises :
  let today := mkdate 2024 5 17 in
  let ann :=
    fst (add_birthday (fst (add_contact [] [lit "Ann"; lit "0123456789"]))
           [lit "Ann"; lit "1990.05.18"]) in
  let book :=
    fst (add_birthday (fst (add_contact ann [lit "Bob"; lit "9876543210"]))
           [lit "Bob"; lit "2020.02.29"]) in
  book = [(lit "Ann",
           mkRecord (lit "Ann") [lit "0123456789"] (Some (mkdate 1990 5 18)));
          (lit "Bob",
           mkRecord (lit "Bob") [lit "9876543210"] (Some (mkdate 2020 2 29)))]
  /\ weekday today = 4
  /\ weekday (mkdate 2024 5 18) = 5
  /\ get_upcoming_birthdays today ann
     = Ok [mkUpcoming (lit "Ann") (mkdate 2024 5 20) 3]
  /\ date_replace_year (mkdate 2020 2 29) 2024 = Ok (mkdate 2024 2 29)
  /\ date_ltb (mkdate 2024 2 29) today = true
  /\ date_replace_year (mkdate 2024 2 29) 2025
     = Raise (ValueError (lit "day is out of range for month"))
  /\ get_upcoming_birthdays today book
     = Raise (ValueError (lit "day is out of range for month"))
  /\ forall normalize_century,
       birthdays normalize_century today book []
       = (book, lit "day is out of range for month").
Proof. vm_compute. repeat split. Qed.

(** The projection of a birthday on 29 February onto a year that is not a
    leap year fails in the constructor of the date. *)
Lemma congratulate_leap_day (today b : date) :
  valid_date today -> is_leap (year today) = false ->
  month b = 2 -> day b = 29 ->
  congratulate today b
  = Raise (ValueError (lit "day is out of range for month")).
Proof.
  intros (Hy & _) Hl Hm Hd. unfold congratulate, date_replace_year, date_new.
  rewrite Hm, Hd. unfold days_in_month. rewrite Hl.
  destruct (Z.ltb_spec (year today) MINYEAR); [lia|].
  destruct (Z.ltb_spec MAXYEAR (year today)); [lia|].
  reflexivity.
Qed.

(** C4, at a directory with a contact born on 29 February 2020 and the
    date 2023-03-01: the call raises the error of the date constructor; the
    [birthdays] handler shows its message. *)
Theorem get_upcoming_birthdays_leap_day_raises :
  let book :=
    fst (add_birthday (fst (add_contact [] [lit "Ann"; lit "0123456789"]))
           [lit "Ann"; lit "2020.02.29"]) in
  book = [(lit "Ann",
           mkRecord (lit "Ann") [lit "0123456789"] (Some (mkdate 2020 2 29)))]
  /\ get_upcoming_birthdays (mkdate 2023 3 1) book
     = Raise (ValueError (lit "day is out of range for month"))
  /\ forall normalize_century,
       birthdays normalize_century (mkdate 2023 3 1) book []
       = (book, lit "day is out of range for month").
Proof. vm_compute. repeat split. Qed.

(** ** [Birthday]: parsing and rendering *)

Lemma ascii_digit_In (c : Z) : ascii_digit c = true -> In c ascii_digits.
Proof.
  unfold ascii_digit. rewrite andb_true_iff, !Z.leb_le. intros [L U].
  unfold ascii_digits. simpl.
  assert (c = 48 \/ c = 49 \/ c = 50 \/ c = 51 \/ c = 52 \/ c = 53 \/
          c = 54 \/ c = 55 \/ c = 56 \/ c = 57) by lia.
  intuition auto.
Qed.

Ltac each_digit H :=
  apply ascii_digit_In in H; unfold ascii_digits in H; simpl in H;
  destruct H as [H|[H|[H|[H|[H|[H|[H|[H|[H|[H|[]]]]]]]]]]];
  symmetry in H; subst.

Lemma ascii_digit_decimal (c : Z) :
  ascii_digit c = true ->
  Py_UNICODE_ISDECIMAL c = true /\ Py_UNICODE_TODECIMAL c = Some (c - 48).
Proof.
  intros H. each_digit H; split; reflexivity.
Qed.

Lemma lstrip_blank_digit (c : Z) (t : str) :
  ascii_digit c = true -> lstrip_blank (c :: t) = c :: t.
Proof. intros H. each_digit H; reflexivity. Qed.

Lemma py_int_2 (a b : Z) :
  ascii_digit a = true -> ascii_digit b = true ->
  py_int [a; b] = Some (10 * (a - 48) + (b - 48)).
Proof.
  intros Ha Hb. unfold py_int. rewrite (lstrip_blank_digit a [b] Ha).
  cbn [decimal_value].
  rewrite (proj2 (ascii_digit_decimal a Ha)),
    (proj2 (ascii_digit_decimal b Hb)).
  f_equal; lia.
Qed.

Lemma py_int_4 (a b c d : Z) :
  ascii_digit a = true -> ascii_digit b = true ->
  ascii_digit c = true -> ascii_digit d = true ->
  py_int [a; b; c; d]
  = Some (1000 * (a - 48) + 100 * (b - 48) + 10 * (c - 48) + (d - 48)).
Proof.
  intros Ha Hb Hc Hd. unfold py_int.
  rewrite (lstrip_blank_digit a _ Ha). cbn [decimal_value].
  rewrite (proj2 (ascii_digit_decimal a Ha)),
    (proj2 (ascii_digit_decimal b Hb)),
    (proj2 (ascii_digit_decimal c Hc)),
    (proj2 (ascii_digit_decimal d Hd)).
  f_equal; lia.
Qed.

Lemma re_match_Cat (A : Type) (r1 r2 : regex) (s : str)
    (g : list (Z * str)) (k : str -> list (Z * str) -> option A) :
  re_match (Cat r1 r2) s g k
  = re_match r1 s g (fun s' g' => re_match r2 s' g' k).
Proof. reflexivity. Qed.

Lemma match_Y (a b c d : Z) (t : str) (g : list (Z * str))
    (A : Type) (k : str -> list (Z * str) -> option A) :
  ascii_digit a = true -> ascii_digit b = true ->
  ascii_digit c = true -> ascii_digit d = true ->
  re_match regex_Y (a :: b :: c :: d :: t) g k
  = k t ((group_Y, [a; b; c; d]) :: g).
Proof.
  intros Ha Hb Hc Hd. unfold regex_Y. cbn [re_match].
  rewrite (proj1 (ascii_digit_decimal a Ha)),
    (proj1 (ascii_digit_decimal b Hb)),
    (proj1 (ascii_digit_decimal c Hc)),
    (proj1 (ascii_digit_decimal d Hd)).
  cbn [length].
  replace (S (S (S (S (length t)))) - length t)%nat with 4%nat by lia.
  reflexivity.
Qed.

Lemma match_m_d (m1 m2 d1 d2 : Z) (g : list (Z * str)) :
  ascii_digit m1 = true -> ascii_digit m2 = true ->
  ascii_digit d1 = true -> ascii_digit d2 = true ->
  1 <= 10 * (m1 - 48) + (m2 - 48) <= 12 ->
  1 <= 10 * (d1 - 48) + (d2 - 48) <= 31 ->
  re_match (Cat (Lit 46) (Cat regex_m (Cat (Lit 46) regex_d)))
    [46; m1; m2; 46; d1; d2] g (fun rest groups => Some (rest, groups))
  = Some ([], (group_d, [d1; d2]) :: (group_m, [m1; m2]) :: g).
Proof.
  intros Hm1 Hm2 Hd1 Hd2 Hm Hd.
  each_digit Hm1; each_digit Hm2; try lia;
    each_digit Hd1; each_digit Hd2; try lia; reflexivity.
Qed.

Lemma strptime_Ymd_pattern (y1 y2 y3 y4 m1 m2 d1 d2 : Z) :
  forallb ascii_digit [y1; y2; y3; y4; m1; m2; d1; d2] = true ->
  let dt :=
    mkdate (1000 * (y1 - 48) + 100 * (y2 - 48) + 10 * (y3 - 48) + (y4 - 48))
           (10 * (m1 - 48) + (m2 - 48)) (10 * (d1 - 48) + (d2 - 48)) in
  valid_date dt ->
  strptime_Ymd [y1; y2; y3; y4; 46; m1; m2; 46; d1; d2] = Some dt.
Proof.
  intros D dt V. cbn [forallb] in D. rewrite !andb_true_iff in D.
  destruct D as (Hy1 & Hy2 & Hy3 & Hy4 & Hm1 & Hm2 & Hd1 & Hd2 & _).
  pose proof V as (Hy & Hm & Hd). unfold dt in Hy, Hm, Hd.
  cbn [year month day] in Hy, Hm, Hd.
  assert (Hd' : 1 <= 10 * (d1 - 48) + (d2 - 48) <= 31).
  { split; [lia|]. eapply Z.le_trans; [apply Hd|].
    unfold days_in_month. destruct (_ && _); [lia|].
    each_month Hm; cbn [DAYS_IN_MONTH]; lia. }
  unfold strptime_Ymd, format_regex. rewrite re_match_Cat.
  rewrite match_Y by assumption. cbv beta.
  rewrite match_m_d by assumption.
  unfold group, group_Y, group_m, group_d.
  cbn [dict_get Z.eqb Pos.eqb].
  rewrite py_int_4, !py_int_2 by assumption.
  fold dt. rewrite (proj2 (date_new_Ok _ _ _ dt)); [reflexivity|].
  split; [reflexivity | exact V].
Qed.

Lemma forallb_digits (f : Z -> bool) (c : Z) :
  forallb f ascii_digits = true -> ascii_digit c = true -> f c = true.
Proof.
  intros H Hc. rewrite forallb_forall in H. apply H, ascii_digit_In, Hc.
Qed.

Ltac over_digit c H :=
  match goal with
  | |- ?e = true =>
      let f := eval pattern c in e in
      match f with
      | ?g _ => apply (forallb_digits g c); [|exact H]
      end
  end.

Lemma two_digits (a b : Z) :
  ascii_digit a = true -> ascii_digit b = true ->
  zero_pad 2 (str_of_int (10 * (a - 48) + (b - 48))) = [a; b].
Proof.
  intros Ha Hb. apply str_eqb_eq.
  over_digit b Hb. over_digit a Ha. vm_compute. reflexivity.
Qed.

Lemma four_digits_padded (a b c d : Z) :
  ascii_digit a = true -> ascii_digit b = true ->
  ascii_digit c = true -> ascii_digit d = true ->
  zero_pad 4 (str_of_int (1000 * (a - 48) + 100 * (b - 48)
                          + 10 * (c - 48) + (d - 48)))
  = [a; b; c; d].
Proof.
  intros Ha Hb Hc Hd. apply str_eqb_eq.
  over_digit d Hd. over_digit c Hc. over_digit b Hb. over_digit a Ha.
  vm_compute. reflexivity.
Qed.

Lemma four_digits (a b c d : Z) :
  ascii_digit a = true -> ascii_digit b = true ->
  ascii_digit c = true -> ascii_digit d = true ->
  a <> 48 ->
  str_of_int (1000 * (a - 48) + 100 * (b - 48) + 10 * (c - 48) + (d - 48))
  = [a; b; c; d].
Proof.
  intros Ha Hb Hc Hd Hn. apply str_eqb_eq.
  assert (H : (a =? 48)
              || str_eqb (str_of_int (1000 * (a - 48) + 100 * (b - 48)
                                      + 10 * (c - 48) + (d - 48)))
                         [a; b; c; d] = true).
  { clear Hn. over_digit d Hd. over_digit c Hc. over_digit b Hb.
    over_digit a Ha. vm_compute. reflexivity. }
  apply orb_true_iff in H. destruct H as [H|H]; [|exact H].
  apply Z.eqb_eq in H. contradiction.
Qed.

(** C8, as the code has it: a text in the pattern that denotes a date is
    parsed to that date, and rendering the date gives the text back when
    the year has four significant digits (1000 to 9999), or for every year
    from 0001 on where [%Y] is padded to four digits. *)
Theorem birthday_round_trip (normalize_century : bool) (s : str) :
  is_YYYY_MM_DD s = true ->
  valid_date (denoted s) ->
  normalize_century = true \/ 1000 <= year (denoted s) ->
  Birthday_init s = Ok (denoted s)
  /\ Birthday_str normalize_century (denoted s) = s.
Proof.
  destruct s as [|y1 [|y2 [|y3 [|y4 [|p1 [|m1 [|m2 [|p2 [|d1 [|d2 [|? ?]]]]]]]]]]];
    try discriminate.
  unfold is_YYYY_MM_DD. rewrite !andb_true_iff, !Z.eqb_eq.
  intros [[D -> ] ->] V Y. cbn [denoted] in *.
  split.
  - unfold Birthday_init. rewrite (strptime_Ymd_pattern _ _ _ _ _ _ _ _ D V).
    reflexivity.
  - cbn [forallb] in D. rewrite !andb_true_iff in D.
    destruct D as (Hy1 & Hy2 & Hy3 & Hy4 & Hm1 & Hm2 & Hd1 & Hd2 & _).
    unfold Birthday_str, strftime_Ymd. cbn [year month day] in *.
    rewrite !two_digits by assumption.
    destruct normalize_century.
    + rewrite four_digits_padded by assumption. reflexivity.
    + destruct Y as [Y|Y]; [discriminate|].
      rewrite four_digits; [reflexivity | assumption..|].
      intros ->. unfold ascii_digit in *.
      rewrite andb_true_iff, !Z.leb_le in Hy2, Hy3, Hy4. lia.
Qed.

Lemma birthday_round_trip_witness :
  Birthday_init (lit "1990.05.17") = Ok (mkdate 1990 5 17)
  /\ Birthday_str false (mkdate 1990 5 17) = lit "1990.05.17".
Proof.
  refine (birthday_round_trip false (lit "1990.05.17") _ _ _).
  - reflexivity.
  - unfold valid_date. vm_compute. intuition discriminate.
  - right. vm_compute. discriminate.
Defined.

(** C8, as stated, fails where the C library does not pad [%Y] (glibc,
    CPython up to 3.12): "0999.01.01" denotes a date and parses, and renders
    as "999.01.01". *)
Lemma birthday_round_trip_year_999 :
  ~ (forall normalize_century s,
       is_YYYY_MM_DD s = true -> valid_date (denoted s) ->
       exists b,
         Birthday_init s = Ok b /\ Birthday_str normalize_century b = s).
Proof.
  intros H. destruct (H false (lit "0999.01.01")) as (b & Hb & Hs).
  - reflexivity.
  - unfold valid_date. vm_compute. intuition discriminate.
  - vm_compute in Hb. injection Hb as <-. vm_compute in Hs. discriminate Hs.
Qed.

(** ** Stored birthdays are dates *)

Lemma Birthday_init_valid (text : str) (b : date) :
  Birthday_init text = Ok b -> valid_date b.
Proof.
  unfold Birthday_init, strptime_Ymd.
  destruct (re_match format_regex text [] _) as [[[|? ?] groups]|];
    try discriminate.
  destruct (group groups group_Y) as [y|]; [|discriminate].
  destruct (group groups group_m) as [m|]; [|discriminate].
  destruct (group groups group_d) as [d|]; [|discriminate].
  destruct (date_new y m d) as [dt|e] eqn:E; [|discriminate].
  intros H. injection H as <-.
  apply date_new_Ok in E. destruct E as [-> V]. exact V.
Qed.

Lemma dict_values_set (book : AddressBook) (k : str) (r r' : record) :
  In r' (dict_values (dict_set str_eqb book k r)) ->
  r' = r \/ In r' (dict_values book).
Proof.
  induction book as [|[k' v] book IH]; simpl.
  - intros [<-|[]]. left. reflexivity.
  - destruct (str_eqb k' k); simpl.
    + intros [<-|H]; auto.
    + intros [<-|H]; [auto|]. destruct (IH H); auto.
Qed.

Lemma dict_get_In (book : AddressBook) (k : str) (r : record) :
  dict_get str_eqb book k = Some r -> In r (dict_values book).
Proof.
  induction book as [|[k' v] book IH]; simpl; [discriminate|].
  destruct (str_eqb k' k).
  - intros H. injection H as <-. left. reflexivity.
  - intros H. right. apply IH. exact H.
Qed.

Lemma birthdays_valid_set (book : AddressBook) (k : str) (r : record) :
  birthdays_valid book ->
  (forall b, birthday r = Some b -> valid_date b) ->
  birthdays_valid (dict_set str_eqb book k r).
Proof.
  intros Hbook Hr r' b Hin Hb.
  destruct (dict_values_set _ _ _ _ Hin) as [->|H]; [auto|].
  exact (Hbook r' b H Hb).
Qed.

Lemma add_phones_birthday (new_phones : list str) :
  forall r, birthday (fst (add_phones r new_phones)) = birthday r.
Proof.
  induction new_phones as [|p ps IH]; intros r; simpl; [reflexivity|].
  unfold Record_add_phone.
  destruct (Phone_validate p); [|reflexivity]. rewrite IH. reflexivity.
Qed.

(** Every stored birthday is a date: the handlers keep this, whatever their
    arguments and whether or not they fail. *)
Lemma handlers_keep_birthdays_valid (normalize_century : bool) (today : date)
    (body : AddressBook -> list str -> AddressBook * result str) :
  In body (handler_bodies normalize_century today) ->
  forall book args,
    birthdays_valid book -> birthdays_valid (fst (body book args)).
Proof.
  unfold handler_bodies. simpl.
  intros [<-|[<-|[<-|[<-|[<-|[<-|[<-|[]]]]]]]] book args Hv.
  - rewrite add_contact_body_set. cbv beta iota. destruct args as [|nm ps]; [exact Hv|].
    unfold AddressBook_find, AddressBook_add_record.
    destruct (dict_get str_eqb book nm) as [r|] eqn:F.
    + pose proof (add_phones_birthday ps r) as B.
      destruct (add_phones r ps) as [r' o]. cbn [fst] in *.
      apply birthdays_valid_set; [exact Hv|].
      intros b Hb. rewrite B in Hb.
      exact (Hv r b (dict_get_In _ _ _ F) Hb).
    + pose proof (add_phones_birthday ps (Record_init nm)) as B.
      destruct (add_phones (Record_init nm) ps) as [r' o]. cbn [fst] in *.
      apply birthdays_valid_set.
      * apply birthdays_valid_set; [exact Hv|]. discriminate.
      * intros b Hb. rewrite B in Hb. discriminate Hb.
  - rewrite change_contact_body_set. cbv beta iota.
    destruct args as [|a [|o [|n [|? ?]]]]; try exact Hv.
    unfold AddressBook_find.
    destruct (dict_get str_eqb book a) as [r|] eqn:F; [|exact Hv].
    unfold Record_edit_phone, Record_add_phone.
    destruct (Phone_validate n); cbn [fst];
      (apply birthdays_valid_set; [exact Hv|]); cbn [birthday Record_remove_phone];
      intros b Hb; exact (Hv r b (dict_get_In _ _ _ F) Hb).
  - unfold show_phone_body. destruct args as [|a [|? ?]]; try exact Hv.
    destruct (AddressBook_find book a); exact Hv.
  - unfold show_all_body. destruct args; [|exact Hv].
    destruct book; exact Hv.
  - rewrite add_birthday_body_set. cbv beta iota.
    destruct args as [|a [|t [|? ?]]]; try exact Hv.
    unfold AddressBook_find.
    destruct (dict_get str_eqb book a) as [r|] eqn:F; [|exact Hv].
    unfold Record_add_birthday.
    destruct (Birthday_init t) as [b'|e] eqn:B; cbn [fst];
      (apply birthdays_valid_set; [exact Hv|]).
    + cbn [birthday]. intros b Hb. injection Hb as <-.
      exact (Birthday_init_valid t b' B).
    + intros b Hb. exact (Hv r b (dict_get_In _ _ _ F) Hb).
  - unfold show_birthday_body. destruct args as [|a [|? ?]]; try exact Hv.
    destruct (AddressBook_find book a) as [r|]; [|exact Hv].
    destruct (birthday r); exact Hv.
  - unfold birthdays_body. destruct args; exact Hv.
Qed.

(** * Further properties of the code *)

(** ** More on dictionaries *)

Section DictLookup.
Context {K V : Type}.
Variable eqb : K -> K -> bool.
Hypothesis eqb_eq : forall a b, eqb a b = true <-> a = b.

Lemma eqb_neq (a b : K) : a <> b -> eqb a b = false.
Proof.
  intros N. destruct (eqb a b) eqn:E; [|reflexivity].
  apply eqb_eq in E. contradiction.
Qed.

Lemma dict_get_set_eq (d : list (K * V)) (k : K) (v : V) :
  dict_get eqb (dict_set eqb d k v) k = Some v.
Proof.
  induction d as [|[k' v'] d IH]; simpl.
  - rewrite (proj2 (eqb_eq k k) eq_refl). reflexivity.
  - destruct (eqb k' k) eqn:E; simpl; rewrite E; [reflexivity | exact IH].
Qed.

Lemma dict_get_set_ne (d : list (K * V)) (k k' : K) (v : V) :
  k <> k' -> dict_get eqb (dict_set eqb d k v) k' = dict_get eqb d k'.
Proof.
  intros N. induction d as [|[k0 v0] d IH]; simpl.
  - rewrite (eqb_neq k k' N). reflexivity.
  - destruct (eqb k0 k) eqn:E; simpl.
    + apply eqb_eq in E. subst k0. rewrite (eqb_neq k k' N). reflexivity.
    + destruct (eqb k0 k'); [reflexivity | exact IH].
Qed.

Lemma dict_set_same (d : list (K * V)) (k : K) (v : V) :
  dict_get eqb d k = Some v -> dict_set eqb d k v = d.
Proof.
  induction d as [|[k' v'] d IH]; simpl; [discriminate|].
  destruct (eqb k' k).
  - intros H. injection H as ->. reflexivity.
  - intros H. rewrite IH by exact H. reflexivity.
Qed.

Lemma dict_del_absent (d : list (K * V)) (k : K) :
  dict_get eqb d k = None -> dict_del eqb d k = d.
Proof.
  induction d as [|[k' v'] d IH]; simpl; [reflexivity|].
  destruct (eqb k' k); [discriminate|].
  intros H. rewrite IH by exact H. reflexivity.
Qed.

Lemma dict_get_del_ne (d : list (K * V)) (k k' : K) :
  k <> k' -> dict_get eqb (dict_del eqb d k) k' = dict_get eqb d k'.
Proof.
  intros N. induction d as [|[k0 v0] d IH]; simpl; [reflexivity|].
  destruct (eqb k0 k) eqn:E; simpl.
  - apply eqb_eq in E. subst k0. rewrite (eqb_neq k k' N). reflexivity.
  - destruct (eqb k0 k'); [reflexivity | exact IH].
Qed.

Lemma dict_keys_del_incl (d : list (K * V)) (k x : K) :
  In x (dict_keys (dict_del eqb d k)) -> In x (dict_keys d).
Proof.
  induction d as [|[k0 v0] d IH]; simpl; [tauto|].
  destruct (eqb k0 k); simpl; [tauto|].
  intros [H|H]; [left; exact H | right; apply IH; exact H].
Qed.

Lemma dict_del_NoDup (d : list (K * V)) (k : K) :
  NoDup (dict_keys d) -> NoDup (dict_keys (dict_del eqb d k)).
Proof.
  induction d as [|[k0 v0] d IH]; simpl; [trivial|].
  intros ND. inversion ND as [|? ? Hx ND']; subst.
  destruct (eqb k0 k); simpl; [exact ND'|].
  constructor; [|apply IH; exact ND'].
  intros H. apply Hx. apply (dict_keys_del_incl d k). exact H.
Qed.

Lemma dict_get_del_eq (d : list (K * V)) (k : K) :
  NoDup (dict_keys d) -> dict_get eqb (dict_del eqb d k) k = None.
Proof.
  induction d as [|[k0 v0] d IH]; simpl; [reflexivity|].
  intros ND. inversion ND as [|? ? Hx ND']; subst.
  destruct (eqb k0 k) eqn:E; simpl.
  - apply eqb_eq in E. subst k0.
    apply (dict_get_None eqb eqb_eq). exact Hx.
  - rewrite E. apply IH. exact ND'.
Qed.

Lemma dict_del_length (d : list (K * V)) (k : K) (v : V) :
  dict_get eqb d k = Some v ->
  S (length (dict_del eqb d k)) = length d.
Proof.
  induction d as [|[k0 v0] d IH]; simpl; [discriminate|].
  destruct (eqb k0 k); [reflexivity|].
  intros H. simpl. rewrite IH by exact H. reflexivity.
Qed.
End DictLookup.

(** ** [Record]: removing and editing phones *)

Lemma str_eqb_neq (a b : str) : a <> b -> str_eqb a b = false.
Proof. apply (eqb_neq str_eqb str_eqb_eq). Qed.

(** X1: [remove_phone] removes every occurrence of the phone and keeps the
    other phones in their order; it changes nothing when the phone is not
    there, and removing twice is removing once. *)
Theorem remove_phone_spec (r : record) (phone : str) :
  ~ In phone (phones (Record_remove_phone r phone))
  /\ (forall q, q <> phone ->
        filter (str_eqb q) (phones (Record_remove_phone r phone))
        = filter (str_eqb q) (phones r))
  /\ (~ In phone (phones r) -> Record_remove_phone r phone = r)
  /\ Record_remove_phone (Record_remove_phone r phone) phone
     = Record_remove_phone r phone
  /\ name (Record_remove_phone r phone) = name r
  /\ birthday (Record_remove_phone r phone) = birthday r.
Proof.
  assert (A : forall l, ~ In phone l ->
            filter (fun p => negb (str_eqb p phone)) l = l).
  { intros l Hl. apply filter_all. intros x Hx.
    apply negb_true_iff, str_eqb_neq. intros ->. contradiction. }
  split; [apply not_in_filter_neq|]. split; [|split; [|split]].
  - intros q Hq. unfold Record_remove_phone. cbn [phones].
    induction (phones r) as [|p l IH]; simpl; [reflexivity|].
    destruct (str_eqb p phone) eqn:E; simpl.
    + apply str_eqb_eq in E. subst p.
      rewrite (str_eqb_neq q phone Hq). exact IH.
    + destruct (str_eqb q p); [f_equal|]; exact IH.
  - intros H. unfold Record_remove_phone. rewrite (A _ H).
    destruct r; reflexivity.
  - unfold Record_remove_phone. cbn [name phones birthday].
    rewrite (A _ (not_in_filter_neq phone (phones r))). reflexivity.
  - split; reflexivity.
Qed.

Lemma remove_phone_spec_witness :
  let r := mkRecord (lit "Ann") [lit "0000000000"; lit "1111111111"] None in
  Record_remove_phone r (lit "2222222222") = r.
Proof.
  intros r.
  refine (proj1 (proj2 (proj2 (remove_phone_spec r (lit "2222222222")))) _).
  vm_compute. intuition discriminate.
Defined.

(** X2: with a valid [new], [edit_phone(old, new)] succeeds and leaves the
    former phones without [old], followed by [new]: the edited phone moves
    to the end, and when [old] is not among the phones the call still
    appends [new]. *)
Theorem edit_phone_valid_new (r : record) (old_phone new_phone : str) :
  Phone_validate new_phone = Ok tt ->
  Record_edit_phone r old_phone new_phone
  = (mkRecord (name r)
       (filter (fun p => negb (str_eqb p old_phone)) (phones r) ++ [new_phone])
       (birthday r),
     Ok tt)
  /\ (~ In old_phone (phones r) ->
      phones (fst (Record_edit_phone r old_phone new_phone))
      = phones r ++ [new_phone])
  /\ (phones r = [old_phone] ->
      phones (fst (Record_edit_phone r old_phone new_phone)) = [new_phone]).
Proof.
  intros Hv.
  assert (E : Record_edit_phone r old_phone new_phone
              = (mkRecord (name r)
                   (filter (fun p => negb (str_eqb p old_phone)) (phones r)
                      ++ [new_phone])
                   (birthday r), Ok tt)).
  { unfold Record_edit_phone, Record_add_phone. rewrite Hv. reflexivity. }
  rewrite E. cbn [fst phones]. split; [reflexivity|]. split.
  - intros H. f_equal. apply filter_all. intros x Hx.
    apply negb_true_iff, str_eqb_neq. intros ->. contradiction.
  - intros ->. simpl. rewrite str_eqb_refl. reflexivity.
Qed.

Lemma edit_phone_valid_new_witness :
  phones (fst (Record_edit_phone
                 (mkRecord (lit "Ann") [lit "0000000000"] None)
                 (lit "0000000000") (lit "1111111111")))
  = [lit "1111111111"].
Proof.
  refine (proj2 (proj2 (edit_phone_valid_new
            (mkRecord (lit "Ann") [lit "0000000000"] None)
            (lit "0000000000") (lit "1111111111") _)) _); reflexivity.
Defined.

(** ** [AddressBook]: insertion, lookup and deletion *)

(** X3: [find] after [add_record] returns the record under its name and is
    unchanged for every other name; a record whose name is present replaces
    the former one in place, a new name goes to the end; the keys stay
    pairwise distinct. *)
Theorem add_record_find (book : AddressBook) (r : record) :
  AddressBook_find (AddressBook_add_record book r) (name r) = Some r
  /\ (forall nm, nm <> name r ->
        AddressBook_find (AddressBook_add_record book r) nm
        = AddressBook_find book nm)
  /\ dict_keys (AddressBook_add_record book r)
     = match AddressBook_find book (name r) with
       | Some _ => dict_keys book
       | None => dict_keys book ++ [name r]
       end
  /\ (distinct_keys book -> distinct_keys (AddressBook_add_record book r)).
Proof.
  unfold AddressBook_find, AddressBook_add_record. repeat split.
  - apply (dict_get_set_eq str_eqb str_eqb_eq).
  - intros nm N. apply (dict_get_set_ne str_eqb str_eqb_eq). congruence.
  - apply dict_keys_set.
  - apply distinct_keys_set.
Qed.

Lemma add_record_find_witness :
  let book := [(lit "Ann", mkRecord (lit "Ann") [] None)] in
  let r := mkRecord (lit "Bob") [lit "0123456789"] None in
  AddressBook_find (AddressBook_add_record book r) (lit "Ann")
  = AddressBook_find book (lit "Ann").
Proof.
  intros book r.
  refine (proj1 (proj2 (add_record_find book r)) (lit "Ann") _).
  vm_compute. discriminate.
Defined.

(** X4: in a book with distinct keys, [find] after [delete] finds nothing
    under the deleted name and is unchanged for every other name; the keys
    stay distinct; deleting an absent name changes nothing, deleting a
    present one removes one entry. *)
Theorem delete_find (book : AddressBook) (nm : str) :
  distinct_keys book ->
  AddressBook_find (AddressBook_delete book nm) nm = None
  /\ (forall k, k <> nm ->
        AddressBook_find (AddressBook_delete book nm) k
        = AddressBook_find book k)
  /\ distinct_keys (AddressBook_delete book nm)
  /\ (AddressBook_find book nm = None -> AddressBook_delete book nm = book)
  /\ (forall r, AddressBook_find book nm = Some r ->
        S (length (AddressBook_delete book nm)) = length book).
Proof.
  unfold AddressBook_find, AddressBook_delete, distinct_keys. intros ND.
  repeat split.
  - apply (dict_get_del_eq str_eqb str_eqb_eq). exact ND.
  - intros k N. apply (dict_get_del_ne str_eqb str_eqb_eq). congruence.
  - apply dict_del_NoDup. exact ND.
  - apply dict_del_absent.
  - intros r. apply dict_del_length.
Qed.

Lemma delete_find_witness :
  let book := [(lit "Ann", mkRecord (lit "Ann") [] None);
               (lit "Bob", mkRecord (lit "Bob") [] None)] in
  AddressBook_find (AddressBook_delete book (lit "Ann")) (lit "Ann") = None.
Proof.
  intros book. refine (proj1 (delete_find book (lit "Ann") _)).
  unfold distinct_keys. vm_compute.
  repeat constructor; simpl; intuition discriminate.
Defined.

(** ** The congratulation date, in full *)

Lemma shift_spec (d cd : date) :
  valid_date d ->
  (if weekday d =? 5 then date_add_days d 2
   else if weekday d =? 6 then date_add_days d 1 else Ok d) = Ok cd ->
  toordinal cd = toordinal d + weekend_shift d /\ 0 <= weekday cd <= 4.
Proof.
  intros V. unfold weekend_shift.
  assert (W : 0 <= weekday d < 7)
    by (unfold weekday; apply Z.mod_pos_bound; lia).
  destruct (Z.eqb_spec (weekday d) 5) as [E5|E5].
  - intros H. destruct (date_add_days_Ok _ _ _ H) as [Ho _].
    split; [exact Ho|]. unfold weekday in *. rewrite Ho.
    Z.div_mod_to_equations. lia.
  - destruct (Z.eqb_spec (weekday d) 6) as [E6|E6].
    + intros H. destruct (date_add_days_Ok _ _ _ H) as [Ho _].
      split; [exact Ho|]. unfold weekday in *. rewrite Ho.
      Z.div_mod_to_equations. lia.
    + intros H. injection H as <-. split; lia.
Qed.

Lemma congratulate_projected (today b cd : date) :
  valid_date today ->
  congratulate today b = Ok cd ->
  valid_date (projected today b)
  /\ date_ltb (projected today b) today = false
  /\ toordinal cd
     = toordinal (projected today b) + weekend_shift (projected today b)
  /\ 0 <= weekday cd <= 4
  /\ 0 <= date_sub_days cd today.
Proof.
  intros Vt. unfold congratulate, date_replace_year, projected.
  destruct (date_new (year today) (month b) (day b)) as [d1|e1] eqn:E1;
    cbn [bind]; [|discriminate].
  apply date_new_Ok in E1. destruct E1 as [-> V1].
  destruct (date_ltb (mkdate (year today) (month b) (day b)) today) eqn:L.
  - cbn [year month day].
    destruct (date_new (year today + 1) (month b) (day b)) as [d2|e2] eqn:E2;
      cbn [bind]; [|discriminate].
    apply date_new_Ok in E2. destruct E2 as [-> V2].
    intros H. destruct (shift_spec _ _ V2 H) as [Ho Hw].
    assert (T : date_ltb today (mkdate (year today + 1) (month b) (day b))
                = true).
    { unfold date_ltb. cbn [year month day].
      destruct (Z.ltb_spec (year today) (year today + 1)); [reflexivity|lia]. }
    pose proof (toordinal_lt _ _ Vt V2 T) as Hlt.
    assert (F : date_ltb (mkdate (year today + 1) (month b) (day b)) today
                = false).
    { unfold date_ltb. cbn [year month day].
      destruct (Z.ltb_spec (year today + 1) (year today)); [lia|].
      destruct (Z.eqb_spec (year today + 1) (year today)); [lia|].
      reflexivity. }
    assert (S : 0 <= weekend_shift (mkdate (year today + 1) (month b) (day b))).
    { unfold weekend_shift.
      destruct (_ =? 5); [lia|]. destruct (_ =? 6); lia. }
    split; [exact V2|]. split; [exact F|]. split; [exact Ho|].
    split; [exact Hw|]. unfold date_sub_days. lia.
  - cbn [bind]. intros H. destruct (shift_spec _ _ V1 H) as [Ho Hw].
    pose proof (toordinal_le _ _ V1 Vt L) as Hle.
    assert (S : 0 <= weekend_shift (mkdate (year today) (month b) (day b))).
    { unfold weekend_shift.
      destruct (_ =? 5); [lia|]. destruct (_ =? 6); lia. }
    split; [exact V1|]. split; [exact L|]. split; [exact Ho|].
    split; [exact Hw|]. unfold date_sub_days. lia.
Qed.

(** X5: when [congratulate] returns, the birthday was projected onto its
    next occurrence on or after today (this year, or next year when this
    year's occurrence is over), and the observed date is the calendar date
    two days after that date when it is a Saturday, one day after it when
    it is a Sunday, and that date itself otherwise: it is a date, the only
    one at that distance, never earlier than today and never on a
    weekend. *)
Theorem congratulate_spec (today b cd : date) :
  valid_date today ->
  congratulate today b = Ok cd ->
  valid_date (projected today b)
  /\ date_ltb (projected today b) today = false
  /\ toordinal cd
     = toordinal (projected today b) + weekend_shift (projected today b)
  /\ 0 <= weekday cd <= 4
  /\ 0 <= date_sub_days cd today
  /\ valid_date cd
  /\ cd = ord2ymd (toordinal (projected today b)
                   + weekend_shift (projected today b))
  /\ (forall d,
        valid_date d ->
        toordinal d
        = toordinal (projected today b) + weekend_shift (projected today b) ->
        d = cd)
  /\ (weekend_shift (projected today b) = 0 -> cd = projected today b).
Proof.
  intros Vt Hc.
  destruct (congratulate_projected today b cd Vt Hc)
    as (Vp & Hl & Ho & Hw & Hs).
  destruct (congratulate_Ok today b cd Vt Hc) as [_ Vc].
  split; [exact Vp|]. split; [exact Hl|]. split; [exact Ho|].
  split; [exact Hw|]. split; [exact Hs|]. split; [exact Vc|].
  split; [|split].
  - rewrite <- Ho. symmetry. apply ord2ymd_toordinal. exact Vc.
  - intros d Vd Hd. apply toordinal_inj; [exact Vd | exact Vc | lia].
  - intros Z0. apply toordinal_inj; [exact Vc | exact Vp | lia].
Qed.

Lemma congratulate_spec_witness :
  mkdate 2024 9 2
  = ord2ymd (toordinal (projected (mkdate 2024 8 25) (mkdate 1990 8 31))
             + weekend_shift (projected (mkdate 2024 8 25) (mkdate 1990 8 31)))
  /\ forall d,
       valid_date d ->
       toordinal d
       = toordinal (projected (mkdate 2024 8 25) (mkdate 1990 8 31))
         + weekend_shift (projected (mkdate 2024 8 25) (mkdate 1990 8 31)) ->
       d = mkdate 2024 9 2.
Proof.
  refine ((fun H =>
             conj (proj1 (proj2 (proj2 (proj2 (proj2 (proj2 (proj2 H)))))))
               (proj1 (proj2 (proj2 (proj2 (proj2 (proj2 (proj2 (proj2 H)))))))))
            (congratulate_spec (mkdate 2024 8 25)
              (mkdate 1990 8 31) (mkdate 2024 9 2) _ _)).
  - unfold valid_date. vm_compute. intuition discriminate.
  - reflexivity.
Defined.

(** ** The entries of the result *)

(** X6: every entry of a result names a record of the directory that has a
    birthday, carries the observed date of that birthday and the number of
    days from today to it, which lies between 0 and 7, and its observed
    date is a day from Monday to Friday. *)
Theorem upcoming_entries (today : date) (book : AddressBook)
    (l : list upcoming) (e : upcoming) :
  valid_date today ->
  get_upcoming_birthdays today book = Ok l ->
  In e l ->
  0 <= up_days_until_birthday e <= 7
  /\ up_days_until_birthday e
     = date_sub_days (up_congratulation_date e) today
  /\ 0 <= weekday (up_congratulation_date e) <= 4
  /\ exists r b,
       In r (dict_values book) /\ birthday r = Some b /\
       name r = up_name e /\
       congratulate today b = Ok (up_congratulation_date e).
Proof.
  intros Vt Hl He. destruct e as [nm cd days].
  apply (get_upcoming_birthdays_In _ _ _ Hl) in He.
  destruct He as (r & b & Hr & Hb & Hn & Hc & Hd & Hle).
  destruct (congratulate_Ok today b cd Vt Hc) as [Hord _].
  cbn [up_name up_congratulation_date up_days_until_birthday].
  assert (W : 0 <= weekday cd <= 4).
  { revert Hc. unfold congratulate, date_replace_year.
    destruct (date_new (year today) (month b) (day b)) as [d1|e1] eqn:E1;
      cbn [bind]; [|discriminate].
    apply date_new_Ok in E1. destruct E1 as [-> V1].
    destruct (date_ltb _ today).
    - cbn [year month day].
      destruct (date_new (year today + 1) (month b) (day b))
        as [d2|e2] eqn:E2; cbn [bind]; [|discriminate].
      apply date_new_Ok in E2. destruct E2 as [-> V2].
      intros H. exact (proj2 (shift_spec _ _ V2 H)).
    - cbn [bind]. intros H. exact (proj2 (shift_spec _ _ V1 H)). }
  split; [subst days; unfold date_sub_days in *; lia|].
  split; [exact Hd|]. split; [exact W|].
  exists r, b. auto.
Qed.

Lemma upcoming_entries_witness :
  0 <= 3 <= 7
  /\ 3 = date_sub_days (mkdate 2024 5 20) (mkdate 2024 5 17)
  /\ 0 <= weekday (mkdate 2024 5 20) <= 4
  /\ exists r b,
       In r (dict_values
               [(lit "Ann",
                 mkRecord (lit "Ann") [] (Some (mkdate 1990 5 18)))]) /\
       birthday r = Some b /\ name r = lit "Ann" /\
       congratulate (mkdate 2024 5 17) b = Ok (mkdate 2024 5 20).
Proof.
  refine (upcoming_entries (mkdate 2024 5 17)
            [(lit "Ann", mkRecord (lit "Ann") [] (Some (mkdate 1990 5 18)))]
            [mkUpcoming (lit "Ann") (mkdate 2024 5 20) 3]
            (mkUpcoming (lit "Ann") (mkdate 2024 5 20) 3) _ _ _).
  - unfold valid_date. vm_compute. intuition discriminate.
  - reflexivity.
  - left. reflexivity.
Defined.

(** ** When the scan fails *)

Lemma is_leap_next (y : Z) : is_leap y = true -> is_leap (y + 1) = false.
Proof.
  unfold is_leap. rewrite andb_true_iff, Z.eqb_eq. intros [H4 _].
  destruct (Z.eqb_spec ((y + 1) mod 4) 0) as [E|E]; [|reflexivity].
  exfalso. Z.div_mod_to_equations. lia.
Qed.

Lemma congratulate_outcome (today b : date) :
  valid_date today -> year today < MAXYEAR -> valid_date b ->
  if leap_day_fails today b
  then congratulate today b = Raise day_out_of_range
  else exists cd, congratulate today b = Ok cd.
Proof.
  intros Vt Hmax Vb. unfold leap_day_fails.
  destruct (leap_day b) eqn:Lb; cbn [andb];
    [|apply congratulate_total; assumption].
  unfold leap_day in Lb. rewrite andb_true_iff, !Z.eqb_eq in Lb.
  destruct Lb as [Hm Hd].
  destruct (is_leap (year today)) eqn:Ly; cbn [negb orb].
  - assert (V1 : valid_date (mkdate (year today) 2 29)).
    { destruct Vt as (Hy & _). unfold valid_date. cbn [year month day].
      unfold days_in_month. rewrite Ly. cbn. lia. }
    unfold congratulate, date_replace_year. rewrite Hm, Hd.
    rewrite (proj2 (date_new_Ok _ _ _ (mkdate (year today) 2 29)))
      by (split; [reflexivity | exact V1]).
    cbn [bind]. destruct (date_ltb (mkdate (year today) 2 29) today).
    + cbn [year month day]. unfold date_new, days_in_month.
      rewrite (is_leap_next _ Ly).
      destruct Vt as (Hy & _). unfold MINYEAR, MAXYEAR in *.
      destruct (Z.ltb_spec (year today + 1) 1); [lia|].
      destruct (Z.ltb_spec 9999 (year today + 1)); [lia|].
      reflexivity.
    + cbn [bind]. destruct (shift_Ok _ V1) as (cd & -> & _). eauto.
  - apply congratulate_leap_day; assumption.
Qed.

Lemma selected_Raise (today : date) (records : list record) (e : exn) :
  selected today records = Raise e ->
  exists r b,
    In r records /\ birthday r = Some b /\ congratulate today b = Raise e.
Proof.
  induction records as [|r rs IH]; cbn [selected]; [discriminate|].
  destruct (observed today r) as [o|e1] eqn:O; cbn [bind].
  - destruct (selected today rs) as [sel|e2]; cbn [bind]; [discriminate|].
    intros H. injection H as ->.
    destruct (IH eq_refl) as (r' & b & Hr & Hb). exists r', b.
    split; [right; exact Hr | exact Hb].
  - intros H. injection H as ->. revert O. unfold observed.
    destruct (birthday r) as [b|] eqn:Hb; [|discriminate].
    destruct (congratulate today b) as [cd|e2] eqn:C; cbn [bind];
      [discriminate|].
    intros H. injection H as ->. exists r, b.
    split; [left; reflexivity | auto].
Qed.

(** X7: for a date before the year 9999 and a directory whose birthdays are
    dates, the call fails exactly when some birthday is a 29 February that
    cannot be projected: this year is not a leap year, or this year's
    29 February is over. It then raises the error of the date constructor;
    otherwise it returns. *)
Theorem get_upcoming_birthdays_outcome (today : date) (book : AddressBook) :
  valid_date today -> year today < MAXYEAR -> birthdays_valid book ->
  ((exists r b, In r (dict_values book) /\ birthday r = Some b /\
                leap_day_fails today b = true) ->
   get_upcoming_birthdays today book = Raise day_out_of_range)
  /\ ((forall r b, In r (dict_values book) -> birthday r = Some b ->
                   leap_day_fails today b = false) ->
      exists l, get_upcoming_birthdays today book = Ok l).
Proof.
  intros Vt Hmax Vb. split.
  - intros (r & b & Hr & Hb & Hf).
    rewrite get_upcoming_birthdays_selected.
    destruct (selected today (dict_values book)) as [sel|e] eqn:S;
      cbn [bind].
    + exfalso.
      destruct (proj1 (selected_Ok today (dict_values book))
                  (ex_intro _ sel S) r b Hr Hb) as (cd & Hc).
      pose proof (congratulate_outcome today b Vt Hmax (Vb r b Hr Hb)) as O.
      rewrite Hf in O. congruence.
    + destruct (selected_Raise _ _ _ S) as (r' & b' & Hr' & Hb' & Hc).
      pose proof (congratulate_outcome today b' Vt Hmax (Vb r' b' Hr' Hb'))
        as O.
      destruct (leap_day_fails today b').
      * congruence.
      * destruct O as (cd & O). congruence.
  - intros Hall. apply get_upcoming_birthdays_Ok. intros r b Hr Hb.
    pose proof (congratulate_outcome today b Vt Hmax (Vb r b Hr Hb)) as O.
    rewrite (Hall r b Hr Hb) in O. exact O.
Qed.

Lemma get_upcoming_birthdays_outcome_witness :
  get_upcoming_birthdays (mkdate 2024 3 1)
    [(lit "Ann", mkRecord (lit "Ann") [] (Some (mkdate 2020 2 29)))]
  = Raise day_out_of_range.
Proof.
  refine (proj1 (get_upcoming_birthdays_outcome (mkdate 2024 3 1)
            [(lit "Ann", mkRecord (lit "Ann") [] (Some (mkdate 2020 2 29)))]
            _ _ _) _).
  - unfold valid_date. vm_compute. intuition discriminate.
  - reflexivity.
  - intros r b [<-|[]] Hb. injection Hb as <-.
    unfold valid_date. vm_compute. intuition discriminate.
  - exists (mkRecord (lit "Ann") [] (Some (mkdate 2020 2 29))),
      (mkdate 2020 2 29).
    split; [left; reflexivity|]. split; reflexivity.
Defined.

(** ** The result as a rearrangement of the selection *)

Lemma filter_split_perm {A : Type} (f : A -> bool) (l : list A) :
  Permutation (filter f l ++ filter (fun x => negb (f x)) l) l.
Proof.
  induction l as [|x l IH]; simpl; [constructor|].
  destruct (f x); simpl.
  - constructor. exact IH.
  - apply Permutation_sym, Permutation_cons_app, Permutation_sym. exact IH.
Qed.

Lemma flat_map_ext_In {A B : Type} (f g : A -> list B) (l : list A) :
  (forall x, In x l -> f x = g x) -> flat_map f l = flat_map g l.
Proof.
  induction l as [|x l IH]; simpl; [reflexivity|].
  intros H. rewrite (H x) by auto. rewrite IH by auto. reflexivity.
Qed.

Lemma map_flat_map {A B C : Type} (f : B -> C) (g : A -> list B)
    (l : list A) :
  map f (flat_map g l) = flat_map (fun x => map f (g x)) l.
Proof.
  induction l as [|x l IH]; simpl; [reflexivity|].
  rewrite map_app, IH. reflexivity.
Qed.

Lemma by_date_perm (keys : list date) :
  NoDup keys ->
  forall sel : list (str * date),
    (forall p, In p sel -> In (snd p) keys) ->
    Permutation (flat_map (fun d => filter (on_date d) sel) keys) sel.
Proof.
  induction 1 as [|d ks Hd ND IH]; intros sel Hall; simpl.
  - destruct sel as [|p sel]; [constructor|].
    destruct (Hall p (or_introl eq_refl)).
  - set (rest := filter (fun p => negb (on_date d p)) sel).
    assert (E : flat_map (fun d' => filter (on_date d') sel) ks
                = flat_map (fun d' => filter (on_date d') rest) ks).
    { apply flat_map_ext_In. intros d' Hd'. unfold rest.
      induction sel as [|p sel IHs]; simpl; [reflexivity|].
      assert (IHs' : filter (on_date d') sel
                     = filter (on_date d')
                         (filter (fun p => negb (on_date d p)) sel)).
      { apply IHs. intros q Hq. apply Hall. right. exact Hq. }
      destruct (on_date d' p) eqn:O'.
      - assert (O : on_date d p = false).
        { unfold on_date in *. apply date_eqb_eq in O'.
          apply date_eqb_neq. intros E. apply Hd. congruence. }
        rewrite O. simpl. rewrite O'. f_equal. exact IHs'.
      - destruct (on_date d p); simpl; [|rewrite O']; exact IHs'. }
    rewrite E.
    eapply Permutation_trans; [|apply (filter_split_perm (on_date d))].
    apply Permutation_app_head. apply IH.
    intros p Hp. unfold rest in Hp. apply filter_In in Hp.
    destruct Hp as [Hp Hn]. destruct (Hall p Hp) as [Heq|Hin]; [|exact Hin].
    unfold on_date in Hn. rewrite <- Heq, date_eqb_refl in Hn.
    discriminate Hn.
Qed.

Lemma grouped_perm (today : date) (sel : list (str * date)) :
  Permutation (grouped today sel) (map (entry_of today) sel).
Proof.
  unfold grouped.
  rewrite (flat_map_ext_In _
             (fun d => map (entry_of today) (filter (on_date d) sel))).
  - rewrite <- map_flat_map. apply Permutation_map, by_date_perm.
    + apply distinct_dates_NoDup.
    + intros p Hp. apply distinct_dates_In, in_map. exact Hp.
  - intros d _. apply map_ext_in. intros p Hp. apply filter_In in Hp.
    destruct Hp as [_ Hon]. unfold on_date in Hon.
    apply date_eqb_eq in Hon. unfold entry_of. rewrite Hon. reflexivity.
Qed.

Lemma selected_names (today : date) (records : list record) :
  forall sel, selected today records = Ok sel ->
  (length sel <= length records)%nat
  /\ (forall nm, In nm (map fst sel) -> In nm (map name records))
  /\ (NoDup (map name records) -> NoDup (map fst sel)).
Proof.
  induction records as [|r rs IH]; intros sel; cbn [selected].
  - intros H. injection H as <-. simpl. repeat split; auto.
  - destruct (observed today r) as [o|e] eqn:O; cbn [bind]; [|discriminate].
    destruct (selected today rs) as [sel'|e]; cbn [bind]; [|discriminate].
    intros H. injection H as <-.
    destruct (IH sel' eq_refl) as (L & I & N).
    assert (Ho : forall p, o = Some p -> fst p = name r).
    { intros p ->. revert O. unfold observed.
      destruct (birthday r); [|discriminate].
      destruct (congratulate today d); cbn [bind]; [|discriminate].
      destruct (_ <=? 7); intros H; [|discriminate H].
      inversion H. reflexivity. }
    destruct o as [p|]; simpl.
    + rewrite (Ho p eq_refl). split; [lia|]. split.
      * intros nm [H|H]; [left; exact H | right; apply I; exact H].
      * intros ND. inversion ND as [|? ? Hx ND']; subst.
        constructor; [|apply N; exact ND'].
        intros H. apply Hx, I. exact H.
    + split; [lia|]. split.
      * intros nm H. right. apply I. exact H.
      * intros ND. inversion ND; subst. apply N. assumption.
Qed.

(** X8: a result is a rearrangement of the contacts that the scan selects:
    each record whose observed date lies within the window gives exactly
    one entry. So there are at most as many entries as records, and when
    the records have distinct names no name comes twice. *)
Theorem upcoming_permutation (today : date) (book : AddressBook)
    (l : list upcoming) :
  get_upcoming_birthdays today book = Ok l ->
  exists sel,
    selected today (dict_values book) = Ok sel
    /\ Permutation l (map (entry_of today) sel)
    /\ (length l <= length book)%nat
    /\ (NoDup (map name (dict_values book)) -> NoDup (map up_name l)).
Proof.
  rewrite get_upcoming_birthdays_selected.
  destruct (selected today (dict_values book)) as [sel|e] eqn:S;
    cbn [bind]; [|discriminate].
  intros H. injection H as <-. exists sel. split; [reflexivity|].
  pose proof (grouped_perm today sel) as P.
  destruct (selected_names _ _ _ S) as (L & _ & N).
  split; [exact P|]. split.
  - rewrite (Permutation_length P), length_map.
    unfold dict_values in L. rewrite length_map in L. exact L.
  - intros ND.
    apply (Permutation_NoDup
             (l := map up_name (map (entry_of today) sel))).
    + apply Permutation_sym, Permutation_map. exact P.
    + rewrite map_map. cbn [entry_of up_name].
      rewrite (map_ext _ fst) by reflexivity. apply N. exact ND.
Qed.

Lemma upcoming_permutation_witness :
  exists sel,
    selected (mkdate 2024 5 13)
      (dict_values
         [(lit "Ann", mkRecord (lit "Ann") [] (Some (mkdate 1990 5 17)));
          (lit "Bob", mkRecord (lit "Bob") [] (Some (mkdate 1991 5 14)));
          (lit "Cid", mkRecord (lit "Cid") [] (Some (mkdate 1992 5 17)))])
    = Ok sel
    /\ Permutation
         [mkUpcoming (lit "Ann") (mkdate 2024 5 17) 4;
          mkUpcoming (lit "Cid") (mkdate 2024 5 17) 4;
          mkUpcoming (lit "Bob") (mkdate 2024 5 14) 1]
         (map (entry_of (mkdate 2024 5 13)) sel)
    /\ (3 <= 3)%nat
    /\ (NoDup
          (map name
             (dict_values
                [(lit "Ann",
                  mkRecord (lit "Ann") [] (Some (mkdate 1990 5 17)));
                 (lit "Bob",
                  mkRecord (lit "Bob") [] (Some (mkdate 1991 5 14)));
                 (lit "Cid",
                  mkRecord (lit "Cid") [] (Some (mkdate 1992 5 17)))])) ->
        NoDup (map up_name
                 [mkUpcoming (lit "Ann") (mkdate 2024 5 17) 4;
                  mkUpcoming (lit "Cid") (mkdate 2024 5 17) 4;
                  mkUpcoming (lit "Bob") (mkdate 2024 5 14) 1])).
Proof.
  refine (upcoming_permutation (mkdate 2024 5 13)
            [(lit "Ann", mkRecord (lit "Ann") [] (Some (mkdate 1990 5 17)));
             (lit "Bob", mkRecord (lit "Bob") [] (Some (mkdate 1991 5 14)));
             (lit "Cid", mkRecord (lit "Cid") [] (Some (mkdate 1992 5 17)))]
            _ _).
  reflexivity.
Defined.

(** ** The handlers, case by case *)

Lemma add_phones_stop (good rest : list str) (bad : str) :
  valid_phones good -> Phone_validate bad <> Ok tt ->
  forall r,
    add_phones r (good ++ bad :: rest)
    = (mkRecord (name r) (phones r ++ good) (birthday r), Raise InvalidPhone).
Proof.
  intros Hg Hb. induction Hg as [|p l Hp Hl IH]; intros r; simpl.
  - unfold Record_add_phone.
    destruct (Phone_validate_cases bad) as [E|E]; [contradiction|].
    rewrite E, app_nil_r. destruct r; reflexivity.
  - unfold Record_add_phone at 1. rewrite Hp. rewrite IH. simpl.
    rewrite <- app_assoc. reflexivity.
Qed.

(** X9: when one of the phones given to [add_contact] is invalid, the
    handler returns the phone error, but what it did before stays: a new
    contact has been created, and the phones in front of the invalid one
    have been added; the phones after it are not looked at. *)
Theorem add_contact_invalid_phone (book : AddressBook) (nm : str)
    (good rest : list str) (bad : str) :
  valid_phones good ->
  Phone_validate bad <> Ok tt ->
  (AddressBook_find book nm = None ->
   add_contact book (nm :: good ++ bad :: rest)
   = (book ++ [(nm, mkRecord nm good None)],
      lit "Phone number must contain 10 digits."))
  /\ (forall r, AddressBook_find book nm = Some r ->
      add_contact book (nm :: good ++ bad :: rest)
      = (dict_set str_eqb book nm
           (mkRecord (name r) (phones r ++ good) (birthday r)),
         lit "Phone number must contain 10 digits.")).
Proof.
  intros Hg Hb. split.
  - intros Hnone. assert (Hnone' : dict_get str_eqb book nm = None)
      by exact Hnone.
    unfold add_contact, input_error.
    rewrite add_contact_body_set. cbv beta iota. rewrite Hnone.
    unfold AddressBook_add_record, Record_init. cbn [name].
    rewrite (add_phones_stop good rest bad Hg Hb). cbn [name phones birthday].
    rewrite (dict_set_absent str_eqb book nm _ Hnone').
    rewrite (dict_set_last str_eqb str_eqb_eq book nm _ _ Hnone').
    reflexivity.
  - intros r Hfind.
    unfold add_contact, input_error.
    rewrite add_contact_body_set. cbv beta iota. rewrite Hfind.
    rewrite (add_phones_stop good rest bad Hg Hb). reflexivity.
Qed.

Lemma add_contact_invalid_phone_witness :
  add_contact [] [lit "Ann"; lit "0123456789"; lit "12ab"; lit "9876543210"]
  = ([(lit "Ann", mkRecord (lit "Ann") [lit "0123456789"] None)],
     lit "Phone number must contain 10 digits.").
Proof.
  refine (proj1 (add_contact_invalid_phone [] (lit "Ann") [lit "0123456789"]
                   [lit "9876543210"] (lit "12ab") _ _) _).
  - repeat constructor.
  - vm_compute. discriminate.
  - reflexivity.
Defined.

(** X10: [change_contact] on a name that is not in the directory returns
    "Contact not found." and changes nothing. On a contact that is there it
    stores the edited record under the same name and leaves the other
    contacts as they are: with a valid new phone it returns
    "Contact updated."; with an invalid one it returns the phone error, and
    the old phone is gone from the directory all the same. *)
Theorem change_contact_outcomes (book : AddressBook)
    (nm old_phone new_phone : str) :
  let book' := fst (change_contact book [nm; old_phone; new_phone]) in
  let message := snd (change_contact book [nm; old_phone; new_phone]) in
  (AddressBook_find book nm = None ->
   book' = book /\ message = ContactNotFound)
  /\ (forall r, AddressBook_find book nm = Some r ->
      (Phone_validate new_phone = Ok tt ->
       message = lit "Contact updated."
       /\ AddressBook_find book' nm
          = Some (mkRecord (name r)
                    (filter (fun p => negb (str_eqb p old_phone)) (phones r)
                       ++ [new_phone])
                    (birthday r)))
      /\ (Phone_validate new_phone <> Ok tt ->
          message = lit "Phone number must contain 10 digits."
          /\ AddressBook_find book' nm = Some (Record_remove_phone r old_phone))
      /\ (forall k, k <> nm ->
            AddressBook_find book' k = AddressBook_find book k)
      /\ dict_keys book' = dict_keys book).
Proof.
  intros book' message. split.
  - intros Hnone. unfold book', message, change_contact, input_error.
    rewrite change_contact_body_set. cbv beta iota.
    rewrite Hnone. split; reflexivity.
  - intros r Hfind.
    assert (E : change_contact book [nm; old_phone; new_phone]
                = (dict_set str_eqb book nm
                     (fst (Record_edit_phone r old_phone new_phone)),
                   handle (_ <- snd (Record_edit_phone r old_phone new_phone) ;;
                           Ok (lit "Contact updated.")))).
    { unfold change_contact, input_error.
    rewrite change_contact_body_set. cbv beta iota.
      rewrite Hfind. destruct (Record_edit_phone r old_phone new_phone).
      reflexivity. }
    unfold book', message. rewrite E. cbn [fst snd].
    unfold AddressBook_find. rewrite (dict_get_set_eq str_eqb str_eqb_eq).
    split; [|split; [|split]].
    + intros Hv. unfold Record_edit_phone, Record_add_phone. rewrite Hv.
      split; reflexivity.
    + intros Hv. unfold Record_edit_phone, Record_add_phone.
      destruct (Phone_validate_cases new_phone) as [V|V]; [contradiction|].
      rewrite V. split; reflexivity.
    + intros k N. apply (dict_get_set_ne str_eqb str_eqb_eq). congruence.
    + rewrite dict_keys_set.
      unfold AddressBook_find in Hfind. rewrite Hfind. reflexivity.
Qed.

Lemma change_contact_outcomes_witness :
  let book := [(lit "Ann", mkRecord (lit "Ann") [lit "0000000000"] None)] in
  snd (change_contact book [lit "Ann"; lit "0000000000"; lit "12ab"])
  = lit "Phone number must contain 10 digits."
  /\ AddressBook_find
       (fst (change_contact book [lit "Ann"; lit "0000000000"; lit "12ab"]))
       (lit "Ann")
     = Some (Record_remove_phone
               (mkRecord (lit "Ann") [lit "0000000000"] None)
               (lit "0000000000")).
Proof.
  intros book.
  refine (proj1 (proj2 (proj2 (change_contact_outcomes book (lit "Ann")
                                 (lit "0000000000") (lit "12ab"))
                          (mkRecord (lit "Ann") [lit "0000000000"] None) _))
            _).
  - reflexivity.
  - vm_compute. discriminate.
Defined.

(** X11: [add_birthday] on a contact of the directory with a text that
    [Birthday] accepts returns "Birthday added." and stores the date in
    place of any former birthday, leaving name and phones; [show_birthday]
    then shows that date. *)
Theorem add_birthday_then_show (normalize_century : bool)
    (book : AddressBook) (nm text : str) (r : record) (d : date) :
  AddressBook_find book nm = Some r ->
  Birthday_init text = Ok d ->
  let book' := dict_set str_eqb book nm
                 (mkRecord (name r) (phones r) (Some d)) in
  add_birthday book [nm; text] = (book', lit "Birthday added.")
  /\ show_birthday normalize_century book' [nm]
     = (book', nm ++ lit "'s birthday is " ++ Birthday_str normalize_century d)
  /\ dict_keys book' = dict_keys book.
Proof.
  intros Hfind Hinit book'. split; [|split].
  - unfold add_birthday, input_error.
    rewrite add_birthday_body_set. cbv beta iota.
    rewrite Hfind. unfold Record_add_birthday. rewrite Hinit. reflexivity.
  - unfold show_birthday, input_error, show_birthday_body, AddressBook_find.
    unfold book'. rewrite (dict_get_set_eq str_eqb str_eqb_eq).
    reflexivity.
  - unfold book'. rewrite dict_keys_set.
    unfold AddressBook_find in Hfind. rewrite Hfind. reflexivity.
Qed.

Lemma add_birthday_then_show_witness :
  let book := [(lit "Ann", mkRecord (lit "Ann") [] None)] in
  let book' := [(lit "Ann",
                 mkRecord (lit "Ann") [] (Some (mkdate 1990 5 17)))] in
  add_birthday book [lit "Ann"; lit "1990.05.17"]
  = (book', lit "Birthday added.")
  /\ show_birthday false book' [lit "Ann"]
     = (book', lit "Ann's birthday is 1990.05.17")
  /\ dict_keys book' = dict_keys book.
Proof.
  intros book book'.
  refine (add_birthday_then_show false book (lit "Ann") (lit "1990.05.17")
            (mkRecord (lit "Ann") [] None) (mkdate 1990 5 17) _ _);
    reflexivity.
Defined.

(** X12: [add_birthday] with a text that [Birthday] rejects returns
    "Invalid date format. Use YYYY.MM.DD" and leaves the directory as it
    was, a former birthday included; for a name that is not in the
    directory it returns "Contact not found." whatever the text. *)
Theorem add_birthday_rejected (book : AddressBook) (nm text : str) :
  (forall r e, AddressBook_find book nm = Some r ->
     Birthday_init text = Raise e ->
     add_birthday book [nm; text]
     = (book, lit "Invalid date format. Use YYYY.MM.DD"))
  /\ (AddressBook_find book nm = None ->
      add_birthday book [nm; text] = (book, ContactNotFound)).
Proof.
  split.
  - intros r e Hfind Hinit.
    unfold add_birthday, input_error.
    rewrite add_birthday_body_set. cbv beta iota.
    rewrite Hfind. unfold Record_add_birthday. rewrite Hinit.
    rewrite (dict_set_same str_eqb book nm r Hfind).
    revert Hinit. unfold Birthday_init.
    destruct (strptime_Ymd text); [discriminate|].
    intros H. injection H as <-. reflexivity.
  - intros Hnone. unfold add_birthday, input_error.
    rewrite add_birthday_body_set. cbv beta iota.
    rewrite Hnone. reflexivity.
Qed.

Lemma add_birthday_rejected_witness :
  let book := [(lit "Ann",
                mkRecord (lit "Ann") [] (Some (mkdate 1990 5 17)))] in
  add_birthday book [lit "Ann"; lit "1991.04.31"]
  = (book, lit "Invalid date format. Use YYYY.MM.DD").
Proof.
  intros book.
  refine (proj1 (add_birthday_rejected book (lit "Ann") (lit "1991.04.31"))
            (mkRecord (lit "Ann") [] (Some (mkdate 1990 5 17)))
            InvalidDateFormat _ _); reflexivity.
Defined.

Lemma showing_keeps_the_book_aux (normalize_century : bool) (today : date)
    (book : AddressBook) (args : list str) :
  fst (show_phone_body normalize_century book args) = book
  /\ fst (show_all_body normalize_century book args) = book
  /\ fst (show_birthday_body normalize_century book args) = book
  /\ fst (birthdays_body normalize_century today book args) = book.
Proof.
  repeat split.
  - unfold show_phone_body. destruct args as [|a [|? ?]]; try reflexivity.
    destruct (AddressBook_find book a); reflexivity.
  - unfold show_all_body. destruct args; [|reflexivity].
    destruct book; reflexivity.
  - unfold show_birthday_body. destruct args as [|a [|? ?]]; try reflexivity.
    destruct (AddressBook_find book a) as [r|]; [|reflexivity].
    destruct (birthday r); reflexivity.
  - unfold birthdays_body. destruct args; reflexivity.
Qed.

Lemma input_error_fst
    (func : AddressBook -> list str -> AddressBook * result str)
    (book : AddressBook) (args : list str) :
  fst (input_error func book args) = fst (func book args).
Proof. unfold input_error. destruct (func book args). reflexivity. Qed.

(** X13: the handlers that show something never change the directory,
    whatever their arguments: [show_phone], [show_all], [show_birthday] and
    [birthdays] return the address book they were given. *)
Theorem showing_keeps_the_book (normalize_century : bool) (today : date)
    (book : AddressBook) (args : list str) :
  fst (show_phone normalize_century book args) = book
  /\ fst (show_all normalize_century book args) = book
  /\ fst (show_birthday normalize_century book args) = book
  /\ fst (birthdays normalize_century today book args) = book.
Proof.
  unfold show_phone, show_all, show_birthday, birthdays.
  rewrite !input_error_fst.
  apply showing_keeps_the_book_aux.
Qed.

(** X14: no handler removes a contact or changes the order of the
    contacts: after a call the keys of the directory are the former keys,
    followed by at most one new key. *)
Theorem handlers_only_append_keys (normalize_century : bool) (today : date)
    (body : AddressBook -> list str -> AddressBook * result str)
    (book : AddressBook) (args : list str) :
  In body (handler_bodies normalize_century today) ->
  exists new_keys,
    dict_keys (fst (body book args)) = dict_keys book ++ new_keys
    /\ (length new_keys <= 1)%nat.
Proof.
  assert (Same : forall b, b = book ->
            exists new_keys,
              dict_keys b = dict_keys book ++ new_keys
              /\ (length new_keys <= 1)%nat).
  { intros b ->. exists []. rewrite app_nil_r. auto. }
  assert (Set1 : forall k r r0, dict_get str_eqb book k = Some r0 ->
            exists new_keys,
              dict_keys (dict_set str_eqb book k r)
              = dict_keys book ++ new_keys
              /\ (length new_keys <= 1)%nat).
  { intros k r r0 H. exists []. rewrite dict_keys_set, H, app_nil_r. auto. }
  unfold handler_bodies. simpl.
  intros [<-|[<-|[<-|[<-|[<-|[<-|[<-|[]]]]]]]].
  - rewrite add_contact_body_set. cbv beta iota. destruct args as [|nm ps]; [apply Same; reflexivity|].
    unfold AddressBook_find, AddressBook_add_record.
    destruct (dict_get str_eqb book nm) as [r|] eqn:F.
    + destruct (add_phones r ps) as [r' o]. cbn [fst]. exact (Set1 _ _ _ F).
    + destruct (add_phones (Record_init nm) ps) as [r' o]. cbn [fst].
      exists [nm]. cbn [name Record_init].
      rewrite (dict_set_absent str_eqb book nm _ F).
      rewrite (dict_set_last str_eqb str_eqb_eq book nm _ _ F).
      rewrite dict_keys_last. auto.
  - rewrite change_contact_body_set. cbv beta iota.
    destruct args as [|a [|o [|n [|? ?]]]]; try (apply Same; reflexivity).
    unfold AddressBook_find.
    destruct (dict_get str_eqb book a) as [r|] eqn:F;
      [|apply Same; reflexivity].
    destruct (Record_edit_phone r o n). cbn [fst]. exact (Set1 _ _ _ F).
  - apply Same.
    exact (proj1 (showing_keeps_the_book_aux normalize_century today book args)).
  - apply Same.
    exact (proj1 (proj2 (showing_keeps_the_book_aux normalize_century today
                           book args))).
  - rewrite add_birthday_body_set. cbv beta iota.
    destruct args as [|a [|t [|? ?]]]; try (apply Same; reflexivity).
    unfold AddressBook_find.
    destruct (dict_get str_eqb book a) as [r|] eqn:F;
      [|apply Same; reflexivity].
    destruct (Record_add_birthday r t). cbn [fst]. exact (Set1 _ _ _ F).
  - apply Same.
    exact (proj1 (proj2 (proj2 (showing_keeps_the_book_aux normalize_century
                                  today book args)))).
  - apply Same.
    exact (proj2 (proj2 (proj2 (showing_keeps_the_book_aux normalize_century
                                  today book args)))).
Qed.

Lemma handlers_only_append_keys_witness :
  exists new_keys,
    dict_keys (fst (add_contact_body
                      [(lit "Ann", mkRecord (lit "Ann") [] None)]
                      [lit "Bob"; lit "12ab"]))
    = dict_keys [(lit "Ann", mkRecord (lit "Ann") [] None)] ++ new_keys
    /\ (length new_keys <= 1)%nat.
Proof.
  refine (handlers_only_append_keys false (mkdate 2024 5 17) add_contact_body
            [(lit "Ann", mkRecord (lit "Ann") [] None)]
            [lit "Bob"; lit "12ab"] _).
  left. reflexivity.
Defined.

(** ** Every address book that the handlers build is well formed *)

Lemma dict_set_In (book : AddressBook) (k k' : str) (r r' : record) :
  In (k', r') (dict_set str_eqb book k r) ->
  (k' = k /\ r' = r) \/ In (k', r') book.
Proof.
  induction book as [|[k0 r0] book IH]; simpl.
  - intros [H|[]]. injection H as <- <-. auto.
  - destruct (str_eqb k0 k) eqn:E; simpl.
    + apply str_eqb_eq in E. subst k0.
      intros [H|H]; [injection H as <- <-|]; auto.
    + intros [H|H]; [auto|]. destruct (IH H); auto.
Qed.

Lemma dict_get_In_pair (book : AddressBook) (k : str) (r : record) :
  dict_get str_eqb book k = Some r -> In (k, r) book.
Proof.
  induction book as [|[k0 r0] book IH]; simpl; [discriminate|].
  destruct (str_eqb k0 k) eqn:E.
  - apply str_eqb_eq in E. subst k0. intros H. injection H as <-.
    left. reflexivity.
  - intros H. right. apply IH. exact H.
Qed.

Lemma keyed_by_name_set (book : AddressBook) (k : str) (r : record) :
  keyed_by_name book -> name r = k ->
  keyed_by_name (dict_set str_eqb book k r).
Proof.
  intros Hb Hr k' r' Hin.
  destruct (dict_set_In _ _ _ _ _ Hin) as [[-> ->]|H]; [exact Hr|].
  exact (Hb k' r' H).
Qed.

Lemma phones_valid_set (book : AddressBook) (k : str) (r : record) :
  phones_valid book -> valid_phones (phones r) ->
  phones_valid (dict_set str_eqb book k r).
Proof.
  intros Hb Hr r' Hin.
  destruct (dict_values_set _ _ _ _ Hin) as [->|H]; [exact Hr|].
  exact (Hb r' H).
Qed.

Lemma add_phones_keeps (new_phones : list str) :
  forall r,
    name (fst (add_phones r new_phones)) = name r
    /\ (valid_phones (phones r) ->
        valid_phones (phones (fst (add_phones r new_phones)))).
Proof.
  induction new_phones as [|p ps IH]; intros r; simpl; [auto|].
  unfold Record_add_phone.
  destruct (Phone_validate p) as [[]|e] eqn:V; [|auto].
  destruct (IH (mkRecord (name r) (phones r ++ [p]) (birthday r)))
    as [Hn Hv].
  split; [exact Hn|]. intros H. apply Hv. cbn [phones].
  apply Forall_app. split; [exact H|]. constructor; [exact V | constructor].
Qed.

Lemma edit_phone_keeps (r : record) (old_phone new_phone : str) :
  name (fst (Record_edit_phone r old_phone new_phone)) = name r
  /\ (valid_phones (phones r) ->
      valid_phones (phones (fst (Record_edit_phone r old_phone new_phone)))).
Proof.
  assert (F : valid_phones (phones r) ->
              valid_phones
                (filter (fun p => negb (str_eqb p old_phone)) (phones r))).
  { unfold valid_phones. rewrite !Forall_forall.
    intros H p Hp. apply filter_In in Hp. apply H. tauto. }
  unfold Record_edit_phone, Record_add_phone.
  destruct (Phone_validate new_phone) as [[]|e] eqn:V;
    cbn [fst name phones Record_remove_phone].
  - split; [reflexivity|]. intros H. apply Forall_app.
    split; [apply F; exact H|]. constructor; [exact V | constructor].
  - split; [reflexivity | exact F].
Qed.

Lemma add_birthday_keeps (r : record) (text : str) :
  name (fst (Record_add_birthday r text)) = name r
  /\ phones (fst (Record_add_birthday r text)) = phones r.
Proof.
  unfold Record_add_birthday. destruct (Birthday_init text); auto.
Qed.

Lemma handlers_keep_names_and_phones (normalize_century : bool)
    (today : date)
    (body : AddressBook -> list str -> AddressBook * result str) :
  In body (handler_bodies normalize_century today) ->
  forall book args,
    keyed_by_name book -> phones_valid book ->
    keyed_by_name (fst (body book args))
    /\ phones_valid (fst (body book args)).
Proof.
  unfold handler_bodies. simpl.
  intros [<-|[<-|[<-|[<-|[<-|[<-|[<-|[]]]]]]]] book args Hk Hp.
  - rewrite add_contact_body_set. cbv beta iota. destruct args as [|nm ps]; [auto|].
    unfold AddressBook_find, AddressBook_add_record.
    destruct (dict_get str_eqb book nm) as [r|] eqn:F.
    + destruct (add_phones_keeps ps r) as [Hn Hv].
      destruct (add_phones r ps) as [r' o]. cbn [fst] in *.
      pose proof (dict_get_In_pair _ _ _ F) as I. split.
      * apply keyed_by_name_set; [exact Hk|]. rewrite Hn. exact (Hk _ _ I).
      * apply phones_valid_set; [exact Hp|]. apply Hv, Hp.
        apply (dict_get_In _ _ _ F).
    + destruct (add_phones_keeps ps (Record_init nm)) as [Hn Hv].
      destruct (add_phones (Record_init nm) ps) as [r' o]. cbn [fst] in *.
      cbn [name Record_init]. split.
      * apply keyed_by_name_set; [|exact Hn].
        apply keyed_by_name_set; [exact Hk | reflexivity].
      * apply phones_valid_set; [|apply Hv; constructor].
        apply phones_valid_set; [exact Hp | constructor].
  - rewrite change_contact_body_set. cbv beta iota.
    destruct args as [|a [|o [|n [|? ?]]]]; auto.
    unfold AddressBook_find.
    destruct (dict_get str_eqb book a) as [r|] eqn:F; [|auto].
    destruct (edit_phone_keeps r o n) as [Hn Hv].
    destruct (Record_edit_phone r o n) as [r' out]. cbn [fst] in *.
    pose proof (dict_get_In_pair _ _ _ F) as I. split.
    + apply keyed_by_name_set; [exact Hk|]. rewrite Hn. exact (Hk _ _ I).
    + apply phones_valid_set; [exact Hp|]. apply Hv, Hp.
      apply (dict_get_In _ _ _ F).
  - rewrite (proj1 (showing_keeps_the_book_aux normalize_century today
                      book args)). auto.
  - rewrite (proj1 (proj2 (showing_keeps_the_book_aux normalize_century today
                             book args))). auto.
  - rewrite add_birthday_body_set. cbv beta iota.
    destruct args as [|a [|t [|? ?]]]; auto.
    unfold AddressBook_find.
    destruct (dict_get str_eqb book a) as [r|] eqn:F; [|auto].
    destruct (add_birthday_keeps r t) as [Hn Hv].
    destruct (Record_add_birthday r t) as [r' out]. cbn [fst] in *.
    pose proof (dict_get_In_pair _ _ _ F) as I. split.
    + apply keyed_by_name_set; [exact Hk|]. rewrite Hn. exact (Hk _ _ I).
    + apply phones_valid_set; [exact Hp|]. rewrite Hv. apply Hp.
      apply (dict_get_In _ _ _ F).
  - rewrite (proj1 (proj2 (proj2 (showing_keeps_the_book_aux
                                    normalize_century today book args)))).
    auto.
  - rewrite (proj2 (proj2 (proj2 (showing_keeps_the_book_aux
                                    normalize_century today book args)))).
    auto.
Qed.

(** X15: every address book that the handlers build from the empty one,
    by any calls with any arguments, failed ones included, is well formed:
    its keys are pairwise distinct, each record is stored under its own
    name, every stored phone passes validation and every stored birthday
    is a date of the calendar. *)
Theorem reachable_well_formed (normalize_century : bool)
    (book : AddressBook) :
  reachable normalize_century book -> well_formed book.
Proof.
  induction 1 as [|today book body args R IH Hbody].
  - unfold well_formed, distinct_keys, keyed_by_name, phones_valid,
      birthdays_valid.
    simpl. split; [constructor|]. split; [|split]; intros; contradiction.
  - destruct IH as (Hd & Hk & Hp & Hb).
    destruct (handlers_keep_names_and_phones _ _ _ Hbody book args Hk Hp)
      as [Hk' Hp'].
    split; [|split; [|split]].
    + exact (handlers_keep_distinct_keys _ _ _ Hbody book args Hd).
    + exact Hk'.
    + exact Hp'.
    + exact (handlers_keep_birthdays_valid _ _ _ Hbody book args Hb).
Qed.

Lemma reachable_well_formed_witness :
  well_formed
    (fst (add_birthday_body
            (fst (add_contact_body [] [lit "Ann"; lit "0123456789"]))
            [lit "Ann"; lit "1990.05.17"])).
Proof.
  refine (reachable_well_formed false _ _).
  apply (reachable_call false (mkdate 2024 5 17)).
  - apply (reachable_call false (mkdate 2024 5 17)).
    + apply reachable_empty.
    + left. reflexivity.
  - right. right. right. right. left. reflexivity.
Defined.

(** ** [Birthday]: rejected texts, and parsing what was rendered *)

Lemma match_m_d_invalid (m1 m2 d1 d2 : Z) (g : list (Z * str)) :
  ascii_digit m1 = true -> ascii_digit m2 = true ->
  ascii_digit d1 = true -> ascii_digit d2 = true ->
  ~ (1 <= 10 * (m1 - 48) + (m2 - 48) <= 12
     /\ 1 <= 10 * (d1 - 48) + (d2 - 48) <= 31) ->
  match re_match (Cat (Lit 46) (Cat regex_m (Cat (Lit 46) regex_d)))
          [46; m1; m2; 46; d1; d2] g
          (fun rest groups => Some (rest, groups)) with
  | Some ([], _) => False
  | _ => True
  end.
Proof.
  intros Hm1 Hm2 Hd1 Hd2 H.
  each_digit Hm1; each_digit Hm2; try exact I;
    each_digit Hd1; each_digit Hd2; try exact I; lia.
Qed.

(** X16: a text in the pattern [YYYY.MM.DD] that does not denote a date of
    the calendar (month 00 or 13, day 00, 31 April, 29 February 2023, year
    0000) is rejected: [Birthday] raises "Invalid date format. Use
    YYYY.MM.DD". With C8's parsing half, a text in the pattern is accepted
    exactly when it denotes a date. *)
Theorem birthday_rejects_impossible_date (s : str) :
  is_YYYY_MM_DD s = true ->
  ~ valid_date (denoted s) ->
  Birthday_init s = Raise InvalidDateFormat.
Proof.
  destruct s as [|y1 [|y2 [|y3 [|y4 [|p1 [|m1 [|m2 [|p2 [|d1 [|d2 [|? ?]]]]]]]]]]];
    try discriminate.
  unfold is_YYYY_MM_DD. rewrite !andb_true_iff, !Z.eqb_eq.
  intros [[D -> ] ->] NV. cbn [denoted] in NV.
  cbn [forallb] in D. rewrite !andb_true_iff in D.
  destruct D as (Hy1 & Hy2 & Hy3 & Hy4 & Hm1 & Hm2 & Hd1 & Hd2 & _).
  unfold Birthday_init, strptime_Ymd, format_regex. rewrite re_match_Cat.
  rewrite match_Y by assumption. cbv beta.
  assert (Dec : (1 <= 10 * (m1 - 48) + (m2 - 48) <= 12
                 /\ 1 <= 10 * (d1 - 48) + (d2 - 48) <= 31)
                \/ ~ (1 <= 10 * (m1 - 48) + (m2 - 48) <= 12
                      /\ 1 <= 10 * (d1 - 48) + (d2 - 48) <= 31)) by lia.
  destruct Dec as [[Hm Hd]|Hn].
  - rewrite match_m_d by assumption.
    unfold group, group_Y, group_m, group_d.
    cbn [dict_get Z.eqb Pos.eqb].
    rewrite py_int_4, !py_int_2 by assumption.
    destruct (date_new _ _ _) as [dt|e] eqn:E; [|reflexivity].
    apply date_new_Ok in E. destruct E as [_ V]. contradiction.
  - pose proof (match_m_d_invalid m1 m2 d1 d2 [(group_Y, [y1; y2; y3; y4])]
                  Hm1 Hm2 Hd1 Hd2 Hn) as M.
    destruct (re_match _ _ _ _) as [[[|? ?] ?]|];
      [contradiction | reflexivity | reflexivity].
Qed.

Lemma birthday_rejects_impossible_date_witness :
  Birthday_init (lit "2023.04.31") = Raise InvalidDateFormat.
Proof.
  refine (birthday_rejects_impossible_date (lit "2023.04.31") _ _).
  - reflexivity.
  - unfold valid_date. vm_compute. intuition.
Defined.

Lemma two_digit_chars (n : Z) :
  0 <= n <= 99 ->
  exists a b,
    ascii_digit a = true /\ ascii_digit b = true
    /\ n = 10 * (a - 48) + (b - 48).
Proof.
  intros H. exists (48 + n / 10), (48 + n mod 10).
  pose proof (Z.div_mod n 10 ltac:(lia)) as E.
  pose proof (Z.mod_pos_bound n 10 ltac:(lia)) as B.
  assert (Q : 0 <= n / 10 <= 9).
  { split; [apply Z.div_pos; lia|].
    apply Z.lt_succ_r, Z.div_lt_upper_bound; lia. }
  unfold ascii_digit. rewrite !andb_true_iff, !Z.leb_le. lia.
Qed.

Lemma four_digit_chars (n : Z) :
  0 <= n <= 9999 ->
  exists a b c d,
    ascii_digit a = true /\ ascii_digit b = true
    /\ ascii_digit c = true /\ ascii_digit d = true
    /\ n = 1000 * (a - 48) + 100 * (b - 48) + 10 * (c - 48) + (d - 48).
Proof.
  intros H.
  assert (Q : 0 <= n / 100 <= 99).
  { split; [apply Z.div_pos; lia|].
    apply Z.lt_succ_r, Z.div_lt_upper_bound; lia. }
  pose proof (Z.div_mod n 100 ltac:(lia)) as E.
  pose proof (Z.mod_pos_bound n 100 ltac:(lia)) as B.
  destruct (two_digit_chars (n / 100) Q) as (a & b & Ha & Hb & Hab).
  destruct (two_digit_chars (n mod 100) ltac:(lia)) as (c & d & Hc & Hd & Hcd).
  exists a, b, c, d. repeat split; try assumption. lia.
Qed.

(** X17: parsing undoes rendering: for a date of the calendar whose year
    is at least 1000 (or any year, where [%Y] is padded), the text that
    [str(birthday)] gives is in the pattern [YYYY.MM.DD] and [Birthday]
    parses it back to the same date. *)
Theorem birthday_render_then_parse (normalize_century : bool) (d : date) :
  valid_date d ->
  normalize_century = true \/ 1000 <= year d ->
  is_YYYY_MM_DD (Birthday_str normalize_century d) = true
  /\ Birthday_init (Birthday_str normalize_century d) = Ok d.
Proof.
  intros V Y. pose proof V as (Hy & Hm & Hd).
  assert (Hd31 : day d <= 31).
  { eapply Z.le_trans; [apply Hd|].
    unfold days_in_month. destruct (_ && _); [lia|].
    each_month Hm; cbn [DAYS_IN_MONTH]; lia. }
  unfold MINYEAR, MAXYEAR in Hy.
  destruct (four_digit_chars (year d) ltac:(lia))
    as (y1 & y2 & y3 & y4 & Hy1 & Hy2 & Hy3 & Hy4 & Ey).
  destruct (two_digit_chars (month d) ltac:(lia)) as (m1 & m2 & Hm1 & Hm2 & Em).
  destruct (two_digit_chars (day d) ltac:(lia)) as (d1 & d2 & Hd1 & Hd2 & Ed).
  assert (R : Birthday_str normalize_century d
              = [y1; y2; y3; y4; 46; m1; m2; 46; d1; d2]).
  { unfold Birthday_str, strftime_Ymd. rewrite Ey, Em, Ed.
    rewrite !two_digits by assumption.
    destruct normalize_century.
    - rewrite four_digits_padded by assumption. reflexivity.
    - destruct Y as [Y|Y]; [discriminate|].
      rewrite four_digits; [reflexivity | assumption..|].
      intros ->. unfold ascii_digit in *.
      rewrite andb_true_iff, !Z.leb_le in Hy2, Hy3, Hy4. lia. }
  rewrite R. split.
  - unfold is_YYYY_MM_DD. cbn [forallb].
    rewrite Hy1, Hy2, Hy3, Hy4, Hm1, Hm2, Hd1, Hd2. reflexivity.
  - unfold Birthday_init. rewrite strptime_Ymd_pattern.
    + rewrite <- Ey, <- Em, <- Ed. destruct d; reflexivity.
    + cbn [forallb].
      rewrite Hy1, Hy2, Hy3, Hy4, Hm1, Hm2, Hd1, Hd2. reflexivity.
    + rewrite <- Ey, <- Em, <- Ed. destruct d; exact V.
Qed.

Lemma birthday_render_then_parse_witness :
  is_YYYY_MM_DD (Birthday_str false (mkdate 2024 2 29)) = true
  /\ Birthday_init (Birthday_str false (mkdate 2024 2 29))
     = Ok (mkdate 2024 2 29).
Proof.
  refine (birthday_render_then_parse false (mkdate 2024 2 29) _ _).
  - unfold valid_date. vm_compute. intuition discriminate.
  - right. vm_compute. discriminate.
Defined.

(** ** The command loop *)

Lemma lstrip_decompose (s : str) :
  exists pre, blank pre = true /\ s = pre ++ lstrip s.
Proof.
  induction s as [|c s IH]; simpl.
  - exists []. auto.
  - destruct (Py_UNICODE_ISSPACE c) eqn:E.
    + destruct IH as (pre & Hp & Hs). exists (c :: pre). simpl.
      unfold blank in *. simpl. rewrite E, Hp. split; [reflexivity|].
      f_equal. exact Hs.
    + exists []. auto.
Qed.

Lemma blank_rev (s : str) : blank s = true -> blank (rev s) = true.
Proof.
  unfold blank. rewrite !forallb_forall. intros H x Hx.
  apply H, in_rev. exact Hx.
Qed.

Lemma split_from_blank (post : str) (word : str) :
  blank post = true ->
  split_from word post = match word with [] => [] | _ => [word] end.
Proof.
  unfold blank. revert word.
  induction post as [|c post IH]; intros word; simpl; [reflexivity|].
  rewrite andb_true_iff. intros [-> H].
  rewrite (IH [] H). destruct word; reflexivity.
Qed.

Lemma split_from_trailing (x post : str) :
  blank post = true ->
  forall word, split_from word (x ++ post) = split_from word x.
Proof.
  intros Hp. induction x as [|c x IH]; intros word; simpl.
  - apply split_from_blank. exact Hp.
  - destruct (Py_UNICODE_ISSPACE c); [|apply IH].
    rewrite IH. reflexivity.
Qed.

Lemma split_leading (pre x : str) :
  blank pre = true -> split (pre ++ x) = split x.
Proof.
  unfold blank, split. induction pre as [|c pre IH]; simpl; [reflexivity|].
  rewrite andb_true_iff. intros [-> H]. apply IH. exact H.
Qed.

(** [strip] before [split] changes nothing. *)
Lemma split_strip (s : str) : split (strip s) = split s.
Proof.
  unfold strip.
  destruct (lstrip_decompose s) as (pre & Hpre & Es).
  destruct (lstrip_decompose (rev (lstrip s))) as (post & Hpost & Er).
  assert (E : lstrip s = rev (lstrip (rev (lstrip s))) ++ rev post).
  { rewrite <- (rev_involutive (lstrip s)) at 1.
    rewrite Er at 1. apply rev_app_distr. }
  rewrite Es at 2. rewrite (split_leading pre _ Hpre).
  rewrite E at 2. unfold split.
  rewrite (split_from_trailing _ (rev post) (blank_rev _ Hpost)).
  reflexivity.
Qed.

Lemma split_blank (s : str) : split s = [] <-> blank s = true.
Proof.
  unfold split. split.
  - assert (G : forall s word, split_from word s = [] ->
              word = [] /\ blank s = true).
    { clear. induction s as [|c s IH]; intros word; simpl.
      - destruct word; [auto | discriminate].
      - unfold blank. simpl. destruct (Py_UNICODE_ISSPACE c).
        + destruct word; [|discriminate].
          intros H. destruct (IH [] H) as [_ B]. auto.
        + intros H. destruct (IH _ H) as [W _].
          destruct word; discriminate W. }
    intros H. exact (proj2 (G s [] H)).
  - intros H. rewrite (split_from_blank s [] H). reflexivity.
Qed.

(** X18: a blank line (empty, or white space only) makes [parse_input]
    raise "not enough values to unpack", and [main] does not catch it: the
    loop ends with this error. Every other line is parsed, and [main]
    answers it without raising. *)
Theorem blank_line_raises (lower : str -> str) (normalize_century : bool)
    (today : date) (book : AddressBook) (user_input : str) :
  (blank user_input = true ->
   parse_input lower user_input = Raise nothing_to_unpack
   /\ main_turn lower normalize_century today book user_input
      = Raise nothing_to_unpack)
  /\ (blank user_input = false ->
      (exists cmd args,
         split user_input = cmd :: args
         /\ parse_input lower user_input = Ok (lower cmd, args))
      /\ exists t,
           main_turn lower normalize_century today book user_input = Ok t).
Proof.
  split.
  - intros B. apply split_blank in B.
    assert (P : parse_input lower user_input = Raise nothing_to_unpack).
    { unfold parse_input. rewrite split_strip, B. reflexivity. }
    split; [exact P|]. unfold main_turn. rewrite P. reflexivity.
  - intros B.
    destruct (split user_input) as [|cmd args] eqn:S.
    + apply split_blank in S. congruence.
    + assert (P : parse_input lower user_input = Ok (lower cmd, args)).
      { unfold parse_input. rewrite split_strip, S. reflexivity. }
      split; [exists cmd, args; auto|].
      unfold main_turn. rewrite P. cbn [bind]. eauto.
Qed.

Lemma blank_line_raises_witness :
  parse_input (fun s => s) (lit "   ") = Raise nothing_to_unpack
  /\ main_turn (fun s => s) false (mkdate 2024 5 17) [] (lit "   ")
     = Raise nothing_to_unpack.
Proof.
  refine (proj1 (blank_line_raises (fun s => s) false (mkdate 2024 5 17) []
                   (lit "   ")) _).
  reflexivity.
Defined.

Lemma split_from_word (w : str) :
  forallb (fun c => negb (Py_UNICODE_ISSPACE c)) w = true ->
  forall word rest,
    split_from word (w ++ rest) = split_from (word ++ w) rest.
Proof.
  induction w as [|c w IH]; intros H word rest; simpl.
  - rewrite app_nil_r. reflexivity.
  - simpl in H. rewrite andb_true_iff, negb_true_iff in H.
    destruct H as [-> H]. rewrite (IH H).
    rewrite <- app_assoc. reflexivity.
Qed.

Lemma is_word_spec (w : str) :
  is_word w = true ->
  w <> [] /\ forallb (fun c => negb (Py_UNICODE_ISSPACE c)) w = true.
Proof. destruct w; [discriminate|]. intros H. split; [discriminate|exact H]. Qed.

Lemma split_join_words (words : list str) :
  forallb is_word words = true -> split (join [32] words) = words.
Proof.
  unfold split. induction words as [|w ws IH]; [reflexivity|].
  cbn [forallb]. rewrite andb_true_iff. intros [Hw Hws].
  destruct (is_word_spec w Hw) as [Hne Hns].
  destruct ws as [|w' ws].
  - cbn [join]. rewrite <- (app_nil_r w) at 1.
    rewrite (split_from_word w Hns). simpl.
    destruct w; [congruence | reflexivity].
  - change (join [32] (w :: w' :: ws))
      with (w ++ 32 :: join [32] (w' :: ws)).
    rewrite (split_from_word w Hns). cbn [app split_from].
    change (Py_UNICODE_ISSPACE 32) with true. cbv iota.
    rewrite (IH Hws). destruct w; [congruence | reflexivity].
Qed.

(** X19: a line made of a command word and argument words, separated by
    single spaces, with any white space before and after, is parsed into
    the lower-cased command and the arguments as typed. *)
Theorem parse_input_words (lower : str -> str) (pre post cmd : str)
    (args : list str) :
  blank pre = true -> blank post = true ->
  forallb is_word (cmd :: args) = true ->
  parse_input lower (pre ++ join [32] (cmd :: args) ++ post)
  = Ok (lower cmd, args).
Proof.
  intros Hpre Hpost Hw. unfold parse_input.
  rewrite split_strip, (split_leading pre _ Hpre). unfold split.
  rewrite (split_from_trailing _ post Hpost).
  fold (split (join [32] (cmd :: args))).
  rewrite (split_join_words _ Hw). reflexivity.
Qed.

Lemma parse_input_words_witness :
  parse_input (fun s => s) (lit "  add Ann 0123456789 ")
  = Ok (lit "add", [lit "Ann"; lit "0123456789"]).
Proof.
  refine (parse_input_words (fun s => s) (lit "  ") (lit " ") (lit "add")
            [lit "Ann"; lit "0123456789"] _ _ _); reflexivity.
Defined.

(** X20: only the commands [add], [change] and [add-birthday] can change
    the address book: for a line with any other command word, the loop
    leaves or goes on with the address book it had. *)
Theorem main_turn_keeps_the_book (lower : str -> str)
    (normalize_century : bool) (today : date) (book : AddressBook)
    (user_input command : str) (args : list str) :
  parse_input lower user_input = Ok (command, args) ->
  changing_command command = false ->
  exists printed,
    main_turn lower normalize_century today book user_input
    = Ok (Break printed)
    \/ main_turn lower normalize_century today book user_input
       = Ok (Continue book printed).
Proof.
  intros P C. unfold changing_command in C.
  rewrite !orb_false_iff in C. destruct C as [[Ca Cc] Cb].
  unfold main_turn. rewrite P. cbn [bind fst snd]. rewrite Ca, Cc, Cb.
  pose proof (showing_keeps_the_book_aux normalize_century today book) as K.
  destruct (str_eqb command (lit "close") || str_eqb command (lit "exit"));
    [eauto|].
  destruct (str_eqb command (lit "hello")); [eauto|].
  unfold continue_with, show_phone, show_all, show_birthday, birthdays.
  rewrite !input_error_fst.
  destruct (str_eqb command (lit "phone")).
  { rewrite (proj1 (K args)). eauto. }
  destruct (str_eqb command (lit "all")).
  { rewrite (proj1 (proj2 (K []))). eauto. }
  destruct (str_eqb command (lit "show-birthday")).
  { rewrite (proj1 (proj2 (proj2 (K args)))). eauto. }
  destruct (str_eqb command (lit "birthdays")).
  { rewrite (proj2 (proj2 (proj2 (K [])))). eauto. }
  eauto.
Qed.

Lemma main_turn_keeps_the_book_witness :
  let book := [(lit "Ann", mkRecord (lit "Ann") [lit "0123456789"] None)] in
  exists printed,
    main_turn (fun s => s) false (mkdate 2024 5 17) book (lit "phone Ann")
    = Ok (Break printed)
    \/ main_turn (fun s => s) false (mkdate 2024 5 17) book (lit "phone Ann")
       = Ok (Continue book printed).
Proof.
  intros book.
  refine (main_turn_keeps_the_book (fun s => s) false (mkdate 2024 5 17) book
            (lit "phone Ann") (lit "phone") [lit "Ann"] _ _); reflexivity.
Defined.
